(** * Order placement and fulfilment engine of the store schema

    A shallow embedding of [supabase/migrations/0001_init.sql] (tables,
    triggers and the two RPC functions [place_order] and
    [set_order_status]) and of the queue worker
    [functions/send-order-confirmation/index.ts].

    Conventions of the embedding:
    - a table with a [uuid] primary key is a finite map from the key to the
      remaining columns; [order_items] and [mail_queue] are kept as lists of
      rows in insertion order;
    - a [uuid] is represented by its canonical text;
    - PostgreSQL [integer] is [Z]; the operations that PostgreSQL checks for
      overflow raise [numeric_value_out_of_range] outside the int4 range;
    - a PL/pgSQL body is a state-and-exception computation over the
      database.  An exception leaves the partially updated state in the
      computation; the enclosing transaction ([transaction]) discards it;
    - both RPC functions are [security definer], so row level security
      policies do not filter their statements and are not part of the
      model. *)

From stdpp Require Import gmap strings list fin_maps.
From Stdlib Require Import ZArith Lia.

Open Scope Z_scope.

(** ** Scalar types *)

Abbreviation uuid := string.
Abbreviation timestamptz := Z.

(** [create type public.order_status as enum (...)] *)
Inductive order_status := pending | paid | shipped | delivered | canceled.

Global Instance order_status_eq_dec : EqDecision order_status.
Proof. solve_decision. Defined.

Definition int4_min : Z := -2147483648.
Definition int4_max : Z := 2147483647.
Definition in_int4 (z : Z) : bool := bool_decide (int4_min ≤ z ≤ int4_max).

(** ** Errors *)

(** The classes of errors PostgreSQL itself raises in the modelled
    statements. *)
Inductive sqlstate :=
| unique_violation
| not_null_violation
| check_violation
| foreign_key_violation
| numeric_value_out_of_range
| invalid_text_representation
| invalid_parameter_value.

(** [raise exception '<message>'] of PL/pgSQL, or an error of the server. *)
Inductive exn :=
| raise_exception (message : string)
| sql_error (code : sqlstate).

Global Instance sqlstate_eq_dec : EqDecision sqlstate.
Proof. solve_decision. Defined.
Global Instance exn_eq_dec : EqDecision exn.
Proof. solve_decision. Defined.

(** The exceptions of the two RPC functions, under the names the
    specification gives them. *)
Definition Unauthenticated : exn := raise_exception "Usuário não autenticado".
Definition CustomerNotFound : exn := raise_exception "Cliente não encontrado".
Definition InvalidQuantity : exn := raise_exception "Quantidade inválida".
Definition ProductUnavailable : exn := raise_exception "Produto inválido ou inativo".
Definition InsufficientStock : exn := raise_exception "Estoque insuficiente".
Definition OrderNotFound : exn := raise_exception "Pedido não encontrado".
Definition Forbidden : exn := raise_exception "Ação não permitida".

(** ** Tables *)

Module customers.
Record row := mk {
  user_id : option uuid;
  full_name : string;
  email : string;
  phone : option string;
  created_at : timestamptz }.
End customers.

Module products.
Record row := mk {
  sku : string;
  name : string;
  description : option string;
  price_cents : Z;
  currency : string;
  stock : Z;
  active : bool;
  created_at : timestamptz;
  updated_at : timestamptz }.

Definition with_stock (p : row) (v : Z) : row :=
  mk (sku p) (name p) (description p) (price_cents p) (currency p) v
     (active p) (created_at p) (updated_at p).
Definition with_price_cents (p : row) (v : Z) : row :=
  mk (sku p) (name p) (description p) v (currency p) (stock p)
     (active p) (created_at p) (updated_at p).
Definition with_updated_at (p : row) (v : timestamptz) : row :=
  mk (sku p) (name p) (description p) (price_cents p) (currency p) (stock p)
     (active p) (created_at p) v.
End products.

Module orders.
Record row := mk {
  customer_id : uuid;
  status : order_status;
  total_cents : Z;
  placed_at : timestamptz;
  updated_at : timestamptz }.

Definition with_status (o : row) (v : order_status) : row :=
  mk (customer_id o) v (total_cents o) (placed_at o) (updated_at o).
Definition with_total_cents (o : row) (v : Z) : row :=
  mk (customer_id o) (status o) v (placed_at o) (updated_at o).
Definition with_updated_at (o : row) (v : timestamptz) : row :=
  mk (customer_id o) (status o) (total_cents o) (placed_at o) v.
End orders.

Module order_items.
Record row := mk {
  id : uuid;
  order_id : uuid;
  product_id : uuid;
  quantity : Z;
  unit_price_cents : Z;
  created_at : timestamptz }.
End order_items.

Module mail_queue.
(** The [payload] column is [jsonb]; the trigger stores an object with the
    single key [customer_name], whose value may be JSON null. *)
Record jsonb_payload := mk_payload { customer_name : option string }.

Record row := mk {
  id : Z;
  order_id : uuid;
  to_email : string;
  payload : jsonb_payload;
  status : string;
  created_at : timestamptz;
  processed_at : option timestamptz }.

Definition with_status_processed_at (r : row) (st : string) (t : timestamptz) : row :=
  mk (id r) (order_id r) (to_email r) (payload r) st (created_at r) (Some t).
End mail_queue.

(** The database: the five tables and the identity sequence of
    [mail_queue.id]. *)
Record db := mk_db {
  customers : gmap uuid customers.row;
  products : gmap uuid products.row;
  orders : gmap uuid orders.row;
  order_items : list order_items.row;
  mail_queue : list mail_queue.row;
  mail_queue_id_seq : Z }.

Definition with_products (d : db) (v : gmap uuid products.row) : db :=
  mk_db (customers d) v (orders d) (order_items d) (mail_queue d) (mail_queue_id_seq d).
Definition with_orders (d : db) (v : gmap uuid orders.row) : db :=
  mk_db (customers d) (products d) v (order_items d) (mail_queue d) (mail_queue_id_seq d).
Definition with_order_items (d : db) (v : list order_items.row) : db :=
  mk_db (customers d) (products d) (orders d) v (mail_queue d) (mail_queue_id_seq d).
Definition with_mail_queue (d : db) (v : list mail_queue.row) : db :=
  mk_db (customers d) (products d) (orders d) (order_items d) v (mail_queue_id_seq d).
Definition with_mail_queue_id_seq (d : db) (v : Z) : db :=
  mk_db (customers d) (products d) (orders d) (order_items d) (mail_queue d) v.

(** What a statement sees of its session: the caller ([auth.uid()]), the
    transaction's [now()] and the values [gen_random_uuid()] returns, in the
    order of its evaluations within the transaction. *)
Record session := mk_session {
  auth_uid : option uuid;
  now : timestamptz;
  gen_random_uuid : nat → uuid }.

(** ** Computations *)

Definition M (A : Type) : Type := db → db * (exn + A).

Global Instance M_ret : MRet M := λ A a d, (d, inr a).
Global Instance M_bind : MBind M := λ A B k m d,
  match m d with
  | (d', inr a) => k a d'
  | (d', inl e) => (d', inl e)
  end.

Definition raise {A} (e : exn) : M A := λ d, (d, inl e).
Definition get : M db := λ d, (d, inr d).
Definition put (d : db) : M unit := λ _, (d, inr tt).
Definition lift {A} (r : exn + A) : M A := λ d, (d, r).

(** A transaction abort restores every table; a sequence keeps the values
    it has handed out. *)
Definition rollback (before partial : db) : db :=
  with_mail_queue_id_seq before (mail_queue_id_seq partial).

Definition transaction {A} (m : M A) : M A := λ d,
  match m d with
  | (d', inr a) => (d', inr a)
  | (d', inl e) => (rollback d d', inl e)
  end.

(** ** SQL values and three-valued logic *)

(** The comparison [<>] and the connective [or], where an operand may be
    NULL ([None]). *)
Definition sql_ne {A} `{EqDecision A} (a b : option A) : option bool :=
  match a, b with
  | Some x, Some y => Some (negb (bool_decide (x = y)))
  | _, _ => None
  end.

Definition sql_or (a b : option bool) : option bool :=
  match a, b with
  | Some true, _ | _, Some true => Some true
  | Some false, Some false => Some false
  | _, _ => None
  end.

(** The condition of a PL/pgSQL [if]: NULL does not take the branch. *)
Definition sql_true (c : option bool) : bool :=
  match c with Some true => true | _ => false end.

Definition coalesce {A} (a b : option A) : option A :=
  match a with Some _ => a | None => b end.

(** integer * integer *)
Definition int4mul (a b : Z) : exn + Z :=
  if in_int4 (a * b) then inr (a * b) else inl (sql_error numeric_value_out_of_range).

(** The cast of a bigint to integer. *)
Definition int8_to_int4 (a : Z) : exn + Z :=
  if in_int4 a then inr a else inl (sql_error numeric_value_out_of_range).

(** ** The argument of [place_order] *)

(** The outcome of [(v_item->>'key')::type]: the key is absent or JSON null
    (SQL NULL), its text is a value of the type, or the cast rejects it. *)
Inductive cast (A : Type) :=
| is_null
| value (a : A)
| invalid_syntax.
Arguments is_null {A}.
Arguments value {A} a.
Arguments invalid_syntax {A}.

Module item.
Record t := mk { product_id : cast uuid; quantity : cast Z }.
End item.

Inductive jsonb :=
| jsonb_sql_null
| jsonb_not_array
| jsonb_array (elements : list item.t).

(** [jsonb_array_elements] is strict (no row for NULL) and rejects a value
    that is not an array. *)
Definition jsonb_array_elements (items : jsonb) : M (list item.t) :=
  match items with
  | jsonb_sql_null => mret []
  | jsonb_not_array => raise (sql_error invalid_parameter_value)
  | jsonb_array elements => mret elements
  end.

Definition text_to_uuid (c : cast uuid) : M (option uuid) :=
  match c with
  | is_null => mret None
  | value u => mret (Some u)
  | invalid_syntax => raise (sql_error invalid_text_representation)
  end.

Definition text_to_int (c : cast Z) : M (option Z) :=
  match c with
  | is_null => mret None
  | value z =>
      if in_int4 z then mret (Some z)
      else raise (sql_error numeric_value_out_of_range)
  | invalid_syntax => raise (sql_error invalid_text_representation)
  end.

(** ** Triggers on [updated_at] *)

(** [set_updated_at()], as fired by [trg_products_updated] and by
    [trg_orders_updated] before each row update. *)
Definition trg_products_updated (s : session) (new : products.row) : products.row :=
  products.with_updated_at new (now s).

Definition trg_orders_updated (s : session) (new : orders.row) : orders.row :=
  orders.with_updated_at new (now s).

(** ** [compute_order_total] *)

Definition of_order (p_order_id : uuid) (oi : order_items.row) : bool :=
  bool_decide (order_items.order_id oi = p_order_id).

(** [oi.quantity * oi.unit_price_cents] for each selected row, an integer
    multiplication per row. *)
Fixpoint quantity_times_price (rows : list order_items.row) : exn + list Z :=
  match rows with
  | [] => inr []
  | oi :: rest =>
      match int4mul (order_items.quantity oi) (order_items.unit_price_cents oi) with
      | inl e => inl e
      | inr v =>
          match quantity_times_price rest with
          | inl e => inl e
          | inr values => inr (v :: values)
          end
      end
  end.

(** The aggregate [sum] over integers: NULL when there is no row, else the
    total, which accumulates in a bigint. *)
Definition sql_sum (values : list Z) : option Z :=
  match values with
  | [] => None
  | _ :: _ => Some (foldr Z.add 0 values)
  end.

(** [select coalesce(sum(oi.quantity * oi.unit_price_cents), 0)
     from public.order_items oi where oi.order_id = p_order_id].
    The function is [stable], it only reads; it returns an integer, so the
    bigint is cast back. *)
Definition compute_order_total (d : db) (p_order_id : uuid) : exn + Z :=
  match quantity_times_price
          (filter (λ oi, of_order p_order_id oi = true) (order_items d)) with
  | inl e => inl e
  | inr values => int8_to_int4 (default 0 (sql_sum values))
  end.

(** ** Statements on [orders] *)

(** [update public.orders o set total_cents = public.compute_order_total(o.id)
     where o.id = ...].  [status] is not assigned, so
    [trg_orders_paid_enqueue] does not fire. *)
Definition update_orders_total (s : session) (target : option uuid) : M unit :=
  d ← get;
  match target with
  | None => mret tt
  | Some oid =>
      match orders d !! oid with
      | None => mret tt
      | Some o =>
          total ← lift (compute_order_total d oid);
          let new := trg_orders_updated s (orders.with_total_cents o total) in
          if bool_decide (0 ≤ orders.total_cents new)
          then put (with_orders d (<[oid := new]> (orders d)))
          else raise (sql_error check_violation)
      end
  end.

(** [update_order_total()], fired by [trg_order_items_total_aiud] after each
    inserted, updated or deleted row of [order_items]; [old] is absent on
    insert and [new] on delete. *)
Definition update_order_total (s : session) (old new : option order_items.row) : M unit :=
  update_orders_total s
    (coalesce (order_items.order_id <$> new) (order_items.order_id <$> old)).

(** [insert into public.orders(customer_id) values (...) returning id],
    with the column defaults. *)
Definition insert_orders (s : session) (id : uuid) (customer_id : uuid) : M uuid :=
  d ← get;
  match orders d !! id with
  | Some _ => raise (sql_error unique_violation)
  | None =>
      match customers d !! customer_id with
      | None => raise (sql_error foreign_key_violation)
      | Some _ =>
          _ ← put (with_orders d
                 (<[id := orders.mk customer_id pending 0 (now s) (now s)]> (orders d)));
          mret id
      end
  end.

(** ** Statements on [mail_queue] *)

(** [insert into public.mail_queue(order_id, to_email, payload) values (...)]:
    the identity column takes the next value of its sequence, which no
    stored row has. *)
Definition insert_mail_queue (s : session) (order_id : uuid) (to_email : option string)
    (payload : mail_queue.jsonb_payload) : M unit :=
  d ← get;
  let id := mail_queue_id_seq d in
  _ ← put (with_mail_queue_id_seq d (id + 1));
  match to_email with
  | None => raise (sql_error not_null_violation)
  | Some to_email =>
      d ← get;
      put (with_mail_queue d
             (mail_queue d ++
              [mail_queue.mk id order_id to_email payload "pending" (now s) None]))
  end.

(** [enqueue_order_confirmation()], fired by [trg_orders_paid_enqueue] after
    each row of an update that assigns [status]. *)
Definition enqueue_order_confirmation (s : session) (id : uuid) (old new : orders.row) : M unit :=
  if bool_decide (orders.status new = paid) && negb (bool_decide (orders.status old = paid))
  then
    d ← get;
    let c := customers d !! orders.customer_id new in
    let v_email := customers.email <$> c in
    let v_name := customers.full_name <$> c in
    insert_mail_queue s id v_email (mail_queue.mk_payload v_name)
  else mret tt.

(** [update public.orders set status = p_next where id = p_order_id]. *)
Definition update_orders_status (s : session) (p_order_id : uuid)
    (p_next : option order_status) : M unit :=
  d ← get;
  match orders d !! p_order_id with
  | None => mret tt
  | Some old =>
      match p_next with
      | None => raise (sql_error not_null_violation)
      | Some next =>
          let new := trg_orders_updated s (orders.with_status old next) in
          _ ← put (with_orders d (<[p_order_id := new]> (orders d)));
          enqueue_order_confirmation s p_order_id old new
      end
  end.

(** ** Statements on [products] *)

(** [select price_cents into v_price from public.products p
     where p.id = v_product_id and p.active = true] *)
Definition select_price_cents (v_product_id : option uuid) : M (option Z) :=
  d ← get;
  mret (match v_product_id with
        | None => None
        | Some pid =>
            match products d !! pid with
            | Some p => if products.active p then Some (products.price_cents p) else None
            | None => None
            end
        end).

(** [update public.products p set stock = stock - v_qty
     where p.id = v_product_id and p.stock >= v_qty]; the result is [found].
    With [0 < v_qty <= stock] the subtraction stays in range. *)
Definition update_products_stock (s : session) (v_product_id : option uuid) (v_qty : Z) : M bool :=
  d ← get;
  match v_product_id with
  | None => mret false
  | Some pid =>
      match products d !! pid with
      | None => mret false
      | Some p =>
          if bool_decide (v_qty ≤ products.stock p) then
            let new := trg_products_updated s (products.with_stock p (products.stock p - v_qty)) in
            if bool_decide (0 ≤ products.stock new) then
              _ ← put (with_products d (<[pid := new]> (products d)));
              mret true
            else raise (sql_error check_violation)
          else mret false
      end
  end.

(** [update public.products set price_cents = ... where id = ...], the
    price change of the catalog administration. *)
Definition update_products_price_cents (s : session) (id : uuid) (price_cents : Z) : M unit :=
  d ← get;
  match products d !! id with
  | None => mret tt
  | Some p =>
      let new := trg_products_updated s (products.with_price_cents p price_cents) in
      if bool_decide (0 ≤ products.price_cents new)
      then put (with_products d (<[id := new]> (products d)))
      else raise (sql_error check_violation)
  end.

(** ** Statements on [order_items] *)

Definition has_id (id : uuid) (oi : order_items.row) : bool :=
  bool_decide (order_items.id oi = id).

(** The column checks and the foreign keys of a row of [order_items]. *)
Definition check_order_items (d : db) (oi : order_items.row) : exn + unit :=
  if negb (bool_decide (0 < order_items.quantity oi)
           && bool_decide (0 ≤ order_items.unit_price_cents oi))
  then inl (sql_error check_violation)
  else
    match orders d !! order_items.order_id oi, products d !! order_items.product_id oi with
    | Some _, Some _ => inr tt
    | _, _ => inl (sql_error foreign_key_violation)
    end.

(** [insert into public.order_items(order_id, product_id, quantity,
     unit_price_cents) values (...)], followed by its row trigger. *)
Definition insert_order_items (s : session) (id : uuid) (order_id : uuid)
    (product_id : option uuid) (quantity unit_price_cents : Z) : M unit :=
  d ← get;
  if existsb (has_id id) (order_items d) then raise (sql_error unique_violation) else
  match product_id with
  | None => raise (sql_error not_null_violation)
  | Some product_id =>
      let new := order_items.mk id order_id product_id quantity unit_price_cents (now s) in
      _ ← lift (check_order_items d new);
      _ ← put (with_order_items d (order_items d ++ [new]));
      update_order_total s None (Some new)
  end.

(** The row triggers of a statement fire once the statement has changed
    its rows, one firing per row. *)
Fixpoint for_each_row {A} (fire : A → M unit) (rows : list A) : M unit :=
  match rows with
  | [] => mret tt
  | r :: rest => _ ← fire r; for_each_row fire rest
  end.

(** [delete from public.order_items where id = ...], as a client with
    write access to the table may issue it; the function [place_order] only
    inserts. *)
Definition delete_order_items (s : session) (id : uuid) : M unit :=
  d ← get;
  let deleted := filter (λ oi, has_id id oi = true) (order_items d) in
  _ ← put (with_order_items d (filter (λ oi, has_id id oi = false) (order_items d)));
  for_each_row (λ old, update_order_total s (Some old) None) deleted.

(** The [set] list of an update of [order_items]: a column is assigned or
    left as it is. *)
Record order_items_set := mk_set {
  set_order_id : option uuid;
  set_quantity : option Z;
  set_unit_price_cents : option Z }.

Definition assign (a : order_items_set) (oi : order_items.row) : order_items.row :=
  order_items.mk (order_items.id oi)
    (default (order_items.order_id oi) (set_order_id a))
    (order_items.product_id oi)
    (default (order_items.quantity oi) (set_quantity a))
    (default (order_items.unit_price_cents oi) (set_unit_price_cents a))
    (order_items.created_at oi).

Fixpoint check_all (d : db) (rows : list order_items.row) : exn + unit :=
  match rows with
  | [] => inr tt
  | r :: rest =>
      match check_order_items d r with
      | inl e => inl e
      | inr _ => check_all d rest
      end
  end.

(** [update public.order_items set ... where id = ...], likewise issued
    from outside the two RPC functions. *)
Definition update_order_items (s : session) (id : uuid) (a : order_items_set) : M unit :=
  d ← get;
  let updated := filter (λ oi, has_id id oi = true) (order_items d) in
  _ ← lift (check_all d (assign a <$> updated));
  _ ← put (with_order_items d
         ((λ oi, if has_id id oi then assign a oi else oi) <$> order_items d));
  for_each_row (λ old, update_order_total s (Some old) (Some (assign a old))) updated.

(** ** [place_order] *)

(** [select c.id into v_customer_id from public.customers c
     where c.user_id = v_user_id]: the first row found, if any. *)
Definition select_customer_id (v_user_id : uuid) : M (option uuid) :=
  d ← get;
  mret (fst <$> head (map_to_list
          (filter (λ c, customers.user_id c.2 = Some v_user_id) (customers d)))).

(** One turn of the loop over the items; [k] counts the evaluations of
    [gen_random_uuid()] so far. *)
Definition place_order_item (s : session) (v_order_id : uuid) (k : nat)
    (v_item : item.t) : M unit :=
  v_product_id ← text_to_uuid (item.product_id v_item);
  v_qty ← text_to_int (item.quantity v_item);
  match v_qty with
  | None => raise InvalidQuantity
  | Some v_qty =>
      if bool_decide (v_qty ≤ 0) then raise InvalidQuantity else
      v_price ← select_price_cents v_product_id;
      match v_price with
      | None => raise ProductUnavailable
      | Some v_price =>
          found ← update_products_stock s v_product_id v_qty;
          if negb found then raise InsufficientStock else
          insert_order_items s (gen_random_uuid s k) v_order_id v_product_id v_qty v_price
      end
  end.

Fixpoint place_order_loop (s : session) (v_order_id : uuid) (k : nat)
    (items : list item.t) : M unit :=
  match items with
  | [] => mret tt
  | v_item :: rest =>
      _ ← place_order_item s v_order_id k v_item;
      place_order_loop s v_order_id (S k) rest
  end.

Definition place_order_body (s : session) (items : jsonb) : M uuid :=
  match auth_uid s with
  | None => raise Unauthenticated
  | Some v_user_id =>
      v_customer_id ← select_customer_id v_user_id;
      match v_customer_id with
      | None => raise CustomerNotFound
      | Some v_customer_id =>
          v_order_id ← insert_orders s (gen_random_uuid s 0) v_customer_id;
          elements ← jsonb_array_elements items;
          _ ← place_order_loop s v_order_id 1 elements;
          mret v_order_id
      end
  end.

(** The RPC call: the body runs in one transaction. *)
Definition place_order (s : session) (items : jsonb) : M uuid :=
  transaction (place_order_body s items).

(** ** [set_order_status] *)

(** [exists(select 1 from public.customers c
            where c.id = v_cust and c.user_id = v_user)] *)
Definition is_owner (d : db) (v_cust v_user : uuid) : bool :=
  match customers d !! v_cust with
  | Some c => bool_decide (customers.user_id c = Some v_user)
  | None => false
  end.

Definition set_order_status_body (s : session) (p_order_id : uuid)
    (p_next : option order_status) : M unit :=
  d ← get;
  match orders d !! p_order_id with
  | None => raise OrderNotFound
  | Some o =>
      let v_curr := orders.status o in
      let v_cust := orders.customer_id o in
      _ ← match auth_uid s with
          | Some v_user =>
              if is_owner d v_cust v_user then
                if sql_true (sql_or (sql_ne p_next (Some canceled))
                                    (sql_ne (Some v_curr) (Some pending)))
                then raise Forbidden
                else mret tt
              else mret tt
          | None => mret tt
          end;
      update_orders_status s p_order_id p_next
  end.

Definition set_order_status (s : session) (p_order_id : uuid)
    (p_next : option order_status) : M unit :=
  transaction (set_order_status_body s p_order_id p_next).

(** ** The queue worker [send-order-confirmation] *)

Module worker.

(** The outcome of the [fetch] of the mail API: the promise rejects, or a
    response arrives, [ok] or not, with a body that parses as JSON or
    not. *)
Inductive fetch_result :=
| rejects
| response (ok : bool) (body_is_json : bool).

Record mail := mk_mail {
  from : string;
  to : string;
  subject : string;
  html : string }.

(** The surroundings of one invocation: the environment variable, the
    mail API, the error of the [select] (if the client reports one) and
    the clock read by the n-th [new Date()]. *)
Record env := mk_env {
  RESEND_API_KEY : option string;
  fetch : mail → fetch_result;
  select_error : option string;
  clock : nat → timestamptz }.

Record Response := mk_response { body : string; status : Z }.

(** [sendEmail]: [true] when the promise resolves, [false] when it
    throws.  An unset or empty key is falsy. *)
Definition sendEmail (e : env) (to subject html : string) : bool :=
  match RESEND_API_KEY e with
  | None | Some EmptyString => true
  | Some _ =>
      match fetch e (mk_mail "no-reply@escribo.dev" to subject html) with
      | rejects => false
      | response ok body_is_json => ok && body_is_json
      end
  end.

Definition newline : string := String (Ascii.ascii_of_nat 10) EmptyString.

Definition html_of (nomeCliente order_id : string) : string :=
  newline +:+ "      <p>Olá, " +:+ nomeCliente +:+ "!</p>" +:+
  newline +:+ "      <p>Recebemos o pagamento do seu pedido <b>" +:+ order_id +:+ "</b>.</p>" +:+
  newline +:+ "      <p>Em breve você receberá atualizações de envio.</p>" +:+
  newline +:+ "    ".

(** [client.from("mail_queue").update({ status, processed_at }).eq("id", id)] *)
Definition update_mail_queue (id : Z) (st : string) (t : timestamptz)
    (queue : list mail_queue.row) : list mail_queue.row :=
  (λ r, if bool_decide (mail_queue.id r = id)
        then mail_queue.with_status_processed_at r st t else r) <$> queue.

(** One turn of [for (const row of pendentes)]; [n] counts the turns. *)
Definition process_row (e : env) (n : nat) (row : mail_queue.row)
    (queue : list mail_queue.row) : list mail_queue.row :=
  let assunto := "Confirmação do pedido " +:+ mail_queue.order_id row in
  let nomeCliente := default "Cliente" (mail_queue.customer_name (mail_queue.payload row)) in
  let html := html_of nomeCliente (mail_queue.order_id row) in
  if sendEmail e (mail_queue.to_email row) assunto html
  then update_mail_queue (mail_queue.id row) "sent" (clock e n) queue
  else update_mail_queue (mail_queue.id row) "error" (clock e n) queue.

Fixpoint process_rows (e : env) (n : nat) (pendentes : list mail_queue.row)
    (queue : list mail_queue.row) : list mail_queue.row :=
  match pendentes with
  | [] => queue
  | row :: rest => process_rows e (S n) rest (process_row e n row queue)
  end.

Definition is_pending (r : mail_queue.row) : bool :=
  bool_decide (mail_queue.status r = "pending").

(** [.from("mail_queue").select(...).eq("status", "pending").limit(10)] *)
Definition select_pending (queue : list mail_queue.row) : list mail_queue.row :=
  take 10 (filter (λ r, is_pending r = true) queue).

Definition handler (e : env) (d : db) : db * Response :=
  match select_error e with
  | Some message => (d, mk_response message 500)
  | None =>
      let pendentes := select_pending (mail_queue d) in
      match pendentes with
      | [] => (d, mk_response "Nenhum e-mail pendente." 200)
      | _ :: _ =>
          (with_mail_queue d (process_rows e 0 pendentes (mail_queue d)),
           mk_response "E-mails processados com sucesso!" 200)
      end
  end.

End worker.

(** * Vocabulary of the properties *)

(** A computation leaves a component [f] of the database as it is, whatever
    its outcome. *)
Definition unchanged {B A} (f : db → B) (m : M A) : Prop :=
  ∀ d d' r, m d = (d', r) → f d' = f d.

(** The components a statement does not assign: [f] does not depend on the
    table the statement writes. *)
Definition ignores_products {B} (f : db → B) := ∀ d v, f (with_products d v) = f d.
Definition ignores_orders {B} (f : db → B) := ∀ d v, f (with_orders d v) = f d.
Definition ignores_order_items {B} (f : db → B) := ∀ d v, f (with_order_items d v) = f d.

(** ** Stock *)

(** The stock of a product, when the product exists. *)
Definition stock_of (d : db) (pid : uuid) : option Z :=
  products.stock <$> products d !! pid.

(** The quantity an item asks of the product [pid]. *)
Definition requested (pid : uuid) (it : item.t) : Z :=
  match item.product_id it, item.quantity it with
  | value p, value q => if bool_decide (p = pid) then q else 0
  | _, _ => 0
  end.

Definition requested_total (pid : uuid) (items : list item.t) : Z :=
  foldr (λ it acc, requested pid it + acc) 0 items.

Definition elements_of (items : jsonb) : list item.t :=
  match items with
  | jsonb_array elements => elements
  | _ => []
  end.

(** A sequence of calls of [place_order], each in its own session, and the
    result of each. *)
Fixpoint place_orders (calls : list (session * jsonb)) (d : db) : db * list (exn + uuid) :=
  match calls with
  | [] => (d, [])
  | (s, items) :: rest =>
      let '(d1, r) := place_order s items d in
      let '(d2, rs) := place_orders rest d1 in
      (d2, r :: rs)
  end.

(** The quantities of [pid] reserved by the calls that succeeded. *)
Fixpoint reserved (pid : uuid) (calls : list (session * jsonb))
    (results : list (exn + uuid)) : Z :=
  match calls, results with
  | (_, items) :: calls, inr _ :: results =>
      requested_total pid (elements_of items) + reserved pid calls results
  | _ :: calls, inl _ :: results => reserved pid calls results
  | _, _ => 0
  end.

(** ** Validation

    The casts of an item and the preconditions of the specification. *)

(** Both casts of an item go through: the text of [product_id], when
    present, is a uuid, and that of [quantity] an integer. *)
Definition well_typed (it : item.t) : bool :=
  match item.product_id it, item.quantity it with
  | invalid_syntax, _ | _, invalid_syntax => false
  | _, value q => in_int4 q
  | _, is_null => true
  end.

(** The error of the casts of an item, which run before any check:
    [product_id] first, then [quantity], whose text may be no integer or an
    integer out of range. *)
Definition cast_error (it : item.t) : option exn :=
  match item.product_id it with
  | invalid_syntax => Some (sql_error invalid_text_representation)
  | _ =>
      match item.quantity it with
      | invalid_syntax => Some (sql_error invalid_text_representation)
      | value q =>
          if in_int4 q then None else Some (sql_error numeric_value_out_of_range)
      | is_null => None
      end
  end.

(** The preconditions 2 to 4 of the specification, in its order: the first
    one the item violates against the products of [d], if any. *)
Definition first_violation (d : db) (it : item.t) : option exn :=
  match item.quantity it with
  | value q =>
      if bool_decide (0 < q) then
        match item.product_id it with
        | value pid =>
            match products d !! pid with
            | Some p =>
                if products.active p then
                  if bool_decide (q ≤ products.stock p) then None
                  else Some InsufficientStock
                else Some ProductUnavailable
            | None => Some ProductUnavailable
            end
        | _ => Some ProductUnavailable
        end
      else Some InvalidQuantity
  | _ => Some InvalidQuantity
  end.

(** ** Status updates *)

(** The caller is the customer the order belongs to: the condition under
    which [set_order_status] applies its restriction. *)
Definition caller_owns (s : session) (d : db) (o : orders.row) : bool :=
  match auth_uid s with
  | Some v_user => is_owner d (orders.customer_id o) v_user
  | None => false
  end.

(** The edges of the status graph of the specification. *)
Definition allowed_edge (curr next : order_status) : bool :=
  match curr, next with
  | pending, paid | paid, shipped | shipped, delivered | pending, canceled => true
  | _, _ => false
  end.

(** The job the trigger enqueues for the order [oid] of customer [c]. *)
Definition confirmation_job (s : session) (d : db) (oid : uuid) (c : customers.row)
    : mail_queue.row :=
  mail_queue.mk (mail_queue_id_seq d) oid (customers.email c)
    (mail_queue.mk_payload (Some (customers.full_name c))) "pending" (now s) None.

(** The order row after a status update in session [s]. *)
Definition with_next_status (s : session) (o : orders.row) (next : order_status) : orders.row :=
  trg_orders_updated s (orders.with_status o next).

(** A job is due when the update moves the order into [paid]. *)
Definition into_paid (curr next : order_status) : bool :=
  bool_decide (next = paid) && negb (bool_decide (curr = paid)).

(** The database after a status update that succeeds. *)
Definition status_updated (s : session) (d : db) (oid : uuid) (o : orders.row)
    (next : order_status) (c : customers.row) : db :=
  let d1 := with_orders d (<[oid := with_next_status s o next]> (orders d)) in
  if into_paid (orders.status o) next
  then with_mail_queue (with_mail_queue_id_seq d1 (mail_queue_id_seq d + 1))
         (mail_queue d ++ [confirmation_job s d oid c])
  else d1.

(** ** Totals *)

Definition line_total (oi : order_items.row) : Z :=
  order_items.quantity oi * order_items.unit_price_cents oi.

Definition sum_line_totals (rows : list order_items.row) : Z :=
  foldr (λ oi acc, line_total oi + acc) 0 rows.

(** The sum of quantity times unit price over the line items of an order. *)
Definition order_total (d : db) (oid : uuid) : Z :=
  sum_line_totals (filter (λ oi, of_order oid oi = true) (order_items d)).

(** The stored total of the order [oid], if the order exists, is what
    [compute_order_total] returns for it. *)
Definition consistent_at (d : db) (oid : uuid) : Prop :=
  ∀ o, orders d !! oid = Some o → compute_order_total d oid = inr (orders.total_cents o).

Definition totals_consistent (d : db) : Prop := ∀ oid, consistent_at d oid.

(** The foreign key of [order_items.order_id]. *)
Definition items_have_orders (d : db) : Prop :=
  ∀ oi, oi ∈ order_items d → is_Some (orders d !! order_items.order_id oi).

(** An update of [order_items] that leaves each line with its order. *)
Definition keeps_order (a : order_items_set) : Prop := set_order_id a = None.

(** One call of a public operation, whatever its outcome. *)
Inductive public_step (d d' : db) : Prop :=
| step_place_order s items r :
    place_order s items d = (d', r) → public_step d d'
| step_set_order_status s p_order_id p_next r :
    set_order_status s p_order_id p_next d = (d', r) → public_step d d'.

(** The states the public operations reach from a database without orders. *)
Definition reachable (d : db) : Prop :=
  ∃ d0, orders d0 = ∅ ∧ order_items d0 = [] ∧ rtc public_step d0 d.

(** ** Prices *)

Definition price_of (d : db) (pid : uuid) : option Z :=
  products.price_cents <$> products d !! pid.

(** A line of the order [oid] that records the price its product has in [d]. *)
Definition snapshot_of (d : db) (oid : uuid) (oi : order_items.row) : Prop :=
  order_items.order_id oi = oid ∧
  price_of d (order_items.product_id oi) = Some (order_items.unit_price_cents oi).

(** The row [place_order] records for an item, at the price its product
    has in [d]; [k] is the draw of its uuid. *)
Definition placed_line (s : session) (d : db) (oid : uuid) (k : nat) (it : item.t)
    : option order_items.row :=
  match item.product_id it, item.quantity it with
  | value pid, value q =>
      (λ price, order_items.mk (gen_random_uuid s k) oid pid q price (now s))
      <$> price_of d pid
  | _, _ => None
  end.

(** The rows for the items of a call, in the order of the array; the
    first takes the uuid of draw [k]. *)
Fixpoint placed_lines (s : session) (d : db) (oid : uuid) (k : nat) (items : list item.t)
    : list order_items.row :=
  match items with
  | [] => []
  | it :: rest => option_list (placed_line s d oid k it) ++ placed_lines s d oid (S k) rest
  end.

(** ** The queue worker *)

(** The status the worker writes for a job: [sent] when [sendEmail]
    resolves for the message built from the row, [error] when it throws. *)
Definition outcome (e : worker.env) (row : mail_queue.row) : string :=
  if worker.sendEmail e (mail_queue.to_email row)
       ("Confirmação do pedido " +:+ mail_queue.order_id row)
       (worker.html_of
          (default "Cliente" (mail_queue.customer_name (mail_queue.payload row)))
          (mail_queue.order_id row))
  then "sent" else "error".

(** The row of a job once the worker has processed it at time [t]. *)
Definition processed (e : worker.env) (row : mail_queue.row) (t : timestamptz)
    : mail_queue.row :=
  mail_queue.with_status_processed_at row (outcome e row) t.

(** ** Sample data

    Two customers, three products (one inactive) and no order yet. *)
Module sample.

(** The uuids a session draws: a prefix and the number of the draw. *)
Definition uuids (prefix : string) (n : nat) : uuid :=
  prefix +:+ match n with
             | 0 => "0" | 1 => "1" | 2 => "2" | 3 => "3" | 4 => "4"
             | _ => "n"
             end%nat.

Definition ana : session := mk_session (Some "user-ana") 100 (uuids "a").
Definition bia : session := mk_session (Some "user-bia") 200 (uuids "b").
Definition service : session := mk_session None 400 (uuids "s").

Definition caneta : products.row :=
  products.mk "SKU-1" "Caneta" None 500 "BRL" 5 true 0 0.
Definition caderno : products.row :=
  products.mk "SKU-2" "Caderno" None 300 "BRL" 1 true 0 0.
Definition borracha : products.row :=
  products.mk "SKU-3" "Borracha" None 150 "BRL" 9 false 0 0.

Definition shop : db :=
  mk_db
    (<["cust-ana" := customers.mk (Some "user-ana") "Ana" "ana@example.com" None 0]>
       {["cust-bia" := customers.mk (Some "user-bia") "Bia" "bia@example.com" None 0]})
    (<["caneta" := caneta]> (<["caderno" := caderno]> {["borracha" := borracha]}))
    ∅ [] [] 1.

Definition line (product_id : uuid) (quantity : Z) : item.t :=
  item.mk (value product_id) (value quantity).

(** The state after a computation, whatever its result. *)
Definition after {A} (m : M A) (d : db) : db := (m d).1.

(** Ana has ordered two pens and a notebook: order [a0], pending. *)
Definition ordered : db :=
  after (place_order ana (jsonb_array [line "caneta" 2; line "caderno" 1])) shop.

(** The same order once the service has marked it paid, shipped and
    delivered. *)
Definition paid_for : db := after (set_order_status service "a0" (Some paid)) ordered.
Definition sent_out : db := after (set_order_status service "a0" (Some shipped)) paid_for.
Definition arrived : db := after (set_order_status service "a0" (Some delivered)) sent_out.

(** Bia orders a pen as well: order [b0], next to Ana's [a0] with its
    lines [a1] (two pens) and [a2] (a notebook). *)
Definition two_orders : db :=
  after (place_order bia (jsonb_array [line "caneta" 1])) ordered.

(** The line [a1] is moved from Ana's order to Bia's. *)
Definition move_a1 : M unit :=
  update_order_items service "a1" (mk_set (Some "b0") None None).

End sample.

(** Rows of the sample data, for reference. *)
Module sample_rows.
Definition ana : customers.row :=
  customers.mk (Some "user-ana") "Ana" "ana@example.com" None 0.
Definition a0_pending : orders.row := orders.mk "cust-ana" pending 1300 100 100.
Definition a0_paid : orders.row := orders.mk "cust-ana" paid 1300 100 400.
Definition a0_delivered : orders.row := orders.mk "cust-ana" delivered 1300 100 400.
End sample_rows.

(** A queue of three jobs and the surroundings of one invocation of the
    worker. *)
Module sample_worker.
(** A mail API that accepts every address but Bia's. *)
Definition fetch (m : worker.mail) : worker.fetch_result :=
  if bool_decide (worker.to m = "bia@example.com")
  then worker.response false true
  else worker.response true true.

Definition env : worker.env :=
  worker.mk_env (Some "re_key") fetch None (λ n, 1000 + Z.of_nat n).

Definition job (id : Z) (order_id to_email name : string) : mail_queue.row :=
  mail_queue.mk id order_id to_email (mail_queue.mk_payload (Some name)) "pending" 0 None.

(** Three jobs: Bia's delivery fails, the two around it go out. *)
Definition backlog : db :=
  with_mail_queue sample.shop
    [job 1 "a0" "ana@example.com" "Ana";
     job 2 "b0" "bia@example.com" "Bia";
     job 3 "a7" "ana@example.com" "Ana"].
End sample_worker.

(** * The rest of the schema and of the edge functions *)

(** The comparison [=] where an operand may be NULL. *)
Definition sql_eq {A} `{EqDecision A} (a b : option A) : option bool :=
  match a, b with
  | Some x, Some y => Some (bool_decide (x = y))
  | _, _ => None
  end.

(** ** Views *)

Module v_products.
Record row := mk {
  sku : string;
  name : string;
  description : option string;
  price_cents : Z;
  currency : string;
  stock : Z;
  active : bool }.
End v_products.

(** [create or replace view public.v_products as
     select id, sku, name, description, price_cents, currency, stock, active
     from public.products where active = true] *)
Definition v_products (d : db) : gmap uuid v_products.row :=
  (λ p, v_products.mk (products.sku p) (products.name p) (products.description p)
          (products.price_cents p) (products.currency p) (products.stock p)
          (products.active p))
  <$> filter (λ kv, products.active kv.2 = true) (products d).

(** [create or replace view public.v_my_orders as
     select o.* from public.orders o
     join public.customers c on c.id = o.customer_id
     where c.user_id = auth.uid()].  [customers.id] is the primary key, so
    an order joins at most one customer. *)
Definition v_my_orders (s : session) (d : db) : gmap uuid orders.row :=
  filter (λ kv, match customers d !! orders.customer_id kv.2 with
                | Some c => sql_true (sql_eq (customers.user_id c) (auth_uid s))
                | None => false
                end = true) (orders d).

(** ** Row level security

    The [select] policies a statement of an API role goes through, for the
    caller [uid] ([auth.uid()]).  A policy that queries another table sees
    of it the rows which the policy of that table shows the same caller. *)

(** [customers_select_own]: [using (user_id = auth.uid())] *)
Definition customers_select_own (uid : option uuid) (c : customers.row) : bool :=
  sql_true (sql_eq (customers.user_id c) uid).

Definition visible_customers (uid : option uuid) (d : db) : gmap uuid customers.row :=
  filter (λ kv, customers_select_own uid kv.2 = true) (customers d).

(** [orders_select_own]: [using (exists(select 1 from public.customers c
     where c.id = orders.customer_id and c.user_id = auth.uid()))] *)
Definition orders_select_own (uid : option uuid) (d : db) (o : orders.row) : bool :=
  match visible_customers uid d !! orders.customer_id o with
  | Some c => sql_true (sql_eq (customers.user_id c) uid)
  | None => false
  end.

Definition visible_orders (uid : option uuid) (d : db) : gmap uuid orders.row :=
  filter (λ kv, orders_select_own uid d kv.2 = true) (orders d).

(** [order_items_select_own]: [using (exists(select 1 from public.orders o
     join public.customers c on c.id = o.customer_id
     where o.id = order_items.order_id and c.user_id = auth.uid()))] *)
Definition order_items_select_own (uid : option uuid) (d : db) (oi : order_items.row) : bool :=
  match visible_orders uid d !! order_items.order_id oi with
  | Some o =>
      match visible_customers uid d !! orders.customer_id o with
      | Some c => sql_true (sql_eq (customers.user_id c) uid)
      | None => false
      end
  | None => false
  end.

(** [products_select_all]: [using (true)] *)
Definition products_select_all (p : products.row) : bool := true.

Definition visible_products (d : db) : gmap uuid products.row :=
  filter (λ kv, products_select_all kv.2 = true) (products d).

(** ** The edge function [export-order-csv] *)

Module export_csv.

(** What the handler reads of the request: the method, the first
    [order_id] parameter of the URL and the [Authorization] header. *)
Record Request := mk_request {
  method : string;
  order_id : option string;
  Authorization : option string }.

(** The surroundings of one invocation: the user the API resolves an
    [Authorization] header to ([auth.uid()], if any); the error the client
    reports for a query instead of rows, if the request does not get as
    far as the statement; the input function of the type [uuid], which
    gives the id a text is a spelling of (upper case, braces and missing
    hyphens are accepted) or the message of its error; and the text
    JavaScript gives a number. *)
Record env := mk_env {
  auth : string → option uuid;
  select_error : string → string → option string;
  uuid_in : string → string + uuid;
  Number_toString : Z → string }.

Record Response := mk_response {
  body : string;
  status : Z;
  headers : list (string * string) }.

(** [new Response(body, { status })] *)
Definition plain (body : string) (status : Z) : Response :=
  mk_response body status [].

(** Canonicalization of a character under the flag [i], on ASCII letters. *)
Definition upper (a : Ascii.ascii) : Ascii.ascii :=
  let n := Ascii.nat_of_ascii a in
  if (97 <=? n)%nat && (n <=? 122)%nat then Ascii.ascii_of_nat (n - 32) else a.

(** The rest of [s] after the characters of [p], compared under [i]. *)
Fixpoint after_prefix (p s : string) : option string :=
  match p, s with
  | EmptyString, _ => Some s
  | String a p, String b s =>
      if bool_decide (upper a = upper b) then after_prefix p s else None
  | String _ _, EmptyString => None
  end.

(** The letter S. *)
Definition letter_S : Ascii.ascii := Ascii.ascii_of_nat 83.

(** The rest of [s] after its leading run of [s] and [S]. *)
Fixpoint after_s_run (s : string) : string :=
  match s with
  | String a rest =>
      if bool_decide (upper a = letter_S) then after_s_run rest else s
  | EmptyString => s
  end.

Definition backslash : string := String (Ascii.ascii_of_nat 92) EmptyString.

(** [authHeader.replace(/^Bearer\\s+/i, ...)] with the empty string as
    replacement.  As the pattern is written, it is [Bearer], a backslash
    and one or more [s]; a header that does not start so is returned as it
    is. *)
Definition jwt_of (authHeader : string) : string :=
  match after_prefix ("Bearer" +:+ backslash) authHeader with
  | Some (String a rest) =>
      if bool_decide (upper a = letter_S) then after_s_run rest else authHeader
  | _ => authHeader
  end.

(** [Array.prototype.join] on strings. *)
Fixpoint join (sep : string) (l : list string) : string :=
  match l with
  | [] => EmptyString
  | [x] => x
  | x :: rest => x +:+ sep +:+ join sep rest
  end.

(** A row of the result of the query: the selected columns of the line and
    the embedded [products(name, sku)], null when no product is visible. *)
Record item := mk_item {
  item_order_id : uuid;
  item_product_id : uuid;
  quantity : Z;
  unit_price_cents : Z;
  item_products : option (string * string) }.

(** [client.from("order_items").select("order_id, product_id, quantity,
     unit_price_cents, products(name, sku)").eq("order_id", orderId)], run
    for the caller of the header under row level security; [orderId] is
    the id the text of the request has been cast to, as the comparison
    with the column of type [uuid] requires. *)
Definition select_items (e : env) (header : string) (orderId : uuid) (d : db) : list item :=
  (λ oi, mk_item (order_items.order_id oi) (order_items.product_id oi)
           (order_items.quantity oi) (order_items.unit_price_cents oi)
           (match visible_products d !! order_items.product_id oi with
            | Some p => Some (products.name p, products.sku p)
            | None => None
            end))
  <$> filter (λ oi, order_items_select_own (auth e header) d oi = true ∧
                    order_items.order_id oi = orderId) (order_items d).

Definition header_row : list string :=
  ["SKU"; "Nome"; "Quantidade"; "Preço_Unitário"; "Subtotal"].

(** The cells of a line: the sku and the name of the embedded product, or
    the empty string where [products] is null, then [it.quantity],
    [it.unit_price_cents] and [it.quantity * it.unit_price_cents], each
    as [join] prints it. *)
Definition cells (e : env) (it : item) : list string :=
  [default EmptyString (snd <$> item_products it);
   default EmptyString (fst <$> item_products it);
   Number_toString e (quantity it);
   Number_toString e (unit_price_cents it);
   Number_toString e (quantity it * unit_price_cents it)].

(** The separator of the lines as the source writes it: a backslash and
    the letter n. *)
Definition line_separator : string := backslash +:+ "n".

Definition csv_of (e : env) (items : list item) : string :=
  join line_separator (join "," header_row :: (join "," ∘ cells e <$> items)).

Definition not_found : Response :=
  plain "Pedido não encontrado ou sem permissão" 404.

(** The statement of the query compares the column [order_id], of type
    [uuid], with the text of the request: the text is cast, and a text
    that is no uuid ends the query with an error, which the handler
    answers like every other error of the query.  The name of the file
    carries the text as the request spelled it. *)
Definition handler (e : env) (req : Request) (d : db) : Response :=
  if negb (bool_decide (method req = "GET")) then plain "Método não permitido" 405 else
  match order_id req with
  | None | Some EmptyString => plain "Parâmetro order_id é obrigatório" 400
  | Some orderId =>
      match Authorization req with
      | None | Some EmptyString => plain "Autenticação necessária" 401
      | Some authHeader =>
          let jwt := jwt_of authHeader in
          let header := "Bearer " +:+ jwt in
          match select_error e header orderId with
          | Some message => plain message 500
          | None =>
              match uuid_in e orderId with
              | inl message => plain message 500
              | inr id =>
                  match select_items e header id d with
                  | [] => not_found
                  | items =>
                      mk_response (csv_of e items) 200
                        [("Content-Type", "text/csv; charset=utf-8");
                         ("Content-Disposition",
                          "attachment; filename=pedido_" +:+ orderId +:+ ".csv")]
                  end
              end
          end
      end
  end.

End export_csv.

(** ** The seed of the catalog *)

(** One row of [insert into public.products (sku, name, description,
     price_cents, stock) values (...) on conflict do nothing], with the
    column defaults; [k] is the evaluation of [gen_random_uuid()] that
    gives the row its id.  A row in conflict with the primary key or with
    the unique [sku] is skipped. *)
Definition insert_products_on_conflict_do_nothing (s : session) (k : nat)
    (sku name description : string) (price_cents stock : Z) : M unit :=
  d ← get;
  let id := gen_random_uuid s k in
  let new := products.mk sku name (Some description) price_cents "BRL" stock true
               (now s) (now s) in
  if negb (bool_decide (0 ≤ price_cents) && bool_decide (0 ≤ stock))
  then raise (sql_error check_violation)
  else if bool_decide (is_Some (products d !! id))
          || bool_decide (map_Exists (λ _ p, products.sku p = sku) (products d))
  then mret tt
  else put (with_products d (<[id := new]> (products d))).

(** [supabase/seed/products.seed.sql], one statement of three rows. *)
Definition products_seed (s : session) : M unit :=
  transaction (
    _ ← insert_products_on_conflict_do_nothing s 0 "BK-001" "Livro Infantil A"
          "Livro ilustrado com atividades educativas" 3990 50;
    _ ← insert_products_on_conflict_do_nothing s 1 "BK-002" "Livro Infantil B"
          "Histórias curtas para leitura infantil" 4590 30;
    insert_products_on_conflict_do_nothing s 2 "BK-003" "Jogo Educacional"
      "Jogo de alfabetização divertido e interativo" 5990 20).

(** * Vocabulary of the further properties *)

(** The product [pid] is not asked for by any of the items. *)
Definition not_named (pid : uuid) (items : list item.t) : Prop :=
  ∀ it, it ∈ items → item.product_id it ≠ value pid.

(** Two rows of a product that differ at most in stock and update time. *)
Definition same_but_stock (p p' : products.row) : Prop :=
  products.sku p' = products.sku p ∧ products.name p' = products.name p ∧
  products.description p' = products.description p ∧
  products.price_cents p' = products.price_cents p ∧
  products.currency p' = products.currency p ∧
  products.active p' = products.active p ∧
  products.created_at p' = products.created_at p.

(** Two rows of a job that differ at most in status and processing time. *)
Definition same_job (r r' : mail_queue.row) : Prop :=
  mail_queue.id r' = mail_queue.id r ∧ mail_queue.order_id r' = mail_queue.order_id r ∧
  mail_queue.to_email r' = mail_queue.to_email r ∧
  mail_queue.payload r' = mail_queue.payload r ∧
  mail_queue.created_at r' = mail_queue.created_at r.

(** Two rows of an order that differ at most in total and update time. *)
Definition same_but_total (o o' : orders.row) : Prop :=
  orders.customer_id o' = orders.customer_id o ∧
  orders.status o' = orders.status o ∧
  orders.placed_at o' = orders.placed_at o.

(** A line for a product the catalog view lists in [d], at the listed
    price and for no more than the listed stock. *)
Definition sold_as_listed (d : db) (oi : order_items.row) : Prop :=
  ∃ row, v_products d !! order_items.product_id oi = Some row ∧
    order_items.unit_price_cents oi = v_products.price_cents row ∧
    0 < order_items.quantity oi ∧ order_items.quantity oi ≤ v_products.stock row.

(** A statement on [order_items] that completes, issued with the key of
    the service role, as the queue worker holds it, or by the owner of the
    tables: an insertion, a deletion, or an update that leaves each line
    with its order.  Row level security does not apply to these two, so
    the statement and the trigger it fires run without the policies, as
    the statements inside the security definer functions do, and
    [auth.uid()] is NULL.  The statements of the roles [anon] and
    [authenticated] go through the policies of [order_items] and through
    [orders_update_none], which filters the update of the trigger
    [update_order_total]; these steps are not theirs. *)
Inductive line_write (d d' : db) : Prop :=
| write_insert s id oid pid q price :
    auth_uid s = None →
    insert_order_items s id oid pid q price d = (d', inr tt) → line_write d d'
| write_delete s id :
    auth_uid s = None →
    delete_order_items s id d = (d', inr tt) → line_write d d'
| write_update s id a :
    auth_uid s = None → keeps_order a →
    update_order_items s id a d = (d', inr tt) → line_write d d'.

(** The rows of the queue that wait for the worker. *)
Definition pending_jobs (queue : list mail_queue.row) : list mail_queue.row :=
  filter (λ r, worker.is_pending r = true) queue.

(** The database after the invocations of the worker in the surroundings
    [es], one after the other. *)
Fixpoint invocations (es : list worker.env) (d : db) : db :=
  match es with
  | [] => d
  | e :: rest => invocations rest (worker.handler e d).1
  end.

(** [!RESEND_API_KEY]: the variable is not set, or set to the empty
    string. *)
Definition RESEND_API_KEY_unset (e : worker.env) : Prop :=
  worker.RESEND_API_KEY e = None ∨ worker.RESEND_API_KEY e = Some EmptyString.

(** The ids of the queue are distinct and below the next value of the
    identity sequence. *)
Definition queue_ids_fresh (d : db) : Prop :=
  NoDup (mail_queue.id <$> mail_queue d) ∧
  ∀ r, r ∈ mail_queue d → mail_queue.id r < mail_queue_id_seq d.

(** One step of the system: a call of one of the RPC functions or an
    invocation of the queue worker. *)
Inductive system_step (d d' : db) : Prop :=
| step_public : public_step d d' → system_step d d'
| step_worker e : (worker.handler e d).1 = d' → system_step d d'.


(** The row of the export for a line: its columns and the name and sku
    its product has in [d]. *)
Definition exported_line (d : db) (oi : order_items.row) : export_csv.item :=
  export_csv.mk_item (order_items.order_id oi) (order_items.product_id oi)
    (order_items.quantity oi) (order_items.unit_price_cents oi)
    ((λ p, (products.name p, products.sku p)) <$> products d !! order_items.product_id oi).

(** No two products have the same sku: the unique constraint of the
    column. *)
Definition sku_unique (d : db) : Prop :=
  ∀ i j p q, products d !! i = Some p → products d !! j = Some q →
    products.sku p = products.sku q → i = j.

(** The skus of the seed. *)
Definition seed_skus : list string := ["BK-001"; "BK-002"; "BK-003"].

Module sample_queue.
(** The surroundings of the sample worker, without a key. *)
Definition no_key : worker.env :=
  worker.mk_env None sample_worker.fetch None (λ n, 1000 + Z.of_nat n).
End sample_queue.

Module sample_export.
(** The API knows the tokens of Ana and of Bia. *)
Definition auth (header : string) : option uuid :=
  if bool_decide (header = "Bearer token-ana") then Some "user-ana"
  else if bool_decide (header = "Bearer token-bia") then Some "user-bia"
  else None.

(** Decimal digits, for the numbers of the samples. *)
Definition digits (n : Z) : string :=
  match n with
  | 1 => "1" | 2 => "2" | 300 => "300" | 500 => "500" | 1000 => "1000"
  | _ => "?"
  end.

(** The spellings of the ids of the two sample orders. *)
Definition uuid_in (text : string) : string + uuid :=
  if bool_decide (text ∈ ["a0"; "A0"; "{a0}"]) then inr "a0"
  else if bool_decide (text ∈ ["b0"; "B0"; "{b0}"]) then inr "b0"
  else inl ("invalid input syntax for type uuid: " +:+ text).

Definition env : export_csv.env := export_csv.mk_env auth (λ _ _, None) uuid_in digits.

Definition request (token orderId : string) : export_csv.Request :=
  export_csv.mk_request "GET" (Some orderId) (Some token).
End sample_export.
(** * Properties *)

(** ** Reasoning about computations *)

Lemma bind_inr {A B} (m : M A) (k : A → M B) d d' b :
  (m ≫= k) d = (d', inr b) → ∃ a d1, m d = (d1, inr a) ∧ k a d1 = (d', inr b).
Proof. unfold mbind, M_bind. destruct (m d) as [d1 [e|a]]; [done|eauto]. Qed.

Lemma bind_run {A B} (m : M A) (k : A → M B) d d1 a :
  m d = (d1, inr a) → (m ≫= k) d = k a d1.
Proof. unfold mbind, M_bind. by intros ->. Qed.

Lemma bind_fail {A B} (m : M A) (k : A → M B) d d1 e :
  m d = (d1, inl e) → (m ≫= k) d = (d1, inl e).
Proof. unfold mbind, M_bind. by intros ->. Qed.

Ltac unfold_M :=
  unfold mbind, M_bind, mret, M_ret, raise, get, put, lift in *.

Lemma unchanged_ret {B A} (f : db → B) (a : A) : unchanged f (mret a).
Proof. by intros d d' r [= <- _]. Qed.

Lemma unchanged_raise {B A} (f : db → B) e : unchanged f (raise (A:=A) e).
Proof. by intros d d' r [= <- _]. Qed.

Lemma unchanged_bind {B A C} (f : db → B) (m : M A) (k : A → M C) :
  unchanged f m → (∀ a, unchanged f (k a)) → unchanged f (m ≫= k).
Proof.
  intros Hm Hk d d' r. unfold mbind, M_bind.
  destruct (m d) as [d1 [e|a]] eqn:E.
  - intros [= <- _]. by eapply Hm.
  - intros H. rewrite (Hk _ _ _ _ H). by eapply Hm.
Qed.

Section independent.
Context {B : Type} (f : db → B).

Ltac crush :=
  unfold ignores_products, ignores_orders, ignores_order_items in *;
  intros d d' r; unfold_M; intros H;
  repeat case_match; simplify_eq;
  repeat match goal with E : ∀ d v, f _ = f d |- _ => rewrite E end; done.

Lemma unchanged_text_to_uuid c : unchanged f (text_to_uuid c).
Proof. unfold text_to_uuid. crush. Qed.

Lemma unchanged_text_to_int c : unchanged f (text_to_int c).
Proof. unfold text_to_int. crush. Qed.

Lemma unchanged_jsonb_array_elements items : unchanged f (jsonb_array_elements items).
Proof. unfold jsonb_array_elements. crush. Qed.

Lemma unchanged_select_customer_id u : unchanged f (select_customer_id u).
Proof. unfold select_customer_id. crush. Qed.

Lemma unchanged_select_price_cents pid : unchanged f (select_price_cents pid).
Proof. unfold select_price_cents. crush. Qed.

Lemma unchanged_update_orders_total s t (Ho : ignores_orders f) :
  unchanged f (update_orders_total s t).
Proof. unfold update_orders_total. crush. Qed.

Lemma unchanged_insert_orders s id c (Ho : ignores_orders f) :
  unchanged f (insert_orders s id c).
Proof. unfold insert_orders. crush. Qed.

Lemma unchanged_update_products_stock s pid q (Hp : ignores_products f) :
  unchanged f (update_products_stock s pid q).
Proof. unfold update_products_stock. crush. Qed.

Lemma unchanged_update_products_price_cents s pid v (Hp : ignores_products f) :
  unchanged f (update_products_price_cents s pid v).
Proof. unfold update_products_price_cents. crush. Qed.

Lemma unchanged_insert_order_items s id oid pid q p
    (Ho : ignores_orders f) (Hi : ignores_order_items f) :
  unchanged f (insert_order_items s id oid pid q p).
Proof. unfold insert_order_items, update_order_total, update_orders_total. crush. Qed.
End independent.

Create HintDb frame discriminated.
Global Hint Resolve unchanged_ret unchanged_raise unchanged_text_to_uuid
  unchanged_text_to_int unchanged_jsonb_array_elements unchanged_select_customer_id
  unchanged_select_price_cents unchanged_update_orders_total unchanged_insert_orders
  unchanged_update_products_stock unchanged_update_products_price_cents
  unchanged_insert_order_items : frame.
Global Hint Extern 1 (ignores_products _) => by intros [] ? : frame.
Global Hint Extern 1 (ignores_orders _) => by intros [] ? : frame.
Global Hint Extern 1 (ignores_order_items _) => by intros [] ? : frame.

Ltac frame :=
  repeat first
    [ progress intros
    | solve [eauto with frame]
    | match goal with
      | |- unchanged _ (_ ≫= _) => apply unchanged_bind
      | |- unchanged _ (match ?x with _ => _ end) => destruct x
      end ].

Lemma unchanged_place_order_item {B} (f : db → B) s oid k it :
  ignores_products f → ignores_orders f → ignores_order_items f →
  unchanged f (place_order_item s oid k it).
Proof. intros. unfold place_order_item. frame. Qed.

Lemma unchanged_place_order_loop {B} (f : db → B) s oid k items :
  ignores_products f → ignores_orders f → ignores_order_items f →
  unchanged f (place_order_loop s oid k items).
Proof.
  intros. revert k. induction items; intros k; simpl.
  - frame.
  - apply unchanged_bind; [by apply unchanged_place_order_item|done].
Qed.

Lemma unchanged_place_order_body {B} (f : db → B) s items :
  ignores_products f → ignores_orders f → ignores_order_items f →
  unchanged f (place_order_body s items).
Proof.
  intros. unfold place_order_body.
  pose proof (unchanged_place_order_loop f s). frame.
Qed.

(** ** The statements, when they succeed *)

Lemma update_orders_total_inr s oid d d' :
  update_orders_total s (Some oid) d = (d', inr tt) →
  match orders d !! oid with
  | None => d' = d
  | Some o =>
      ∃ total, compute_order_total d oid = inr total ∧ 0 ≤ total ∧
        d' = with_orders d
               (<[oid := trg_orders_updated s (orders.with_total_cents o total)]> (orders d))
  end.
Proof.
  unfold update_orders_total. unfold_M. intros H.
  destruct (orders d !! oid) as [o|]; [|by simplify_eq].
  destruct (compute_order_total d oid) as [e|total]; [done|].
  case_bool_decide as Htotal; simplify_eq. eauto.
Qed.

Lemma update_products_stock_inr s v_product_id q d d' found :
  update_products_stock s v_product_id q d = (d', inr found) →
  if found then
    ∃ pid p, v_product_id = Some pid ∧ products d !! pid = Some p ∧
      q ≤ products.stock p ∧
      d' = with_products d
             (<[pid := trg_products_updated s
                         (products.with_stock p (products.stock p - q))]> (products d))
  else
    d' = d ∧
    ∀ pid p, v_product_id = Some pid → products d !! pid = Some p → products.stock p < q.
Proof.
  unfold update_products_stock. unfold_M. intros H.
  destruct v_product_id as [pid|]; [|by simplify_eq].
  destruct (products d !! pid) as [p|] eqn:Hp;
    [|simplify_eq; split; [done|intros; simplify_eq]].
  repeat case_bool_decide; simplify_eq.
  - eauto 10.
  - split; [done|]. intros ?? [= <-] ?. simplify_eq. lia.
Qed.

Lemma insert_order_items_inr s id oid v_product_id q price d d' :
  insert_order_items s id oid v_product_id q price d = (d', inr tt) →
  ∃ pid, v_product_id = Some pid ∧
    existsb (has_id id) (order_items d) = false ∧
    is_Some (orders d !! oid) ∧
    update_orders_total s (Some oid)
      (with_order_items d
         (order_items d ++ [order_items.mk id oid pid q price (now s)])) = (d', inr tt).
Proof.
  unfold insert_order_items, update_order_total. unfold_M. intros H.
  destruct (existsb _ _) eqn:Hid; [done|].
  destruct v_product_id as [pid|]; [|done].
  destruct (check_order_items _ _) as [e|[]] eqn:Hcheck; [by simplify_eq|].
  exists pid. repeat split; [|done].
  unfold check_order_items in Hcheck. simpl in Hcheck.
  repeat case_match; simplify_eq. eauto.
Qed.

(** What one turn of the loop does when it completes. *)
Lemma place_order_item_inr s oid k it d d' :
  place_order_item s oid k it d = (d', inr tt) →
  ∃ pid q p,
    item.product_id it = value pid ∧ item.quantity it = value q ∧ 0 < q ∧
    products d !! pid = Some p ∧ products.active p = true ∧ q ≤ products.stock p ∧
    let new_item :=
      order_items.mk (gen_random_uuid s k) oid pid q (products.price_cents p) (now s) in
    let d1 :=
      with_order_items
        (with_products d
           (<[pid := trg_products_updated s
                       (products.with_stock p (products.stock p - q))]> (products d)))
        (order_items d ++ [new_item]) in
    existsb (has_id (gen_random_uuid s k)) (order_items d) = false ∧
    is_Some (orders d !! oid) ∧
    update_orders_total s (Some oid) d1 = (d', inr tt).
Proof.
  unfold place_order_item. intros H.
  apply bind_inr in H as (v_product_id & d1 & Hpid & H).
  apply bind_inr in H as (v_qty & d2 & Hqty & H).
  assert (d1 = d ∧ d2 = d) as [-> ->].
  { unfold text_to_uuid, text_to_int in *. unfold_M.
    repeat case_match; by simplify_eq. }
  destruct v_qty as [q|]; [|done].
  case_bool_decide as Hq; [done|].
  apply bind_inr in H as (v_price & d3 & Hprice & H).
  unfold select_price_cents in Hprice. unfold_M. injection Hprice as <- <-.
  destruct v_product_id as [pid|]; [|done].
  destruct (products d !! pid) as [p|] eqn:Hp; [|done].
  destruct (products.active p) eqn:Hactive; [|done].
  apply bind_inr in H as (found & d4 & Hstock & H).
  destruct found; [|done]. simpl in H.
  apply update_products_stock_inr in Hstock as (? & ? & [= <-] & ? & Hle & ->).
  simplify_eq.
  apply insert_order_items_inr in H as (? & [= <-] & Hid & Ho & H).
  exists pid, q, p.
  unfold text_to_uuid, text_to_int in *. unfold_M.
  repeat case_match; simplify_eq.
  repeat split; try done; lia.
Qed.

(** ** Stock *)

Lemma stock_of_update_orders_total s t d d' r :
  update_orders_total s t d = (d', r) → ∀ pid, stock_of d' pid = stock_of d pid.
Proof.
  intros H pid. unfold stock_of.
  by rewrite (unchanged_update_orders_total products s t ltac:(by intros []) _ _ _ H).
Qed.

Lemma place_order_item_stock s oid k it d d' pid S :
  place_order_item s oid k it d = (d', inr tt) →
  stock_of d pid = Some S →
  stock_of d' pid = Some (S - requested pid it) ∧ (0 ≤ S → 0 ≤ S - requested pid it).
Proof.
  intros H HS.
  apply place_order_item_inr in H
    as (pid' & q & p & Hpid & Hqty & Hq & Hp & _ & Hle & _ & _ & H).
  rewrite (stock_of_update_orders_total _ _ _ _ _ H).
  unfold stock_of, requested in *. rewrite Hpid, Hqty. simpl.
  case_bool_decide as Heq.
  - subst pid'. rewrite lookup_insert_eq. simpl.
    rewrite Hp in HS. simplify_eq/=. split; [done|lia].
  - rewrite lookup_insert_ne by done. rewrite HS.
    split; [f_equal|]; lia.
Qed.

Lemma place_order_loop_stock s oid items : ∀ k d d' pid S,
  place_order_loop s oid k items d = (d', inr tt) →
  stock_of d pid = Some S →
  stock_of d' pid = Some (S - requested_total pid items) ∧
  (0 ≤ S → 0 ≤ S - requested_total pid items).
Proof.
  induction items as [|it items IH]; intros k d d' pid S H HS; simpl in *.
  - unfold_M. simplify_eq. rewrite HS. split; [f_equal|]; lia.
  - apply bind_inr in H as ([] & d1 & Hit & H).
    destruct (place_order_item_stock _ _ _ _ _ _ _ _ Hit HS) as [HS1 Hnn1].
    destruct (IH _ _ _ _ _ H HS1) as [HS2 Hnn2].
    rewrite HS2. split; [f_equal; lia|]. intros ?.
    specialize (Hnn2 (Hnn1 ltac:(done))). lia.
Qed.

Lemma stock_of_insert_orders s id c d d' r :
  insert_orders s id c d = (d', r) → ∀ pid, stock_of d' pid = stock_of d pid.
Proof.
  intros H pid. unfold stock_of.
  by rewrite (unchanged_insert_orders products s id c ltac:(by intros []) _ _ _ H).
Qed.

(** A call that succeeds takes from each product what its items ask of it;
    a call that fails takes nothing. *)
Lemma place_order_stock s items d d' r pid S :
  place_order s items d = (d', r) →
  stock_of d pid = Some S →
  stock_of d' pid =
    Some (S - if r is inr _ then requested_total pid (elements_of items) else 0) ∧
  (0 ≤ S → 0 ≤ S - if r is inr _ then requested_total pid (elements_of items) else 0).
Proof.
  unfold place_order, transaction. intros H HS.
  destruct (place_order_body s items d) as [d1 [e|oid]] eqn:Hbody; simplify_eq.
  { unfold stock_of, rollback in *. simpl. rewrite HS. split; [f_equal|]; lia. }
  unfold place_order_body in Hbody.
  destruct (auth_uid s) as [v_user_id|]; [|done].
  apply bind_inr in Hbody as (v_customer_id & d2 & Hc & Hbody).
  unfold select_customer_id in Hc. unfold_M. injection Hc as <- <-.
  match type of Hbody with context [head ?l] => destruct (head l) as [[v_customer_id ?]|] end;
    [|done]. simpl in Hbody.
  apply bind_inr in Hbody as (v_order_id & d3 & Ho & Hbody).
  apply bind_inr in Hbody as (elements & d4 & He & Hbody).
  apply bind_inr in Hbody as ([] & d5 & Hloop & Hbody).
  injection Hbody as <- <-.
  rewrite <- (stock_of_insert_orders _ _ _ _ _ _ Ho pid) in HS.
  assert (d4 = d3 ∧ (elements = elements_of items)) as [-> ->].
  { unfold jsonb_array_elements in He. unfold_M. destruct items; by simplify_eq. }
  by eapply place_order_loop_stock.
Qed.

(** C1 (stock invariant).  One turn of the loop of [place_order] completes
    only when the stock of its product is at least the quantity asked, and
    takes exactly that quantity; after any sequence of calls against a
    product of initial stock [S >= 0], the stock is [S] minus the
    quantities reserved by the calls that succeeded, and is not negative. *)
Theorem stock_never_negative :
  (∀ s oid k it d d',
     place_order_item s oid k it d = (d', inr tt) →
     ∃ pid q stock,
       item.product_id it = value pid ∧ item.quantity it = value q ∧
       stock_of d pid = Some stock ∧ q ≤ stock ∧
       stock_of d' pid = Some (stock - q)) ∧
  (∀ calls d d' results pid S,
     stock_of d pid = Some S → 0 ≤ S →
     place_orders calls d = (d', results) →
     stock_of d' pid = Some (S - reserved pid calls results) ∧
     0 ≤ S - reserved pid calls results).
Proof.
  split.
  - intros s oid k it d d' H.
    pose proof (place_order_item_inr _ _ _ _ _ _ H)
      as (pid & q & p & Hpid & Hqty & Hq & Hp & _ & Hle & _).
    assert (stock_of d pid = Some (products.stock p)) as HS
      by (unfold stock_of; by rewrite Hp).
    destruct (place_order_item_stock _ _ _ _ _ _ pid _ H HS) as [HS' _].
    exists pid, q, (products.stock p). repeat split; try done.
    rewrite HS'. unfold requested. rewrite Hpid, Hqty.
    by rewrite bool_decide_eq_true_2.
  - induction calls as [|[s items] calls IH]; intros d d' results pid S HS Hnn H; simpl in *.
    + injection H as <- <-. rewrite HS. simpl. split; [f_equal|]; lia.
    + destruct (place_order s items d) as [d1 r] eqn:Hcall.
      destruct (place_orders calls d1) as [d2 rs] eqn:Hrest.
      injection H as <- <-.
      destruct (place_order_stock _ _ _ _ _ _ _ Hcall HS) as [HS1 Hnn1].
      destruct (IH _ _ _ _ _ HS1 (Hnn1 Hnn) Hrest) as [HS2 Hnn2].
      rewrite HS2. destruct r; simpl; (split; [f_equal|]; lia).
Qed.

(** Two customers compete for the last notebook: the first call takes it,
    the second fails and the stock stays at zero. *)
Lemma stock_never_negative_witness :
  let calls :=
    [(sample.ana, jsonb_array [sample.line "caderno" 1]);
     (sample.bia, jsonb_array [sample.line "caderno" 1])] in
  (place_orders calls sample.shop).2 = [inr "a0"; inl InsufficientStock] ∧
  stock_of (place_orders calls sample.shop).1 "caderno"
    = Some (1 - reserved "caderno" calls (place_orders calls sample.shop).2) ∧
  0 ≤ 1 - reserved "caderno" calls (place_orders calls sample.shop).2.
Proof.
  intros calls. split; [vm_compute; reflexivity|].
  apply (proj2 stock_never_negative calls sample.shop); [reflexivity | lia |].
  by destruct (place_orders calls sample.shop).
Defined.

(** ** Atomicity *)

Lemma rollback_same_seq d d1 :
  mail_queue_id_seq d1 = mail_queue_id_seq d → rollback d d1 = d.
Proof. unfold rollback. intros ->. by destruct d. Qed.

Lemma transaction_inl {A} (m : M A) d d1 e :
  unchanged mail_queue_id_seq m → m d = (d1, inl e) →
  transaction m d = (d, inl e).
Proof.
  intros Hseq H. unfold transaction. rewrite H.
  by rewrite rollback_same_seq by (by eapply Hseq).
Qed.

Lemma place_order_body_seq s items :
  unchanged mail_queue_id_seq (place_order_body s items).
Proof. apply unchanged_place_order_body; by intros []. Qed.

(** C2 (all or nothing).  A call of [place_order] that fails, at whatever
    step and after however many items, leaves the database as it was: no
    order, no order item, no change of stock. *)
Theorem place_order_all_or_nothing s items d d' e :
  place_order s items d = (d', inl e) → d' = d.
Proof.
  unfold place_order. intros H.
  destruct (place_order_body s items d) as [d1 [e1|oid]] eqn:Hbody.
  - rewrite (transaction_inl _ _ _ _ (place_order_body_seq s items) Hbody) in H.
    by simplify_eq.
  - unfold transaction in H. rewrite Hbody in H. done.
Qed.

(** The body alone does leave its work behind when the second item is
    rejected: the abort of the transaction is what removes it. *)
Example place_order_body_partial_state :
  let items := jsonb_array [sample.line "caneta" 2; sample.line "caderno" 0] in
  (place_order_body sample.ana items sample.shop).2 = inl InvalidQuantity ∧
  stock_of (sample.after (place_order_body sample.ana items) sample.shop) "caneta" = Some 3 ∧
  length (order_items (sample.after (place_order_body sample.ana items) sample.shop)) = 1%nat ∧
  is_Some (orders (sample.after (place_order_body sample.ana items) sample.shop) !! "a0").
Proof. vm_compute. repeat split; eauto. Qed.

Lemma place_order_all_or_nothing_witness :
  let items := jsonb_array [sample.line "caneta" 2; sample.line "caderno" 0] in
  place_order sample.ana items sample.shop = (sample.shop, inl InvalidQuantity).
Proof.
  intros items.
  assert ((place_order sample.ana items sample.shop).2 = inl InvalidQuantity) as Hr
    by (vm_compute; reflexivity).
  destruct (place_order sample.ana items sample.shop) as [d' r] eqn:H.
  simpl in Hr. subst r.
  by rewrite (place_order_all_or_nothing _ _ _ _ _ H).
Defined.

(** ** Order of the validations *)

Lemma place_order_item_first_violation s oid k it d e :
  well_typed it = true → first_violation d it = Some e →
  place_order_item s oid k it d = (d, inl e).
Proof.
  unfold well_typed, first_violation, place_order_item.
  unfold text_to_uuid, text_to_int, select_price_cents, update_products_stock.
  unfold_M. intros Hty Hv.
  destruct (item.product_id it) as [|pid|], (item.quantity it) as [|q|];
    simplify_eq/=; try done.
  - rewrite Hty. repeat case_bool_decide; simplify_eq; try done; lia.
  - rewrite Hty. destruct (decide (0 < q)) as [Hq|Hq].
    + rewrite bool_decide_eq_true_2 in Hv by done.
      rewrite (bool_decide_eq_false_2 (q ≤ 0)) by lia. simpl.
      destruct (products d !! pid) as [p|] eqn:Hp; [|by simplify_eq].
      destruct (products.active p); [|by simplify_eq].
      simpl. rewrite Hp. case_bool_decide; by simplify_eq.
    + rewrite bool_decide_eq_false_2 in Hv by done.
      rewrite (bool_decide_eq_true_2 (q ≤ 0)) by lia. by simplify_eq.
Qed.

Lemma place_order_loop_app s oid pre : ∀ k post d d1,
  place_order_loop s oid k pre d = (d1, inr tt) →
  place_order_loop s oid k (pre ++ post) d
    = place_order_loop s oid (k + length pre) post d1.
Proof.
  induction pre as [|it pre IH]; intros k post d d1 H; simpl in *.
  - unfold_M. simplify_eq. by rewrite Nat.add_0_r.
  - apply bind_inr in H as ([] & d2 & Hit & H).
    rewrite (bind_run _ _ _ _ _ Hit), (IH _ _ _ _ H). f_equal. lia.
Qed.

Lemma place_order_item_cast_error s oid k it d e :
  cast_error it = Some e → place_order_item s oid k it d = (d, inl e).
Proof.
  unfold cast_error, place_order_item, text_to_uuid, text_to_int. unfold_M. intros H.
  destruct (item.product_id it), (item.quantity it); simplify_eq/=; try done.
  all: destruct (in_int4 _); by simplify_eq.
Qed.

(** C9, as stated, fails: the checks of an item do not come first.  For an
    item whose [product_id] is no uuid and whose quantity is 0 the
    specification's order gives the quantity error, but the cast of the
    [product_id] runs before the quantity is looked at and the call ends
    in its error; and a quantity that is no integer fails in its cast, not
    with "Quantidade inválida". *)
Lemma place_order_fails_fast_counterexample :
  first_violation sample.shop (item.mk invalid_syntax (value 0)) = Some InvalidQuantity ∧
  place_order sample.ana (jsonb_array [item.mk invalid_syntax (value 0)]) sample.shop
    = (sample.shop, inl (sql_error invalid_text_representation)) ∧
  first_violation sample.shop (item.mk (value "caneta") invalid_syntax)
    = Some InvalidQuantity ∧
  place_order sample.ana (jsonb_array [item.mk (value "caneta") invalid_syntax])
    sample.shop
    = (sample.shop, inl (sql_error invalid_text_representation)).
Proof. vm_compute. repeat split. Qed.

(** C9 (amended).  An unauthenticated call fails before the customer is
    looked up; a caller without customer record fails before any item is
    read; of an item the two casts run first, so an item whose
    [product_id] is no uuid or whose [quantity] is no integer fails with
    the error of the cast; an item whose casts go through fails with the
    first of quantity, product and stock that it violates; and the first
    item to fail, in the order of the array, decides the error of the
    call. *)
Theorem place_order_fails_fast :
  (∀ s items d,
     auth_uid s = None → place_order s items d = (d, inl Unauthenticated)) ∧
  (∀ s items d u,
     auth_uid s = Some u → select_customer_id u d = (d, inr None) →
     place_order s items d = (d, inl CustomerNotFound)) ∧
  (∀ s oid k it d e,
     cast_error it = Some e → place_order_item s oid k it d = (d, inl e)) ∧
  (∀ s oid k it d e,
     well_typed it = true → first_violation d it = Some e →
     place_order_item s oid k it d = (d, inl e)) ∧
  (∀ s u c oid pre it post d d0 d1 e,
     auth_uid s = Some u → select_customer_id u d = (d, inr (Some c)) →
     insert_orders s (gen_random_uuid s 0) c d = (d0, inr oid) →
     place_order_loop s oid 1 pre d0 = (d1, inr tt) →
     cast_error it = Some e ∨ (well_typed it = true ∧ first_violation d1 it = Some e) →
     place_order s (jsonb_array (pre ++ it :: post)) d = (d, inl e)).
Proof.
  split; [|split; [|split; [|split]]].
  - intros s items d Hu.
    apply (transaction_inl _ _ d); [apply place_order_body_seq|].
    unfold place_order_body. by rewrite Hu.
  - intros s items d u Hu Hc.
    apply (transaction_inl _ _ d); [apply place_order_body_seq|].
    unfold place_order_body. by rewrite Hu, (bind_run _ _ _ _ _ Hc).
  - intros. by apply place_order_item_cast_error.
  - intros. by apply place_order_item_first_violation.
  - intros s u c oid pre it post d d0 d1 e Hu Hc Ho Hpre Hit.
    apply (transaction_inl _ _ d1); [apply place_order_body_seq|].
    unfold place_order_body.
    rewrite Hu, (bind_run _ _ _ _ _ Hc), (bind_run _ _ _ _ _ Ho). simpl.
    unfold mbind at 1, M_bind at 1, mret at 1, M_ret at 1.
    rewrite (bind_fail (place_order_loop s oid 1 (pre ++ it :: post)) _ d0 d1 e); [done|].
    rewrite (place_order_loop_app _ _ _ _ _ _ _ Hpre). simpl.
    apply bind_fail. destruct Hit as [Hcast|[Hty Hv]].
    + by apply place_order_item_cast_error.
    + by apply place_order_item_first_violation.
Qed.

(** The example of the specification: a missing product first, a
    quantity of 0 second, and the call fails on the product. *)
Lemma place_order_fails_fast_witness :
  place_order sample.ana
    (jsonb_array [sample.line "lapis" 1; sample.line "caneta" 0]) sample.shop
  = (sample.shop, inl ProductUnavailable).
Proof.
  apply (proj2 (proj2 (proj2 (proj2 place_order_fails_fast)))
           sample.ana "user-ana" "cust-ana" "a0" [] (sample.line "lapis" 1)
           [sample.line "caneta" 0] sample.shop
           (sample.after (insert_orders sample.ana "a0" "cust-ana") sample.shop)
           (sample.after (insert_orders sample.ana "a0" "cust-ana") sample.shop)
           ProductUnavailable);
    [vm_compute; reflexivity..|].
  right. split; vm_compute; reflexivity.
Defined.

(** ** Status updates *)

Lemma enqueue_order_confirmation_run s oid old new d c :
  customers d !! orders.customer_id new = Some c →
  enqueue_order_confirmation s oid old new d =
    (if into_paid (orders.status old) (orders.status new)
     then with_mail_queue (with_mail_queue_id_seq d (mail_queue_id_seq d + 1))
            (mail_queue d ++ [confirmation_job s d oid c])
     else d, inr tt).
Proof.
  intros Hc. unfold enqueue_order_confirmation, into_paid, insert_mail_queue.
  destruct (_ && _); [|done].
  unfold_M. by rewrite Hc.
Qed.

Lemma update_orders_status_run s oid o next c d :
  orders d !! oid = Some o → customers d !! orders.customer_id o = Some c →
  update_orders_status s oid (Some next) d = (status_updated s d oid o next c, inr tt).
Proof.
  intros Ho Hc. unfold update_orders_status. unfold_M. rewrite Ho.
  rewrite (enqueue_order_confirmation_run _ _ _ _ _ c) by done.
  unfold status_updated. simpl. by destruct (into_paid _ _).
Qed.

Lemma orders_status_updated s d oid o next c :
  orders (status_updated s d oid o next c) = <[oid := with_next_status s o next]> (orders d).
Proof. unfold status_updated. by destruct (into_paid _ _). Qed.

(** A caller who does not own the order is not restricted. *)
Lemma set_order_status_not_owner s oid o next c d :
  orders d !! oid = Some o → customers d !! orders.customer_id o = Some c →
  caller_owns s d o = false →
  set_order_status s oid (Some next) d = (status_updated s d oid o next c, inr tt).
Proof.
  intros Ho Hc Hown.
  unfold set_order_status, transaction, set_order_status_body.
  unfold mbind at 1, M_bind at 1, get at 1. rewrite Ho.
  unfold caller_owns in Hown.
  assert (∀ d1, (match auth_uid s with
                 | Some v_user =>
                     if is_owner d (orders.customer_id o) v_user then
                       if sql_true (sql_or (sql_ne (Some next) (Some canceled))
                                      (sql_ne (Some (orders.status o)) (Some pending)))
                       then raise Forbidden else mret tt
                     else mret tt
                 | None => mret tt
                 end) d1 = (d1, inr tt)) as Hguard.
  { intros d1. destruct (auth_uid s); [rewrite Hown|]; done. }
  rewrite (bind_run _ _ _ _ _ (Hguard d)).
  by rewrite (update_orders_status_run s oid o next c d).
Qed.

(** The owner may cancel a pending order, and nothing else. *)
Lemma set_order_status_owner s oid o next d :
  orders d !! oid = Some o → caller_owns s d o = true →
  set_order_status s oid (Some next) d =
    if bool_decide (next = canceled ∧ orders.status o = pending)
    then (with_orders d (<[oid := with_next_status s o canceled]> (orders d)), inr tt)
    else (d, inl Forbidden).
Proof.
  intros Ho Hown.
  unfold set_order_status, transaction, set_order_status_body.
  unfold mbind at 1, M_bind at 1, get at 1. rewrite Ho.
  unfold caller_owns in Hown. destruct (auth_uid s) as [v_user|]; [|done].
  rewrite Hown. case_bool_decide as Hedge.
  - destruct Hedge as [-> Hcurr]. rewrite Hcurr. simpl.
    unfold update_orders_status, enqueue_order_confirmation. unfold_M.
    by rewrite Ho.
  - assert (sql_true (sql_or (sql_ne (Some next) (Some canceled))
                        (sql_ne (Some (orders.status o)) (Some pending))) = true) as ->.
    { destruct next, (orders.status o); try done; by destruct Hedge. }
    unfold mbind, M_bind, raise. by rewrite rollback_same_seq.
Qed.

(** C3, as stated, fails: the service moves a delivered order back to
    pending, which is no edge of the graph, and the call succeeds. *)
Lemma privileged_transition_counterexample :
  allowed_edge delivered pending = false ∧
  caller_owns sample.service sample.arrived sample_rows.a0_delivered = false ∧
  orders sample.arrived !! "a0" = Some sample_rows.a0_delivered ∧
  (set_order_status sample.service "a0" (Some pending) sample.arrived).2 = inr tt ∧
  orders.status <$>
    orders (sample.after (set_order_status sample.service "a0" (Some pending))
              sample.arrived) !! "a0" = Some pending.
Proof. vm_compute. repeat split. Qed.

(** C3 (amended).  For a caller who is not the owner of the order,
    [set_order_status] succeeds on every pair of current and requested
    status, the four edges of the graph and all the others alike, and
    stores the requested status; a pair off the graph raises no error
    either. *)
Theorem privileged_caller_any_transition s oid o next c d :
  orders d !! oid = Some o → customers d !! orders.customer_id o = Some c →
  caller_owns s d o = false →
  (∃ d', set_order_status s oid (Some next) d = (d', inr tt) ∧
         orders d' !! oid = Some (orders.mk (orders.customer_id o) next
                                    (orders.total_cents o) (orders.placed_at o) (now s))) ∧
  (allowed_edge (orders.status o) next = false →
   ∀ d' e, set_order_status s oid (Some next) d ≠ (d', inl e)).
Proof.
  intros Ho Hc Hown.
  rewrite (set_order_status_not_owner _ _ _ _ _ _ Ho Hc Hown). split.
  - eexists. split; [done|]. by rewrite orders_status_updated, lookup_insert_eq.
  - intros _ d' e. congruence.
Qed.

(** The service moves the delivered order back to pending. *)
Lemma privileged_caller_any_transition_witness :
  (∃ d', set_order_status sample.service "a0" (Some pending) sample.arrived = (d', inr tt) ∧
         orders d' !! "a0" = Some (orders.mk "cust-ana" pending 1300 100 400)) ∧
  (allowed_edge delivered pending = false →
   ∀ d' e, set_order_status sample.service "a0" (Some pending) sample.arrived ≠ (d', inl e)).
Proof.
  apply (privileged_caller_any_transition sample.service "a0"
           sample_rows.a0_delivered pending sample_rows.ana sample.arrived);
    vm_compute; reflexivity.
Defined.

(** C4 (who is restricted).  [set_order_status] refuses with "Ação não
    permitida" only a caller who owns the order (and asks for anything but
    the cancellation of a pending order); every other caller, a customer
    who is not the owner or a caller without identity, gets any status
    stored from any current status. *)
Theorem restriction_only_for_owner s oid o next c d :
  orders d !! oid = Some o → customers d !! orders.customer_id o = Some c →
  (∀ d', set_order_status s oid (Some next) d = (d', inl Forbidden) →
         caller_owns s d o = true ∧
         ¬ (next = canceled ∧ orders.status o = pending)) ∧
  (auth_uid s = None ∨
   (∃ u, auth_uid s = Some u ∧ is_owner d (orders.customer_id o) u = false) →
   set_order_status s oid (Some next) d = (status_updated s d oid o next c, inr tt) ∧
   orders.status <$> orders (status_updated s d oid o next c) !! oid = Some next).
Proof.
  intros Ho Hc. split.
  - intros d' H. destruct (caller_owns s d o) eqn:Hown.
    + rewrite (set_order_status_owner _ _ _ _ _ Ho Hown) in H.
      case_bool_decide; by simplify_eq.
    + by rewrite (set_order_status_not_owner _ _ _ _ _ _ Ho Hc Hown) in H.
  - intros Hcaller.
    assert (caller_owns s d o = false) as Hown.
    { unfold caller_owns. by destruct Hcaller as [->|(u & -> & ->)]. }
    split; [by apply set_order_status_not_owner|].
    by rewrite orders_status_updated, lookup_insert_eq.
Qed.

(** Bia, a customer, is not the owner of Ana's order and ships it. *)
Lemma restriction_only_for_owner_witness :
  set_order_status sample.bia "a0" (Some shipped) sample.ordered
  = (status_updated sample.bia sample.ordered "a0" sample_rows.a0_pending shipped
       sample_rows.ana, inr tt) ∧
  orders.status <$>
    orders (status_updated sample.bia sample.ordered "a0" sample_rows.a0_pending shipped
              sample_rows.ana) !! "a0" = Some shipped.
Proof.
  apply (restriction_only_for_owner sample.bia "a0" sample_rows.a0_pending shipped
           sample_rows.ana sample.ordered); [vm_compute; reflexivity..|].
  right. exists "user-bia". split; vm_compute; reflexivity.
Defined.

(** C5 (the owner).  Called by the owner of the order, [set_order_status]
    succeeds when the requested status is canceled and the current status
    is pending, and stores canceled; on every other pair it fails with
    "Ação não permitida" and the database is as before. *)
Theorem owner_may_only_cancel_pending s oid o next d :
  orders d !! oid = Some o → caller_owns s d o = true →
  (next = canceled ∧ orders.status o = pending →
   ∃ d', set_order_status s oid (Some next) d = (d', inr tt) ∧
         orders.status <$> orders d' !! oid = Some canceled) ∧
  (¬ (next = canceled ∧ orders.status o = pending) →
   set_order_status s oid (Some next) d = (d, inl Forbidden)).
Proof.
  intros Ho Hown. rewrite (set_order_status_owner _ _ _ _ _ Ho Hown). split; intros Hedge.
  - rewrite bool_decide_eq_true_2 by done. eexists. split; [done|].
    simpl. by rewrite lookup_insert_eq.
  - by rewrite bool_decide_eq_false_2.
Qed.

(** Ana asks to cancel her order once it is paid. *)
Lemma owner_may_only_cancel_pending_witness :
  set_order_status sample.ana "a0" (Some canceled) sample.paid_for
  = (sample.paid_for, inl Forbidden).
Proof.
  apply (owner_may_only_cancel_pending sample.ana "a0" sample_rows.a0_paid canceled
           sample.paid_for); [vm_compute; reflexivity..|].
  intros [_ ?]. done.
Defined.

(** C7 (notification).  A status update enqueues a job exactly when it
    moves the order into paid from another status: then one job is
    appended, for this order, to the e-mail of the customer and with the
    customer's name as payload; any other update, paid to paid included,
    leaves the queue as it is. *)
Theorem job_enqueued_on_transition_into_paid s oid o next c d :
  orders d !! oid = Some o → customers d !! orders.customer_id o = Some c →
  ∃ d', update_orders_status s oid (Some next) d = (d', inr tt) ∧
        mail_queue d' =
          mail_queue d ++
          if bool_decide (next = paid ∧ orders.status o ≠ paid)
          then [mail_queue.mk (mail_queue_id_seq d) oid (customers.email c)
                  (mail_queue.mk_payload (Some (customers.full_name c)))
                  "pending" (now s) None]
          else [].
Proof.
  intros Ho Hc. eexists. split; [by eapply update_orders_status_run|].
  unfold status_updated, into_paid.
  repeat case_bool_decide; simpl; rewrite ?app_nil_r; try done; exfalso; tauto.
Qed.

(** The payment of Ana's order enqueues its one job. *)
Lemma job_enqueued_on_transition_into_paid_witness :
  ∃ d', update_orders_status sample.service "a0" (Some paid) sample.ordered = (d', inr tt) ∧
        mail_queue d' =
          [mail_queue.mk 1 "a0" "ana@example.com"
             (mail_queue.mk_payload (Some "Ana")) "pending" 400 None].
Proof.
  apply (job_enqueued_on_transition_into_paid sample.service "a0"
           sample_rows.a0_pending paid sample_rows.ana sample.ordered);
    vm_compute; reflexivity.
Defined.

(** A second update to paid enqueues nothing more. *)
Example paid_to_paid_enqueues_nothing :
  mail_queue (sample.after (update_orders_status sample.service "a0" (Some paid))
                sample.paid_for)
  = mail_queue sample.paid_for.
Proof. vm_compute. reflexivity. Qed.

(** ** Totals *)

Lemma filter_none {A} (P : A → Prop) `{∀ x, Decision (P x)} (l : list A) :
  (∀ x, x ∈ l → ¬ P x) → filter P l = [].
Proof.
  induction l as [|x l IH]; intros Hl; [done|].
  rewrite filter_cons_False by (apply Hl; left).
  apply IH. intros y Hy. apply Hl. by right.
Qed.

Lemma no_item_of_order d oid :
  (∀ oi, oi ∈ order_items d → order_items.order_id oi ≠ oid) →
  filter (λ oi, of_order oid oi = true) (order_items d) = [].
Proof.
  intros Hnone. apply filter_none. intros oi Hin. unfold of_order.
  rewrite bool_decide_eq_false_2; [done|]. by apply Hnone.
Qed.

Lemma quantity_times_price_inr rows values :
  quantity_times_price rows = inr values → values = line_total <$> rows.
Proof.
  revert values. induction rows as [|oi rows IH]; intros values H; simpl in *.
  - by simplify_eq.
  - unfold int4mul in H. destruct (in_int4 _); [|done].
    destruct (quantity_times_price rows) as [e|vs]; [done|].
    simplify_eq. unfold line_total at 1. f_equal. by apply IH.
Qed.

Lemma sql_sum_line_totals rows :
  default 0 (sql_sum (line_total <$> rows)) = sum_line_totals rows.
Proof.
  assert (foldr Z.add 0 (line_total <$> rows) = sum_line_totals rows) as <-.
  { induction rows as [|oi rows IH]; [done|].
    rewrite fmap_cons. simpl. by rewrite IH. }
  by destruct rows.
Qed.

Lemma compute_order_total_inr d oid total :
  compute_order_total d oid = inr total → total = order_total d oid.
Proof.
  unfold compute_order_total, order_total, int8_to_int4. intros H.
  destruct (quantity_times_price _) as [e|values] eqn:Hvalues; [done|].
  destruct (in_int4 _); [|done]. simplify_eq.
  apply quantity_times_price_inr in Hvalues as ->.
  apply sql_sum_line_totals.
Qed.

Lemma consistent_at_sum d oid o :
  consistent_at d oid → orders d !! oid = Some o →
  orders.total_cents o = order_total d oid.
Proof. intros Hcons Ho. by apply compute_order_total_inr, Hcons. Qed.

(** Consistency at an order depends on the row of the order and on its
    own lines only. *)
Lemma consistent_at_lines d d' y :
  orders d' !! y = orders d !! y →
  filter (λ oi, of_order y oi = true) (order_items d')
  = filter (λ oi, of_order y oi = true) (order_items d) →
  consistent_at d y → consistent_at d' y.
Proof. unfold consistent_at, compute_order_total. by intros -> ->. Qed.

Lemma filter_of_order_app_other y rows new :
  order_items.order_id new ≠ y →
  filter (λ oi, of_order y oi = true) (rows ++ [new])
  = filter (λ oi, of_order y oi = true) rows.
Proof.
  intros Hne. rewrite filter_app, (filter_cons_False _ _ []), filter_nil, app_nil_r; [done|].
  unfold of_order. by rewrite bool_decide_eq_false_2.
Qed.

(** The trigger brings the total of its order up to date and leaves the
    other orders and all the items alone. *)
Lemma update_orders_total_consistent s x d d' :
  update_orders_total s (Some x) d = (d', inr tt) →
  order_items d' = order_items d ∧
  consistent_at d' x ∧
  (∀ y, y ≠ x → orders d' !! y = orders d !! y) ∧
  (∀ y, is_Some (orders d' !! y) ↔ is_Some (orders d !! y)).
Proof.
  intros H. apply update_orders_total_inr in H.
  destruct (orders d !! x) as [o|] eqn:Ho.
  - destruct H as (total & Htotal & _ & ->). simpl.
    split; [done|]. split; [|split].
    + intros o'. simpl. rewrite lookup_insert_eq. by intros [= <-].
    + intros y Hy. by rewrite lookup_insert_ne.
    + intros y. destruct (decide (x = y)) as [<-|]; [|by rewrite lookup_insert_ne].
      rewrite lookup_insert_eq, Ho. split; eauto.
  - subst d'. split; [done|]. split; [|done]. intros o. by rewrite Ho.
Qed.

(** A line appended to the order [oid], followed by the trigger. *)
Lemma line_appended_totals s oid new d d1 d' :
  order_items.order_id new = oid →
  orders d1 = orders d → order_items d1 = order_items d ++ [new] →
  is_Some (orders d !! oid) →
  update_orders_total s (Some oid) d1 = (d', inr tt) →
  totals_consistent d → items_have_orders d →
  totals_consistent d' ∧ items_have_orders d'.
Proof.
  intros Hnew Horders1 Hitems1 Hoid H Htot Hfk.
  apply update_orders_total_consistent in H as (Hitems & Hx & Hother & Hdom).
  split.
  - intros y. destruct (decide (y = oid)) as [->|Hy]; [done|].
    apply (consistent_at_lines d); [by rewrite Hother, Horders1| |done].
    rewrite Hitems, Hitems1. apply filter_of_order_app_other. congruence.
  - intros oi. rewrite Hitems, Hitems1, elem_of_app, Hdom, Horders1.
    intros [Hin|Hin%list_elem_of_singleton]; [by apply Hfk|by subst].
Qed.

Lemma place_order_item_totals s oid k it d d' :
  place_order_item s oid k it d = (d', inr tt) →
  totals_consistent d → items_have_orders d →
  totals_consistent d' ∧ items_have_orders d'.
Proof.
  intros H Htot Hfk.
  apply place_order_item_inr in H
    as (pid & q & p & _ & _ & _ & _ & _ & _ & _ & Hoid & H).
  refine (line_appended_totals s oid _ d _ d' _ _ _ Hoid H Htot Hfk);
    [| |reflexivity]; done.
Qed.

Lemma place_order_loop_totals s oid items : ∀ k d d',
  place_order_loop s oid k items d = (d', inr tt) →
  totals_consistent d → items_have_orders d →
  totals_consistent d' ∧ items_have_orders d'.
Proof.
  induction items as [|it items IH]; intros k d d' H Htot Hfk; simpl in *.
  - unfold_M. by simplify_eq.
  - apply bind_inr in H as ([] & d1 & Hit & H).
    destruct (place_order_item_totals _ _ _ _ _ _ Hit Htot Hfk).
    by eapply IH.
Qed.

(** A new order, and any order without line items, has total 0 on both
    counts. *)
Lemma compute_order_total_no_items d oid :
  (∀ oi, oi ∈ order_items d → order_items.order_id oi ≠ oid) →
  compute_order_total d oid = inr 0 ∧ order_total d oid = 0.
Proof.
  intros Hnone. unfold compute_order_total, order_total.
  by rewrite no_item_of_order.
Qed.

Lemma insert_orders_totals s id c d d' oid :
  insert_orders s id c d = (d', inr oid) →
  totals_consistent d → items_have_orders d →
  totals_consistent d' ∧ items_have_orders d'.
Proof.
  unfold insert_orders. unfold_M. intros H Htot Hfk.
  destruct (orders d !! id) eqn:Hid; [done|].
  destruct (customers d !! c); [|done]. simplify_eq. split.
  - intros y. destruct (decide (y = oid)) as [->|Hy].
    + intros o. simpl. rewrite lookup_insert_eq. intros [= <-]. simpl.
      apply (compute_order_total_no_items d oid).
      intros oi Hin Hoi. destruct (Hfk oi Hin) as [o Ho]. congruence.
    + apply (consistent_at_lines d); [simpl; by rewrite lookup_insert_ne|done|done].
  - intros oi Hin. simpl in *.
    destruct (decide (oid = order_items.order_id oi)) as [<-|];
      [rewrite lookup_insert_eq|rewrite lookup_insert_ne by done]; eauto.
Qed.

Lemma rollback_totals d d1 :
  totals_consistent d → items_have_orders d →
  totals_consistent (rollback d d1) ∧ items_have_orders (rollback d d1).
Proof. done. Qed.

(** [place_order] keeps every stored total equal to what
    [compute_order_total] returns, whether it succeeds or fails. *)
Lemma place_order_totals s items d d' r :
  place_order s items d = (d', r) →
  totals_consistent d → items_have_orders d →
  totals_consistent d' ∧ items_have_orders d'.
Proof.
  unfold place_order, transaction. intros H Htot Hfk.
  destruct (place_order_body s items d) as [d1 [e|oid]] eqn:Hbody; simplify_eq;
    [by apply rollback_totals|].
  unfold place_order_body in Hbody.
  destruct (auth_uid s) as [v_user_id|]; [|done].
  apply bind_inr in Hbody as (v_customer_id & d2 & Hc & Hbody).
  unfold select_customer_id in Hc. unfold_M. injection Hc as <- <-.
  match type of Hbody with context [head ?l] => destruct (head l) as [[v_customer_id ?]|] end;
    [|done]. simpl in Hbody.
  apply bind_inr in Hbody as (v_order_id & d3 & Ho & Hbody).
  apply bind_inr in Hbody as (elements & d4 & He & Hbody).
  apply bind_inr in Hbody as ([] & d5 & Hloop & Hbody).
  injection Hbody as <- <-.
  assert (d4 = d3) as ->.
  { unfold jsonb_array_elements in He. unfold_M. destruct items; by simplify_eq. }
  destruct (insert_orders_totals _ _ _ _ _ _ Ho Htot Hfk).
  by eapply place_order_loop_totals.
Qed.

Lemma set_order_status_totals s oid next d d' r :
  set_order_status s oid next d = (d', r) →
  totals_consistent d → items_have_orders d →
  totals_consistent d' ∧ items_have_orders d'.
Proof.
  unfold set_order_status, transaction. intros H Htot Hfk.
  destruct (set_order_status_body s oid next d) as [d1 [e|[]]] eqn:Hbody; simplify_eq;
    [by apply rollback_totals|].
  unfold set_order_status_body in Hbody.
  unfold mbind at 1, M_bind at 1, get at 1 in Hbody.
  destruct (orders d !! oid) as [o|] eqn:Ho; [|done].
  apply bind_inr in Hbody as ([] & d2 & Hguard & Hbody).
  assert (d2 = d) as ->.
  { unfold_M. repeat case_match; by simplify_eq. }
  unfold update_orders_status, enqueue_order_confirmation, insert_mail_queue in Hbody.
  unfold_M. rewrite Ho in Hbody. destruct next as [next|]; [|done].
  assert (order_items d' = order_items d ∧
          orders d' = <[oid := with_next_status s o next]> (orders d)) as [Hitems Horders].
  { simpl in Hbody. repeat case_match; by simplify_eq. }
  split.
  - intros y. destruct (decide (y = oid)) as [->|Hy].
    + intros o'. unfold compute_order_total. rewrite Hitems, Horders, lookup_insert_eq.
      intros [= <-]. simpl. by apply Htot.
    + apply (consistent_at_lines d); [|by rewrite Hitems|done].
      by rewrite Horders, lookup_insert_ne.
  - intros oi. rewrite Hitems, Horders. intros Hin.
    destruct (decide (oid = order_items.order_id oi)) as [<-|];
      [rewrite lookup_insert_eq|rewrite lookup_insert_ne by done]; eauto.
Qed.

(** In every state the public operations reach, each stored total is what
    [compute_order_total] returns, and so the sum over the order's lines. *)
Lemma reachable_totals_consistent d :
  reachable d →
  ∀ oid o, orders d !! oid = Some o →
    compute_order_total d oid = inr (orders.total_cents o) ∧
    orders.total_cents o = order_total d oid.
Proof.
  intros (d0 & Horders & Hitems & Hsteps).
  assert (totals_consistent d ∧ items_have_orders d) as [Htot _].
  { revert d Hsteps. apply rtc_ind_r.
    - split.
      + intros oid o. by rewrite Horders, lookup_empty.
      + intros oi. rewrite Hitems. intros Hin. by apply elem_of_nil in Hin.
    - intros d1 d2 _ Hstep [Htot1 Hfk1].
      destruct Hstep; [by eapply place_order_totals|by eapply set_order_status_totals]. }
  intros oid o Ho. split; [by apply Htot|by apply consistent_at_sum].
Qed.

(** The firings of the total trigger after a statement: every order a
    firing names is brought up to date, the others stay as they are. *)
Lemma for_each_row_totals s (target : order_items.row → uuid) rows : ∀ d d',
  for_each_row (λ r, update_orders_total s (Some (target r))) rows d = (d', inr tt) →
  order_items d' = order_items d ∧
  (∀ y, is_Some (orders d' !! y) ↔ is_Some (orders d !! y)) ∧
  (∀ y, consistent_at d y ∨ y ∈ target <$> rows → consistent_at d' y).
Proof.
  induction rows as [|r rows IH]; intros d d' H; simpl in *.
  - unfold_M. simplify_eq. split; [done|]. split; [done|].
    intros y [?|Hin]; [done|]. by apply elem_of_nil in Hin.
  - apply bind_inr in H as ([] & d1 & Hfire & H).
    apply update_orders_total_consistent in Hfire as (Hitems1 & Hx & Hother & Hdom1).
    apply IH in H as (Hitems & Hdom & Hcons).
    split; [congruence|]. split; [intros y; by rewrite Hdom, Hdom1|].
    intros y Hy. apply Hcons.
    destruct (decide (y = target r)) as [->|Hne]; [by left|].
    destruct Hy as [Hy|Hy%elem_of_cons].
    + left. apply (consistent_at_lines d); [by apply Hother|by rewrite Hitems1|done].
    + destruct Hy as [?|?]; [done|by right].
Qed.

(** An insertion keeps the totals. *)
Lemma insert_order_items_totals s id oid pid q price d d' :
  insert_order_items s id oid pid q price d = (d', inr tt) →
  totals_consistent d → items_have_orders d →
  totals_consistent d' ∧ items_have_orders d'.
Proof.
  intros H Htot Hfk.
  apply insert_order_items_inr in H as (p & -> & _ & Hoid & H).
  refine (line_appended_totals s oid _ d _ d' _ _ _ Hoid H Htot Hfk);
    [| |reflexivity]; done.
Qed.

Lemma filter_of_order_unaffected (P : order_items.row → bool) (f : order_items.row → order_items.row)
    y (rows : list order_items.row) :
  (∀ oi, oi ∈ rows → P oi = true → order_items.order_id oi ≠ y) →
  (∀ oi, order_items.order_id (f oi) = order_items.order_id oi) →
  filter (λ oi, of_order y oi = true) ((λ oi, if P oi then f oi else oi) <$> rows)
  = filter (λ oi, of_order y oi = true) rows ∧
  filter (λ oi, of_order y oi = true) (filter (λ oi, P oi = false) rows)
  = filter (λ oi, of_order y oi = true) rows.
Proof.
  intros HP Hf. induction rows as [|oi rows IH]; [done|].
  destruct IH as [IH1 IH2]; [intros; apply HP; [by right|done]|].
  rewrite fmap_cons. destruct (P oi) eqn:HPoi.
  - assert (order_items.order_id oi ≠ y) as Hne by (apply HP; [left|done]).
    rewrite (filter_cons_False (λ oi, P oi = false)) by congruence.
    rewrite !(filter_cons_False (λ oi, of_order y oi = true)); [done|..];
      unfold of_order; rewrite bool_decide_eq_false_2; try done; by rewrite Hf.
  - rewrite (filter_cons_True (λ oi, P oi = false)) by done.
    rewrite !(filter_cons (λ oi, of_order y oi = true)), IH1, IH2.
    by destruct (decide _).
Qed.

Lemma not_updated_order id y (rows : list order_items.row) :
  y ∉ order_items.order_id <$> filter (λ oi, has_id id oi = true) rows →
  ∀ oi, oi ∈ rows → has_id id oi = true → order_items.order_id oi ≠ y.
Proof.
  intros Hnin oi Hoi Hid <-. apply Hnin.
  apply list_elem_of_fmap. exists oi. split; [done|]. by apply list_elem_of_filter.
Qed.

(** A deletion keeps the totals: the trigger recomputes the order of each
    deleted line. *)
Lemma delete_order_items_totals s id d d' :
  delete_order_items s id d = (d', inr tt) →
  totals_consistent d → items_have_orders d →
  totals_consistent d' ∧ items_have_orders d'.
Proof.
  unfold delete_order_items. unfold mbind at 1 2, M_bind at 1 2, get, put.
  intros H Htot Hfk.
  apply (for_each_row_totals s order_items.order_id) in H as (Hitems & Hdom & Hcons).
  simpl in *. split.
  - intros y.
    destruct (decide (y ∈ order_items.order_id <$>
                        filter (λ oi, has_id id oi = true) (order_items d))) as [Hin|Hnin];
      [apply Hcons; by right|].
    apply Hcons. left. apply (consistent_at_lines d); [done| |done]. simpl.
    by destruct (filter_of_order_unaffected (has_id id) (λ oi, oi) y (order_items d))
      as [_ ?]; [apply not_updated_order|..].
  - intros oi. rewrite Hitems, Hdom. simpl. intros [_ Hin]%list_elem_of_filter.
    by apply Hfk.
Qed.

(** So does an update that leaves each line with its order. *)
Lemma update_order_items_totals s id a d d' :
  keeps_order a →
  update_order_items s id a d = (d', inr tt) →
  totals_consistent d → items_have_orders d →
  totals_consistent d' ∧ items_have_orders d'.
Proof.
  unfold keeps_order, update_order_items. intros Ha H Htot Hfk.
  unfold mbind at 1, M_bind at 1, get in H.
  apply bind_inr in H as ([] & d1 & Hcheck & H).
  unfold lift in Hcheck. injection Hcheck as <- _.
  unfold mbind at 1, M_bind at 1, put in H.
  assert (∀ oi, order_items.order_id (assign a oi) = order_items.order_id oi) as Hkeep.
  { intros oi. unfold assign. by rewrite Ha. }
  assert (for_each_row
            (λ old, update_order_total s (Some old) (Some (assign a old)))
            (filter (λ oi, has_id id oi = true) (order_items d))
          = for_each_row (λ r, update_orders_total s (Some (order_items.order_id r)))
              (filter (λ oi, has_id id oi = true) (order_items d))) as Hfire.
  { generalize (filter (λ oi, has_id id oi = true) (order_items d)).
    induction l as [|r l IH]; [done|]. simpl. rewrite IH.
    unfold update_order_total. simpl. by rewrite Ha. }
  rewrite Hfire in H.
  apply for_each_row_totals in H as (Hitems & Hdom & Hcons).
  split.
  - intros y.
    destruct (decide (y ∈ order_items.order_id <$>
                        filter (λ oi, has_id id oi = true) (order_items d))) as [Hin|Hnin];
      [apply Hcons; by right|].
    apply Hcons. left. apply (consistent_at_lines d); [done| |done]. simpl.
    by destruct (filter_of_order_unaffected (has_id id) (assign a) y (order_items d))
      as [? _]; [apply not_updated_order|..].
  - intros oi. rewrite Hitems, Hdom. simpl.
    intros (oi0 & -> & Hin)%list_elem_of_fmap.
    destruct (has_id id oi0); [rewrite Hkeep|]; by apply Hfk.
Qed.

(** The two orders and their three lines. *)
Example two_orders_contents :
  order_items sample.two_orders =
    [order_items.mk "a1" "a0" "caneta" 2 500 100;
     order_items.mk "a2" "a0" "caderno" 1 300 100;
     order_items.mk "b1" "b0" "caneta" 1 500 200] ∧
  orders sample.two_orders !! "a0" = Some (orders.mk "cust-ana" pending 1300 100 100) ∧
  orders sample.two_orders !! "b0" = Some (orders.mk "cust-bia" pending 500 200 200).
Proof. vm_compute. repeat split. Qed.

Lemma reachable_two_orders : reachable sample.two_orders.
Proof.
  exists sample.shop. split; [reflexivity|]. split; [reflexivity|].
  apply (rtc_l _ _ sample.ordered).
  - exact (step_place_order sample.shop sample.ordered sample.ana
             (jsonb_array [sample.line "caneta" 2; sample.line "caderno" 1]) _
             (surjective_pairing _)).
  - apply rtc_once.
    exact (step_place_order sample.ordered sample.two_orders sample.bia
             (jsonb_array [sample.line "caneta" 1]) _ (surjective_pairing _)).
Qed.

(** C6 (total of an order), at the input where the code departs from it.
    In a state the public operations reach, where every stored total is
    right, an update moves the line [a1] (two pens, 1000) from order [a0]
    to order [b0].  The trigger recomputes [b0] only: [a0] keeps the stored
    total 1300 while its remaining line sums to 300, which is what
    [compute_order_total] returns. *)
Theorem moved_line_leaves_total_stale :
  reachable sample.two_orders ∧
  totals_consistent sample.two_orders ∧
  (sample.move_a1 sample.two_orders).2 = inr tt ∧
  orders.total_cents <$> orders (sample.after sample.move_a1 sample.two_orders) !! "a0"
    = Some 1300 ∧
  order_total (sample.after sample.move_a1 sample.two_orders) "a0" = 300 ∧
  compute_order_total (sample.after sample.move_a1 sample.two_orders) "a0" = inr 300 ∧
  orders.total_cents <$> orders (sample.after sample.move_a1 sample.two_orders) !! "b0"
    = Some 1500 ∧
  ¬ totals_consistent (sample.after sample.move_a1 sample.two_orders).
Proof.
  split; [apply reachable_two_orders|]. split.
  { intros oid o Ho. by apply (reachable_totals_consistent _ reachable_two_orders). }
  do 5 (split; [vm_compute; reflexivity|]).
  intros Htot.
  specialize (Htot "a0" (orders.mk "cust-ana" pending 1300 100 100)).
  assert (compute_order_total (sample.after sample.move_a1 sample.two_orders) "a0"
          = inr 300) as Hsum by (vm_compute; reflexivity).
  rewrite Hsum in Htot.
  assert (inr 300 = inr (B:=Z) (A:=exn) 1300) by (apply Htot; vm_compute; reflexivity).
  done.
Qed.

(** ** Price snapshots *)

Lemma place_order_item_lines s oid k it d d' :
  place_order_item s oid k it d = (d', inr tt) →
  (∀ pid, price_of d' pid = price_of d pid) ∧
  ∃ oi, order_items d' = order_items d ++ [oi] ∧ snapshot_of d oid oi.
Proof.
  intros H.
  apply place_order_item_inr in H
    as (pid & q & p & _ & _ & _ & Hp & _ & _ & _ & _ & H).
  pose proof (unchanged_update_orders_total products s _ ltac:(by intros []) _ _ _ H) as Hprod.
  pose proof (unchanged_update_orders_total order_items s _ ltac:(by intros []) _ _ _ H) as Hitems.
  simpl in *. split.
  - intros pid'. unfold price_of. rewrite Hprod.
    destruct (decide (pid = pid')) as [<-|]; [|by rewrite lookup_insert_ne].
    by rewrite lookup_insert_eq, Hp.
  - eexists. split; [done|]. split; [done|]. unfold price_of. simpl. by rewrite Hp.
Qed.

Lemma place_order_loop_lines s oid items : ∀ k d d',
  place_order_loop s oid k items d = (d', inr tt) →
  (∀ pid, price_of d' pid = price_of d pid) ∧
  ∃ lines, order_items d' = order_items d ++ lines ∧ Forall (snapshot_of d oid) lines.
Proof.
  induction items as [|it items IH]; intros k d d' H; simpl in *.
  - unfold_M. simplify_eq. split; [done|]. exists []. by rewrite app_nil_r.
  - apply bind_inr in H as ([] & d1 & Hit & H).
    apply place_order_item_lines in Hit as (Hprice1 & oi & Hitems1 & Hoi).
    apply IH in H as (Hprice & lines & Hitems & Hlines).
    split; [intros pid; by rewrite Hprice|].
    exists (oi :: lines). split; [by rewrite Hitems, Hitems1, <- app_assoc|].
    constructor; [done|].
    eapply Forall_impl; [done|]. intros oi' [? Hsnap]. split; [done|].
    by rewrite <- Hprice1.
Qed.

Lemma place_order_lines s items d d' oid :
  place_order s items d = (d', inr oid) →
  ∃ lines, order_items d' = order_items d ++ lines ∧ Forall (snapshot_of d oid) lines.
Proof.
  unfold place_order, transaction. intros H.
  destruct (place_order_body s items d) as [d1 [e|oid']] eqn:Hbody; simplify_eq.
  unfold place_order_body in Hbody.
  destruct (auth_uid s) as [v_user_id|]; [|done].
  apply bind_inr in Hbody as (v_customer_id & d2 & Hc & Hbody).
  unfold select_customer_id in Hc. unfold_M. injection Hc as <- <-.
  match type of Hbody with context [head ?l] => destruct (head l) as [[v_customer_id ?]|] end;
    [|done]. simpl in Hbody.
  apply bind_inr in Hbody as (v_order_id & d3 & Ho & Hbody).
  apply bind_inr in Hbody as (elements & d4 & He & Hbody).
  apply bind_inr in Hbody as ([] & d5 & Hloop & Hbody).
  injection Hbody as <- <-.
  assert (d4 = d3) as ->.
  { unfold jsonb_array_elements in He. unfold_M. destruct items; by simplify_eq. }
  apply place_order_loop_lines in Hloop as (_ & lines & Hitems & Hlines).
  pose proof (unchanged_insert_orders products s _ _ ltac:(by intros []) _ _ _ Ho) as Hprod.
  pose proof (unchanged_insert_orders order_items s _ _ ltac:(by intros []) _ _ _ Ho) as Hit.
  exists lines. split; [by rewrite Hitems, Hit|].
  eapply Forall_impl; [done|]. intros oi [? Hsnap]. split; [done|].
  unfold price_of in *. by rewrite <- Hprod.
Qed.

Lemma select_customer_id_Some u d d' c :
  select_customer_id u d = (d', inr (Some c)) →
  d' = d ∧ ∃ row, customers d !! c = Some row ∧ customers.user_id row = Some u.
Proof.
  unfold select_customer_id. unfold_M. intros [= <- H]. split; [done|].
  destruct (head _) as [[c' row]|] eqn:Hhead; simplify_eq/=.
  apply head_Some_elem_of, elem_of_map_to_list, map_lookup_filter_Some in Hhead
    as [Hc Hu].
  eauto.
Qed.

Lemma placed_lines_ext s d1 d oid items : ∀ k,
  (∀ pid, price_of d1 pid = price_of d pid) →
  placed_lines s d1 oid k items = placed_lines s d oid k items.
Proof.
  intros k Hprice. revert k. induction items as [|it items IH]; intros k; [done|].
  simpl. rewrite IH. unfold placed_line.
  destruct (item.product_id it), (item.quantity it); try done. by rewrite Hprice.
Qed.

Lemma insert_orders_inr s id c d d0 oid :
  insert_orders s id c d = (d0, inr oid) →
  oid = id ∧ orders d !! id = None ∧ is_Some (customers d !! c) ∧
  d0 = with_orders d (<[id := orders.mk c pending 0 (now s) (now s)]> (orders d)).
Proof.
  unfold insert_orders. unfold_M. intros H.
  destruct (orders d !! id); [done|].
  destruct (customers d !! c) eqn:Hc; [|done]. simplify_eq. eauto.
Qed.

(** The steps of a call that succeeds. *)
Lemma place_order_inr s items d d' oid :
  place_order s items d = (d', inr oid) →
  ∃ u c d0, auth_uid s = Some u ∧
    select_customer_id u d = (d, inr (Some c)) ∧
    insert_orders s (gen_random_uuid s 0) c d = (d0, inr oid) ∧
    items ≠ jsonb_not_array ∧
    place_order_loop s oid 1 (elements_of items) d0 = (d', inr tt).
Proof.
  unfold place_order, transaction. intros H.
  destruct (place_order_body s items d) as [d1 [e|oid']] eqn:Hbody; simplify_eq.
  unfold place_order_body in Hbody.
  destruct (auth_uid s) as [u|]; [|done].
  apply bind_inr in Hbody as (v_customer_id & d2 & Hc & Hbody).
  destruct v_customer_id as [c|]; [|done].
  pose proof (select_customer_id_Some _ _ _ _ Hc) as [-> _].
  apply bind_inr in Hbody as (v_order_id & d3 & Ho & Hbody).
  apply bind_inr in Hbody as (elements & d4 & He & Hbody).
  apply bind_inr in Hbody as ([] & d5 & Hloop & Hbody).
  unfold_M. injection Hbody as <- <-.
  exists u, c, d3.
  assert (items ≠ jsonb_not_array ∧ d4 = d3 ∧ elements = elements_of items)
    as (? & -> & ->).
  { unfold jsonb_array_elements in He. unfold_M. destruct items; by simplify_eq. }
  done.
Qed.

(** The line one turn of the loop appends is the row of its item. *)
Lemma place_order_item_placed s oid k it d d' :
  place_order_item s oid k it d = (d', inr tt) →
  ∃ oi, placed_line s d oid k it = Some oi ∧ order_items d' = order_items d ++ [oi].
Proof.
  intros H.
  apply place_order_item_inr in H
    as (pid & q & p & Hpid & Hqty & _ & Hp & _ & _ & _ & _ & H).
  pose proof (unchanged_update_orders_total order_items s _ ltac:(by intros []) _ _ _ H)
    as Hitems.
  simpl in *. eexists. split; [|done].
  unfold placed_line, price_of. by rewrite Hpid, Hqty, Hp.
Qed.

(** The loop appends one row per item, in the order of the items. *)
Lemma place_order_loop_placed s oid items : ∀ k d d',
  place_order_loop s oid k items d = (d', inr tt) →
  length (placed_lines s d oid k items) = length items ∧
  order_items d' = order_items d ++ placed_lines s d oid k items.
Proof.
  induction items as [|it items IH]; intros k d d' H; simpl in *.
  - unfold_M. simplify_eq. by rewrite app_nil_r.
  - apply bind_inr in H as ([] & d1 & Hit & H).
    pose proof (place_order_item_lines _ _ _ _ _ _ Hit) as [Hprice _].
    apply place_order_item_placed in Hit as (oi & Hline & Hitems1).
    apply IH in H as (Hlen & Hitems).
    rewrite (placed_lines_ext s d1 d) in Hlen, Hitems by done.
    rewrite Hline. simpl. split; [by rewrite Hlen|].
    by rewrite Hitems, Hitems1, <- app_assoc.
Qed.

(** C8 (price snapshot).  [place_order] adds one line for each item of the
    call, in the order of the array: the row of the new order with the
    item's product, its quantity and, as unit price, the price the
    product has when the order is placed.  A later change of a product's
    price leaves these lines, the stored totals and what
    [compute_order_total] returns as they are. *)
Theorem unit_price_is_a_snapshot s items d d1 oid s' pid price d2 r :
  place_order s items d = (d1, inr oid) →
  update_products_price_cents s' pid price d1 = (d2, r) →
  let lines := placed_lines s d oid 1 (elements_of items) in
  length lines = length (elements_of items) ∧
  order_items d1 = order_items d ++ lines ∧
  Forall (snapshot_of d oid) lines ∧
  order_items d2 = order_items d1 ∧
  orders d2 = orders d1 ∧
  compute_order_total d2 oid = compute_order_total d1 oid.
Proof.
  intros Hplace Hprice lines.
  pose proof (place_order_lines _ _ _ _ _ Hplace) as (lines' & Hlines' & Hsnap).
  apply place_order_inr in Hplace as (u & c & d0 & _ & _ & Ho & _ & Hloop).
  apply insert_orders_inr in Ho as (-> & _ & _ & ->).
  apply place_order_loop_placed in Hloop as (Hlen & Hitems).
  rewrite (placed_lines_ext s _ d) in Hlen, Hitems by done.
  simpl in Hitems. fold lines in Hlen, Hitems.
  assert (lines' = lines) as -> by (apply (app_inv_head (order_items d)); congruence).
  pose proof (unchanged_update_products_price_cents order_items s' pid price
                ltac:(by intros []) _ _ _ Hprice) as Hitems2.
  pose proof (unchanged_update_products_price_cents orders s' pid price
                ltac:(by intros []) _ _ _ Hprice) as Horders2.
  repeat split; [done..|]. unfold compute_order_total. by rewrite Hitems2.
Qed.

(** The pen goes from 500 to 999 after Ana's order of two pens and a
    notebook: her two lines, with 500 and 300 as unit prices, and her
    total of 1300 stay. *)
Lemma unit_price_is_a_snapshot_witness :
  let raise_price := update_products_price_cents sample.service "caneta" 999 in
  let lines := placed_lines sample.ana sample.shop "a0" 1
                 [sample.line "caneta" 2; sample.line "caderno" 1] in
  (lines = [order_items.mk "a1" "a0" "caneta" 2 500 100;
            order_items.mk "a2" "a0" "caderno" 1 300 100] ∧
   price_of (sample.after raise_price sample.ordered) "caneta" = Some 999) ∧
  length lines = 2%nat ∧
  order_items sample.ordered = order_items sample.shop ++ lines ∧
  Forall (snapshot_of sample.shop "a0") lines ∧
  order_items (sample.after raise_price sample.ordered) = order_items sample.ordered ∧
  orders (sample.after raise_price sample.ordered) = orders sample.ordered ∧
  compute_order_total (sample.after raise_price sample.ordered) "a0"
    = compute_order_total sample.ordered "a0".
Proof.
  intros raise_price lines. split; [split; vm_compute; reflexivity|].
  apply (unit_price_is_a_snapshot sample.ana
           (jsonb_array [sample.line "caneta" 2; sample.line "caderno" 1])
           sample.shop sample.ordered "a0" sample.service "caneta" 999
           (sample.after raise_price sample.ordered) (inr tt));
    vm_compute; reflexivity.
Defined.

(** ** The queue worker *)

Section worker_facts.
Context (e : worker.env).

Lemma process_row_outcome n row queue :
  worker.process_row e n row queue
  = worker.update_mail_queue (mail_queue.id row) (outcome e row) (worker.clock e n) queue.
Proof. unfold worker.process_row, outcome. by destruct (worker.sendEmail _ _ _ _). Qed.

Lemma update_mail_queue_ids id st t queue :
  mail_queue.id <$> worker.update_mail_queue id st t queue = mail_queue.id <$> queue.
Proof.
  unfold worker.update_mail_queue. rewrite <- list_fmap_compose.
  apply list_fmap_ext. intros _ r _. simpl. by case_bool_decide.
Qed.

Lemma update_mail_queue_other id st t queue r :
  r ∈ queue → mail_queue.id r ≠ id → r ∈ worker.update_mail_queue id st t queue.
Proof.
  intros Hin Hne. apply list_elem_of_fmap. exists r. split; [|done].
  by rewrite bool_decide_eq_false_2.
Qed.

Lemma update_mail_queue_hit st t queue r :
  r ∈ queue →
  mail_queue.with_status_processed_at r st t
    ∈ worker.update_mail_queue (mail_queue.id r) st t queue.
Proof.
  intros Hin. apply list_elem_of_fmap. exists r. split; [|done].
  by rewrite bool_decide_eq_true_2.
Qed.

Lemma process_rows_ids rows : ∀ n queue,
  mail_queue.id <$> worker.process_rows e n rows queue = mail_queue.id <$> queue.
Proof.
  induction rows as [|row rows IH]; intros n queue; simpl; [done|].
  by rewrite IH, process_row_outcome, update_mail_queue_ids.
Qed.

Lemma process_rows_other rows : ∀ n queue r,
  r ∈ queue → mail_queue.id r ∉ mail_queue.id <$> rows →
  r ∈ worker.process_rows e n rows queue.
Proof.
  induction rows as [|row rows IH]; intros n queue r Hin Hid; simpl; [done|].
  rewrite fmap_cons, not_elem_of_cons in Hid. destruct Hid as [Hne Hid].
  apply IH; [|done]. rewrite process_row_outcome.
  by apply update_mail_queue_other.
Qed.

(** The n-th claimed job ends as [processed] at the n-th reading of the
    clock, whatever happens to the jobs before and after it. *)
Lemma process_rows_hit rows : ∀ n queue i r,
  NoDup (mail_queue.id <$> rows) → rows !! i = Some r → r ∈ queue →
  processed e r (worker.clock e (n + i)) ∈ worker.process_rows e n rows queue.
Proof.
  induction rows as [|row rows IH]; intros n queue i r Hdup Hi Hin; [done|].
  rewrite fmap_cons, NoDup_cons in Hdup. destruct Hdup as [Hhead Hdup].
  simpl. destruct i as [|i]; simpl in Hi.
  - injection Hi as ->. rewrite Nat.add_0_r.
    apply process_rows_other; [|done].
    rewrite process_row_outcome. by apply update_mail_queue_hit.
  - replace (n + S i)%nat with (S n + i)%nat by lia.
    apply IH; [done..|]. rewrite process_row_outcome.
    apply update_mail_queue_other; [done|].
    intros Heq. apply Hhead. rewrite <- Heq.
    apply list_elem_of_fmap. exists r. split; [done|].
    by eapply list_elem_of_lookup_2.
Qed.
End worker_facts.

Lemma select_pending_sublist queue : worker.select_pending queue `sublist_of` queue.
Proof.
  unfold worker.select_pending. etrans; [apply sublist_take|apply sublist_filter].
Qed.

Lemma NoDup_fmap_eq {A B} (f : A → B) (l : list A) x y :
  NoDup (f <$> l) → x ∈ l → y ∈ l → f x = f y → x = y.
Proof.
  induction l as [|z l IH]; intros Hdup Hx Hy Hf; [by apply elem_of_nil in Hx|].
  rewrite fmap_cons, NoDup_cons in Hdup. destruct Hdup as [Hz Hdup].
  apply elem_of_cons in Hx as [->|Hx], Hy as [->|Hy]; [done|..|by apply IH].
  - exfalso. apply Hz. rewrite Hf. apply list_elem_of_fmap. eauto.
  - exfalso. apply Hz. rewrite <- Hf. apply list_elem_of_fmap. eauto.
Qed.

(** C10 (draining the queue).  An invocation whose [select] succeeds
    claims at most 10 jobs, all pending rows of the queue; the n-th claimed
    job ends with status sent or error, according to its own delivery, and
    with the n-th clock reading as processed timestamp, whatever the
    outcome of the other jobs; the rows it did not claim stay as they are;
    and the response has status 200 however many deliveries failed. *)
Theorem drain_marks_each_claimed_job e d :
  worker.select_error e = None →
  NoDup (mail_queue.id <$> mail_queue d) →
  let claimed := worker.select_pending (mail_queue d) in
  let d' := (worker.handler e d).1 in
  (length claimed ≤ 10)%nat ∧
  Forall (λ r, mail_queue.status r = "pending" ∧ r ∈ mail_queue d) claimed ∧
  (∀ n r, claimed !! n = Some r →
     (outcome e r = "sent" ∨ outcome e r = "error") ∧
     mail_queue.mk (mail_queue.id r) (mail_queue.order_id r) (mail_queue.to_email r)
       (mail_queue.payload r) (outcome e r) (mail_queue.created_at r)
       (Some (worker.clock e n)) ∈ mail_queue d') ∧
  mail_queue.id <$> mail_queue d' = mail_queue.id <$> mail_queue d ∧
  (∀ r, r ∈ mail_queue d → r ∉ claimed → r ∈ mail_queue d') ∧
  worker.status (worker.handler e d).2 = 200.
Proof.
  intros Hselect Hdup claimed d'.
  pose proof (select_pending_sublist (mail_queue d)) as Hsub. fold claimed in Hsub.
  assert (NoDup (mail_queue.id <$> claimed)) as Hdup'.
  { eapply sublist_NoDup; [done|]. by apply fmap_sublist. }
  assert (mail_queue d' = worker.process_rows e 0 claimed (mail_queue d)) as Hd'.
  { unfold d', worker.handler. rewrite Hselect. fold claimed. by destruct claimed. }
  split; [|split; [|split; [|split; [|split]]]].
  - unfold claimed, worker.select_pending. rewrite length_take. lia.
  - apply Forall_forall. intros r Hr. split.
    + unfold claimed, worker.select_pending in Hr.
      apply subseteq_take, list_elem_of_filter in Hr as [Hp _].
      unfold worker.is_pending in Hp. by apply bool_decide_eq_true in Hp.
    + by eapply sublist_subseteq.
  - intros n r Hn. split.
    + unfold outcome. destruct (worker.sendEmail _ _ _ _); eauto.
    + rewrite Hd'. apply (process_rows_hit e claimed 0 _ n r); [done..|].
      eapply sublist_subseteq; [done|]. by eapply list_elem_of_lookup_2.
  - by rewrite Hd', process_rows_ids.
  - intros r Hin Hnot. rewrite Hd'. apply process_rows_other; [done|].
    intros (c & Hid & Hc)%list_elem_of_fmap. apply Hnot.
    assert (r = c) as ->; [|done].
    apply (NoDup_fmap_eq mail_queue.id (mail_queue d)); [done..| |done].
    by eapply sublist_subseteq.
  - unfold worker.handler. rewrite Hselect. by destruct (worker.select_pending _).
Qed.

(** Of three pending jobs the second cannot be delivered: it is marked
    error, the other two sent, and the invocation answers 200. *)
Lemma drain_marks_each_claimed_job_witness :
  mail_queue.status <$> mail_queue (worker.handler sample_worker.env sample_worker.backlog).1
    = ["sent"; "error"; "sent"] ∧
  mail_queue.processed_at <$>
    mail_queue (worker.handler sample_worker.env sample_worker.backlog).1
    = [Some 1000; Some 1001; Some 1002] ∧
  worker.status (worker.handler sample_worker.env sample_worker.backlog).2 = 200.
Proof.
  split; [vm_compute; reflexivity|]. split; [vm_compute; reflexivity|].
  apply (drain_marks_each_claimed_job sample_worker.env sample_worker.backlog);
    [reflexivity|].
  apply (bool_decide_unpack _). vm_compute. exact I.
Defined.

(** * Further properties *)

(** ** [set_order_status], on every input *)

(** X1.  With NULL as requested status [set_order_status] never succeeds
    and changes nothing: an unknown order is not found, the owner of an
    order that is not pending is refused, and every other call ends in the
    not-null violation of the update. *)
Theorem set_order_status_null s oid d :
  set_order_status s oid None d =
    match orders d !! oid with
    | None => (d, inl OrderNotFound)
    | Some o =>
        if caller_owns s d o && negb (bool_decide (orders.status o = pending))
        then (d, inl Forbidden)
        else (d, inl (sql_error not_null_violation))
    end.
Proof.
  unfold set_order_status, transaction, set_order_status_body, update_orders_status,
    caller_owns.
  unfold_M.
  destruct (orders d !! oid) as [o|] eqn:Ho; [|by rewrite rollback_same_seq].
  destruct (auth_uid s) as [v_user|]; [destruct (is_owner d _ v_user)|]; simpl;
    rewrite ?Ho; try by rewrite rollback_same_seq.
  destruct (orders.status o); simpl; rewrite ?Ho; by rewrite rollback_same_seq.
Qed.

(** X2.  A call of [set_order_status] that fails leaves every table as it
    was, and it fails in three ways only: "Pedido não encontrado" exactly
    for an unknown order, "Ação não permitida" for a caller who owns the
    order, and a not-null violation when the requested status is NULL or
    the customer of the order is missing. *)
Theorem set_order_status_fails s oid next d d' e :
  set_order_status s oid next d = (d', inl e) →
  (customers d' = customers d ∧ products d' = products d ∧ orders d' = orders d ∧
   order_items d' = order_items d ∧ mail_queue d' = mail_queue d) ∧
  match orders d !! oid with
  | None => e = OrderNotFound
  | Some o =>
      (e = Forbidden ∧ caller_owns s d o = true) ∨
      (e = sql_error not_null_violation ∧
       (next = None ∨ customers d !! orders.customer_id o = None))
  end.
Proof.
  unfold set_order_status, transaction. intros H.
  destruct (set_order_status_body s oid next d) as [d1 [e1|[]]] eqn:Hbody; simplify_eq.
  split; [done|].
  unfold set_order_status_body, update_orders_status, enqueue_order_confirmation,
    insert_mail_queue, caller_owns in *.
  unfold_M.
  destruct (orders d !! oid) as [o|] eqn:Ho; [|by simplify_eq].
  simpl in Hbody.
  repeat case_match; simplify_eq; eauto.
  all: right; split; [done|]; right.
  all: match goal with H : _ <$> _ = None |- _ => apply fmap_None in H end; done.
Qed.

(** Ana, the owner, asks to cancel her paid order. *)
Lemma set_order_status_fails_witness :
  (customers sample.paid_for = customers sample.paid_for ∧
   products sample.paid_for = products sample.paid_for ∧
   orders sample.paid_for = orders sample.paid_for ∧
   order_items sample.paid_for = order_items sample.paid_for ∧
   mail_queue sample.paid_for = mail_queue sample.paid_for) ∧
  match orders sample.paid_for !! "a0" with
  | None => Forbidden = OrderNotFound
  | Some o =>
      (Forbidden = Forbidden ∧ caller_owns sample.ana sample.paid_for o = true) ∨
      (Forbidden = sql_error not_null_violation ∧
       (Some canceled = None ∨ customers sample.paid_for !! orders.customer_id o = None))
  end.
Proof.
  apply (set_order_status_fails sample.ana "a0" (Some canceled) sample.paid_for).
  vm_compute. reflexivity.
Defined.

(** X3.  A call of [set_order_status] that succeeds has stored the
    requested status and the time of the call in the one order, whose
    customer, total and placing time stay; it leaves the other orders, the
    customers, the products and the order items alone, and appends at most
    one job, a pending one for this order, and that only on a move into
    paid. *)
Theorem set_order_status_effect s oid next d d' :
  set_order_status s oid next d = (d', inr tt) →
  ∃ o n, orders d !! oid = Some o ∧ next = Some n ∧
    orders d' = <[oid := orders.mk (orders.customer_id o) n (orders.total_cents o)
                           (orders.placed_at o) (now s)]> (orders d) ∧
    customers d' = customers d ∧ products d' = products d ∧
    order_items d' = order_items d ∧
    (mail_queue d' = mail_queue d ∨
     ∃ job, mail_queue d' = mail_queue d ++ [job] ∧ n = paid ∧
            orders.status o ≠ paid ∧
            mail_queue.order_id job = oid ∧ mail_queue.status job = "pending").
Proof.
  unfold set_order_status, transaction. intros H.
  destruct (set_order_status_body s oid next d) as [d1 [e1|[]]] eqn:Hbody; simplify_eq.
  unfold set_order_status_body, update_orders_status, enqueue_order_confirmation,
    insert_mail_queue in *.
  unfold_M.
  destruct (orders d !! oid) as [o|] eqn:Ho; [|by simplify_eq].
  simpl in Hbody. exists o.
  destruct next as [n|]; [exists n|repeat case_match; by simplify_eq].
  repeat case_match; simplify_eq; simpl;
    (split; [done|]); (split; [done|]); (split; [done|]); (split; [done|]);
    (split; [done|]); (split; [done|]); eauto.
  all: right; eexists; split; [done|].
  all: match goal with H : _ && _ = true |- _ => apply andb_true_iff in H as [?%bool_decide_eq_true ?%negb_true_iff%bool_decide_eq_false] end.
  all: done.
Qed.

(** The service marks Ana's order paid. *)
Lemma set_order_status_effect_witness :
  ∃ o n, orders sample.ordered !! "a0" = Some o ∧ Some paid = Some n ∧
    orders sample.paid_for
      = <["a0" := orders.mk (orders.customer_id o) n (orders.total_cents o)
                     (orders.placed_at o) (now sample.service)]> (orders sample.ordered) ∧
    customers sample.paid_for = customers sample.ordered ∧
    products sample.paid_for = products sample.ordered ∧
    order_items sample.paid_for = order_items sample.ordered ∧
    (mail_queue sample.paid_for = mail_queue sample.ordered ∨
     ∃ job, mail_queue sample.paid_for = mail_queue sample.ordered ++ [job] ∧ n = paid ∧
            orders.status o ≠ paid ∧
            mail_queue.order_id job = "a0" ∧ mail_queue.status job = "pending").
Proof.
  apply (set_order_status_effect sample.service "a0" (Some paid) sample.ordered).
  apply surjective_pairing.
Defined.

(** ** [place_order], when it succeeds *)

(** The line and the total after one turn of the loop. *)
Lemma place_order_item_effect s oid k it d d' o :
  place_order_item s oid k it d = (d', inr tt) →
  orders d !! oid = Some o →
  ∃ oi, placed_line s d oid k it = Some oi ∧
    order_items d' = order_items d ++ [oi] ∧
    orders d' = <[oid := trg_orders_updated s
                           (orders.with_total_cents o (order_total d oid + line_total oi))]>
                  (orders d).
Proof.
  intros H Ho.
  apply place_order_item_inr in H
    as (pid & q & p & Hpid & Hqty & _ & Hp & _ & _ & _ & _ & H).
  apply update_orders_total_inr in H. simpl in H. rewrite Ho in H.
  destruct H as (total & Htotal & _ & ->).
  eexists. split; [|split; [done|]].
  - unfold placed_line, price_of. by rewrite Hpid, Hqty, Hp.
  - simpl. do 2 f_equal. f_equal.
    apply compute_order_total_inr in Htotal. rewrite Htotal.
    unfold order_total. simpl. rewrite filter_app, (filter_cons_True _ _ []).
    2:{ unfold of_order. simpl. by rewrite bool_decide_eq_true_2. }
    rewrite filter_nil. unfold sum_line_totals. rewrite foldr_app. simpl.
    generalize (filter (λ oi, of_order oid oi = true) (order_items d)).
    intros l. induction l as [|x l IH]; simpl; lia.
Qed.

Lemma placed_line_order s d oid k it oi :
  placed_line s d oid k it = Some oi → order_items.order_id oi = oid.
Proof.
  unfold placed_line. destruct (item.product_id it), (item.quantity it); try done.
  destruct (price_of d a); simpl; [|done]. by intros [= <-].
Qed.

Lemma sum_line_totals_app l1 l2 :
  sum_line_totals (l1 ++ l2) = sum_line_totals l1 + sum_line_totals l2.
Proof.
  unfold sum_line_totals. rewrite foldr_app.
  induction l1 as [|x l1 IH]; simpl; lia.
Qed.

Lemma order_total_line_appended d d1 oid oi :
  order_items d1 = order_items d ++ [oi] → order_items.order_id oi = oid →
  order_total d1 oid = order_total d oid + line_total oi.
Proof.
  intros Hitems Hoi. unfold order_total. rewrite Hitems, filter_app.
  rewrite (filter_cons_True _ _ []) by (unfold of_order; by rewrite bool_decide_eq_true_2).
  rewrite filter_nil, sum_line_totals_app. simpl. lia.
Qed.

Lemma place_order_loop_effect s oid items : ∀ k d d' o,
  place_order_loop s oid k items d = (d', inr tt) →
  orders d !! oid = Some o → orders.updated_at o = now s →
  orders.total_cents o = order_total d oid →
  let lines := placed_lines s d oid k items in
  length lines = length items ∧
  order_items d' = order_items d ++ lines ∧
  orders d' = <[oid := orders.with_total_cents o (order_total d oid + sum_line_totals lines)]>
                (orders d).
Proof.
  induction items as [|it items IH]; intros k d d' o H Ho Hnow Htotal; simpl in *.
  - unfold_M. simplify_eq. rewrite app_nil_r, Z.add_0_r, <- Htotal.
    split; [done|]. split; [done|]. symmetry. apply insert_id.
    rewrite Ho. by destruct o.
  - apply bind_inr in H as ([] & d1 & Hit & H).
    pose proof (place_order_item_lines _ _ _ _ _ _ Hit) as [Hprice _].
    destruct (place_order_item_effect _ _ _ _ _ _ _ Hit Ho) as (oi & Hline & Hitems1 & Horders1).
    pose proof (placed_line_order _ _ _ _ _ _ Hline) as Hoi.
    rewrite Hline. simpl.
    set (o1 := trg_orders_updated s
                 (orders.with_total_cents o (order_total d oid + line_total oi))) in *.
    assert (orders d1 !! oid = Some o1) as Ho1 by (by rewrite Horders1, lookup_insert_eq).
    destruct (IH (S k) d1 d' o1 H Ho1) as (Hlen & Hitems & Horders); [done|..].
    { simpl. symmetry. by apply order_total_line_appended. }
    rewrite (placed_lines_ext s d1 d) in Hlen, Hitems, Horders by done.
    split; [by rewrite Hlen|]. split; [by rewrite Hitems, Hitems1, <- app_assoc|].
    rewrite Horders, Horders1, insert_insert_eq. f_equal.
    rewrite (order_total_line_appended d d1 oid oi) by done.
    unfold o1, trg_orders_updated, orders.with_total_cents, orders.with_updated_at.
    simpl. rewrite <- Hnow. f_equal.
    unfold sum_line_totals. simpl. fold (sum_line_totals (placed_lines s d oid (S k) items)).
    lia.
Qed.

(** X4.  A call of [place_order] that succeeds returns the first uuid it
    drew, which was no order before.  It has added one line per item, in
    the order of the array, each with the quantity asked and the price the
    product had when the call began, and one pending order of the caller's
    customer whose total is the sum of quantity times price over these
    lines. *)
Theorem place_order_result s items d d' oid :
  place_order s items d = (d', inr oid) → items_have_orders d →
  oid = gen_random_uuid s 0 ∧ orders d !! oid = None ∧
  ∃ c row, customers d !! c = Some row ∧ customers.user_id row = auth_uid s ∧
    let lines := placed_lines s d oid 1 (elements_of items) in
    length lines = length (elements_of items) ∧
    order_items d' = order_items d ++ lines ∧
    orders d' = <[oid := orders.mk c pending (sum_line_totals lines) (now s) (now s)]>
                  (orders d).
Proof.
  intros H Hfk.
  apply place_order_inr in H as (u & c & d0 & Hu & Hc & Ho & _ & Hloop).
  apply select_customer_id_Some in Hc as (_ & row & Hrow & Huser).
  apply insert_orders_inr in Ho as (-> & Hfresh & _ & ->).
  split; [done|]. split; [done|]. exists c, row. split; [done|]. split; [congruence|].
  assert (order_total d (gen_random_uuid s 0) = 0) as Hzero.
  { apply compute_order_total_no_items. intros oi Hin Hoi.
    destruct (Hfk oi Hin) as [o Ho]. congruence. }
  eapply place_order_loop_effect in Hloop;
    [|simpl; apply lookup_insert_eq|done|done].
  simpl in Hloop. destruct Hloop as (Hlen & Hitems & Horders).
  rewrite (placed_lines_ext s _ d) in Hlen, Hitems, Horders by done.
  split; [done|]. split; [done|].
  rewrite Horders, insert_insert_eq. unfold order_total. simpl.
  fold (order_total d (gen_random_uuid s 0)). by rewrite Hzero.
Qed.

(** Ana's order of two pens and a notebook. *)
Lemma place_order_result_witness :
  "a0" = gen_random_uuid sample.ana 0 ∧ orders sample.shop !! "a0" = None ∧
  ∃ c row, customers sample.shop !! c = Some row ∧
    customers.user_id row = auth_uid sample.ana ∧
    let lines := placed_lines sample.ana sample.shop "a0" 1
                   [sample.line "caneta" 2; sample.line "caderno" 1] in
    length lines = 2%nat ∧
    order_items sample.ordered = order_items sample.shop ++ lines ∧
    orders sample.ordered
      = <["a0" := orders.mk c pending (sum_line_totals lines) 100 100]> (orders sample.shop).
Proof.
  apply (place_order_result sample.ana
           (jsonb_array [sample.line "caneta" 2; sample.line "caderno" 1])
           sample.shop sample.ordered "a0").
  - vm_compute. reflexivity.
  - intros oi Hin. inversion Hin.
Defined.

(** X5.  For a caller with a customer record, [place_order] with an empty
    array or with NULL succeeds when the uuid drawn is free: it leaves an
    order without lines, pending and with total 0, and touches nothing
    else. *)
Theorem place_order_nothing_to_buy s items d u c :
  items = jsonb_sql_null ∨ items = jsonb_array [] →
  auth_uid s = Some u → select_customer_id u d = (d, inr (Some c)) →
  orders d !! gen_random_uuid s 0 = None →
  place_order s items d =
    (with_orders d (<[gen_random_uuid s 0 := orders.mk c pending 0 (now s) (now s)]>
                      (orders d)),
     inr (gen_random_uuid s 0)).
Proof.
  intros Hitems Hu Hc Hfresh.
  pose proof (select_customer_id_Some _ _ _ _ Hc) as (_ & row & Hrow & _).
  unfold place_order, transaction, place_order_body.
  rewrite Hu, (bind_run _ _ _ _ _ Hc).
  unfold insert_orders, jsonb_array_elements. unfold_M.
  rewrite Hfresh, Hrow. by destruct Hitems as [-> | ->].
Qed.

Lemma place_order_nothing_to_buy_witness :
  place_order sample.ana (jsonb_array []) sample.shop =
    (with_orders sample.shop
       (<["a0" := orders.mk "cust-ana" pending 0 100 100]> (orders sample.shop)),
     inr "a0").
Proof.
  apply (place_order_nothing_to_buy sample.ana (jsonb_array []) sample.shop
           "user-ana" "cust-ana"); [by right|vm_compute; reflexivity..].
Defined.

(** ** What [place_order] leaves alone *)

Lemma place_order_item_frame s oid k it d d' :
  place_order_item s oid k it d = (d', inr tt) →
  (∀ y, y ≠ oid → orders d' !! y = orders d !! y) ∧
  ∃ pid q p, item.product_id it = value pid ∧ products d !! pid = Some p ∧
    0 < q ∧ q ≤ products.stock p ∧
    products d' = <[pid := products.mk (products.sku p) (products.name p)
                     (products.description p) (products.price_cents p)
                     (products.currency p) (products.stock p - q) (products.active p)
                     (products.created_at p) (now s)]> (products d).
Proof.
  intros H.
  apply place_order_item_inr in H
    as (pid & q & p & Hpid & _ & Hq & Hp & _ & Hle & _ & _ & H).
  pose proof (unchanged_update_orders_total products s _ ltac:(by intros []) _ _ _ H) as Hprod.
  apply update_orders_total_consistent in H as (_ & _ & Hother & _).
  split; [done|]. exists pid, q, p. by rewrite Hprod.
Qed.

Lemma place_order_loop_frame s oid items : ∀ k d d',
  place_order_loop s oid k items d = (d', inr tt) →
  (∀ y, y ≠ oid → orders d' !! y = orders d !! y) ∧
  ∀ pid,
    (products d !! pid = None → products d' !! pid = None) ∧
    (∀ p, products d !! pid = Some p →
       ∃ p', products d' !! pid = Some p' ∧ same_but_stock p p' ∧
             0 ≤ products.stock p - products.stock p') ∧
    (not_named pid items → products d' !! pid = products d !! pid).
Proof.
  induction items as [|it items IH]; intros k d d' H; simpl in *.
  - unfold_M. simplify_eq. split; [done|]. intros pid. split; [done|].
    split; [|done]. intros p Hp. exists p. split; [done|]. split; [done|]. lia.
  - apply bind_inr in H as ([] & d1 & Hit & H).
    apply place_order_item_frame in Hit
      as (Horders1 & pid1 & q & p1 & Hpid1 & Hp1 & Hq & Hle & Hprod1).
    apply IH in H as (Horders & Hprod).
    split; [intros y Hy; by rewrite Horders, Horders1|].
    intros pid. destruct (Hprod pid) as (Hnone & Hsome & Hnot).
    split; [|split].
    + intros Hp. apply Hnone. rewrite Hprod1, lookup_insert_ne; [done|congruence].
    + intros p Hp. destruct (decide (pid1 = pid)) as [->|Hne].
      * simplify_eq.
        destruct (Hsome _ ltac:(rewrite Hprod1; apply lookup_insert_eq))
          as (p' & Hp' & Hsame & Hstock).
        exists p'. split; [done|]. simpl in *. split; [done|lia].
      * apply Hsome. by rewrite Hprod1, lookup_insert_ne.
    + intros Hnamed. rewrite Hnot.
      * rewrite Hprod1, lookup_insert_ne; [done|].
        intros ->. by apply (Hnamed it); [left|].
      * intros it' Hin. apply Hnamed. by right.
Qed.

(** X6.  Whatever its outcome, [place_order] leaves the customers, the
    mail queue and its sequence as they are, keeps every order and every
    line that existed, and neither adds nor removes a product; of a product
    it changes the stock, never upwards, and the update time only, and a
    product no item names stays exactly as it was. *)
Theorem place_order_frame s items d d' r :
  place_order s items d = (d', r) →
  customers d' = customers d ∧ mail_queue d' = mail_queue d ∧
  mail_queue_id_seq d' = mail_queue_id_seq d ∧
  (∀ y o, orders d !! y = Some o → orders d' !! y = Some o) ∧
  order_items d `prefix_of` order_items d' ∧
  ∀ pid,
    (products d !! pid = None → products d' !! pid = None) ∧
    (∀ p, products d !! pid = Some p →
       ∃ p', products d' !! pid = Some p' ∧ same_but_stock p p' ∧
             0 ≤ products.stock p - products.stock p') ∧
    (not_named pid (elements_of items) → products d' !! pid = products d !! pid).
Proof.
  intros H. destruct r as [e|oid].
  { unfold place_order in H.
    destruct (place_order_body s items d) as [d1 [e1|oid]] eqn:Hbody;
      [|unfold transaction in H; rewrite Hbody in H; done].
    rewrite (transaction_inl _ _ _ _ (place_order_body_seq s items) Hbody) in H.
    simplify_eq. repeat split; try done.
    intros p Hp. exists p. repeat split; try done. lia. }
  pose proof (place_order_lines _ _ _ _ _ H) as (lines & Hitems & _).
  pose proof H as H0.
  unfold place_order, transaction in H0.
  destruct (place_order_body s items d) as [d1 [e|oid']] eqn:Hbody; simplify_eq.
  pose proof (unchanged_place_order_body customers s items
                ltac:(by intros []) ltac:(by intros []) ltac:(by intros []) _ _ _ Hbody).
  pose proof (unchanged_place_order_body mail_queue s items
                ltac:(by intros []) ltac:(by intros []) ltac:(by intros []) _ _ _ Hbody).
  pose proof (place_order_body_seq s items _ _ _ Hbody).
  apply place_order_inr in H as (u & c & d0 & _ & _ & Ho & _ & Hloop).
  apply insert_orders_inr in Ho as (-> & Hfresh & _ & ->).
  apply place_order_loop_frame in Hloop as (Horders & Hprod).
  split; [done|]. split; [done|]. split; [done|]. split; [|split].
  - intros y o Hy. rewrite Horders by congruence. simpl.
    rewrite lookup_insert_ne; [done|congruence].
  - rewrite Hitems. by apply prefix_app_r.
  - apply Hprod.
Qed.

Lemma place_order_frame_witness :
  customers sample.ordered = customers sample.shop ∧
  mail_queue sample.ordered = mail_queue sample.shop ∧
  mail_queue_id_seq sample.ordered = mail_queue_id_seq sample.shop ∧
  (∀ y o, orders sample.shop !! y = Some o → orders sample.ordered !! y = Some o) ∧
  order_items sample.shop `prefix_of` order_items sample.ordered ∧
  ∀ pid,
    (products sample.shop !! pid = None → products sample.ordered !! pid = None) ∧
    (∀ p, products sample.shop !! pid = Some p →
       ∃ p', products sample.ordered !! pid = Some p' ∧ same_but_stock p p' ∧
             0 ≤ products.stock p - products.stock p') ∧
    (not_named pid [sample.line "caneta" 2; sample.line "caderno" 1] →
     products sample.ordered !! pid = products sample.shop !! pid).
Proof.
  apply (place_order_frame sample.ana
           (jsonb_array [sample.line "caneta" 2; sample.line "caderno" 1])
           sample.shop sample.ordered (inr "a0")).
  vm_compute. reflexivity.
Defined.

(** ** [compute_order_total] and its trigger *)




(** X8.  The trigger [update_order_total] is idempotent: fired a second
    time for the same row it leaves the database, and the outcome, as the
    first firing did. *)
Theorem update_order_total_idempotent s old new d :
  (update_order_total s old new ≫= λ _, update_order_total s old new) d
  = update_order_total s old new d.
Proof.
  unfold update_order_total, update_orders_total. unfold_M.
  destruct (coalesce _ _) as [oid|]; [|done].
  destruct (orders d !! oid) as [o|] eqn:Ho; [|by rewrite Ho].
  destruct (compute_order_total d oid) as [e|total] eqn:Htotal; [done|].
  simpl. case_bool_decide as Hcheck; [|done]. simpl.
  rewrite lookup_insert_eq.
  assert (compute_order_total
            (with_orders d
               (<[oid:=trg_orders_updated s (orders.with_total_cents o total)]> (orders d)))
            oid = inr total) as -> by done.
  simpl. rewrite bool_decide_eq_true_2 by done.
  by rewrite insert_insert_eq.
Qed.

(** ** The views *)

Lemma v_products_lookup d pid :
  v_products d !! pid =
    match products d !! pid with
    | Some p =>
        if products.active p
        then Some (v_products.mk (products.sku p) (products.name p)
                     (products.description p) (products.price_cents p)
                     (products.currency p) (products.stock p) (products.active p))
        else None
    | None => None
    end.
Proof.
  unfold v_products. rewrite lookup_fmap, map_lookup_filter.
  destruct (products d !! pid) as [p|]; [|done]. simpl.
  destruct (products.active p) eqn:Hp.
  - case_guard; [|done]. simpl. by rewrite Hp.
  - by case_guard.
Qed.

Lemma place_order_item_listed s oid k it d d' :
  place_order_item s oid k it d = (d', inr tt) →
  ∃ oi, order_items d' = order_items d ++ [oi] ∧ sold_as_listed d oi.
Proof.
  intros H.
  apply place_order_item_inr in H
    as (pid & q & p & _ & _ & Hq & Hp & Hactive & Hle & _ & _ & H).
  pose proof (unchanged_update_orders_total order_items s _ ltac:(by intros []) _ _ _ H)
    as Hitems.
  simpl in *. eexists. split; [done|].
  eexists. simpl. rewrite v_products_lookup, Hp, Hactive. done.
Qed.

Lemma sold_as_listed_earlier d d1 oi :
  (∀ pid p1, products d1 !! pid = Some p1 →
     ∃ p, products d !! pid = Some p ∧ same_but_stock p p1 ∧
          products.stock p1 ≤ products.stock p) →
  sold_as_listed d1 oi → sold_as_listed d oi.
Proof.
  intros Hearlier (row & Hrow & Hprice & Hq & Hle).
  rewrite v_products_lookup in Hrow.
  destruct (products d1 !! _) as [p1|] eqn:Hp1; [|done].
  destruct (products.active p1) eqn:Hactive; [|done].
  destruct (Hearlier _ _ Hp1) as (p & Hp & (_ & _ & _ & Hsame & _ & Hact & _) & Hstock).
  injection Hrow as <-. simpl in *.
  eexists. rewrite v_products_lookup, Hp, <- Hact, Hactive. simpl.
  split; [done|]. simpl. split; [congruence|]. split; [done|lia].
Qed.

Lemma place_order_loop_listed s oid items : ∀ k d d',
  place_order_loop s oid k items d = (d', inr tt) →
  ∃ lines, order_items d' = order_items d ++ lines ∧ Forall (sold_as_listed d) lines.
Proof.
  induction items as [|it items IH]; intros k d d' H; simpl in *.
  - unfold_M. simplify_eq. exists []. by rewrite app_nil_r.
  - apply bind_inr in H as ([] & d1 & Hit & H).
    pose proof (place_order_item_listed _ _ _ _ _ _ Hit) as (oi & Hitems1 & Hoi).
    apply place_order_item_frame in Hit
      as (_ & pid1 & q & p1 & _ & Hp1 & Hq & Hle & Hprod1).
    apply IH in H as (lines & Hitems & Hlines).
    exists (oi :: lines). split; [by rewrite Hitems, Hitems1, <- app_assoc|].
    constructor; [done|].
    eapply Forall_impl; [done|]. intros oi'. apply sold_as_listed_earlier.
    intros pid p Hp. rewrite Hprod1 in Hp.
    destruct (decide (pid1 = pid)) as [<-|Hne].
    + rewrite lookup_insert_eq in Hp. injection Hp as <-.
      exists p1. split; [done|]. simpl. split; [done|lia].
    + rewrite lookup_insert_ne in Hp by done.
      exists p. split; [done|]. split; [done|lia].
Qed.

(** X9.  The lines a call of [place_order] adds are all for products the
    catalog view [v_products] listed when the call began, each at the
    listed price and for no more than the listed stock; and the call
    neither adds a product to the view nor removes one: of a listed
    product only the stock changes, and never upwards. *)
Theorem place_order_sells_listed_products s items d d' oid :
  place_order s items d = (d', inr oid) →
  (∃ lines, order_items d' = order_items d ++ lines ∧ Forall (sold_as_listed d) lines) ∧
  ∀ pid,
    match v_products d !! pid with
    | None => v_products d' !! pid = None
    | Some row =>
        ∃ stock', stock' ≤ v_products.stock row ∧
          v_products d' !! pid =
            Some (v_products.mk (v_products.sku row) (v_products.name row)
                    (v_products.description row) (v_products.price_cents row)
                    (v_products.currency row) stock' (v_products.active row))
    end.
Proof.
  intros H.
  apply place_order_inr in H as (u & c & d0 & _ & _ & Ho & _ & Hloop).
  apply insert_orders_inr in Ho as (-> & _ & _ & ->).
  split.
  - by apply place_order_loop_listed in Hloop.
  - apply place_order_loop_frame in Hloop as (_ & Hprod).
    intros pid. destruct (Hprod pid) as (Hnone & Hsome & _). simpl in *.
    rewrite !v_products_lookup.
    destruct (products d !! pid) as [p|]; [|by rewrite Hnone].
    destruct (Hsome p eq_refl)
      as (p' & -> & (Hsku & Hname & Hdesc & Hprice & Hcur & Hact & _) & Hstock).
    rewrite Hact. destruct (products.active p); [|done].
    exists (products.stock p'). simpl. split; [lia|]. congruence.
Qed.

(** Ana's order of two pens and a notebook. *)
Lemma place_order_sells_listed_products_witness :
  (∃ lines, order_items sample.ordered = order_items sample.shop ++ lines ∧
            Forall (sold_as_listed sample.shop) lines) ∧
  ∀ pid,
    match v_products sample.shop !! pid with
    | None => v_products sample.ordered !! pid = None
    | Some row =>
        ∃ stock', stock' ≤ v_products.stock row ∧
          v_products sample.ordered !! pid =
            Some (v_products.mk (v_products.sku row) (v_products.name row)
                    (v_products.description row) (v_products.price_cents row)
                    (v_products.currency row) stock' (v_products.active row))
    end.
Proof.
  apply (place_order_sells_listed_products sample.ana
           (jsonb_array [sample.line "caneta" 2; sample.line "caderno" 1])
           sample.shop sample.ordered "a0").
  vm_compute. reflexivity.
Defined.

Lemma owner_condition s d o :
  match customers d !! orders.customer_id o with
  | Some c => sql_true (sql_eq (customers.user_id c) (auth_uid s))
  | None => false
  end = caller_owns s d o.
Proof.
  unfold caller_owns, is_owner.
  destruct (customers d !! orders.customer_id o) as [c|]; [|by destruct (auth_uid s)].
  destruct (customers.user_id c) as [u'|], (auth_uid s) as [u|]; simpl; try done.
  all: repeat case_bool_decide; congruence.
Qed.

Lemma v_my_orders_lookup s d oid o :
  v_my_orders s d !! oid = Some o ↔ orders d !! oid = Some o ∧ caller_owns s d o = true.
Proof.
  unfold v_my_orders. rewrite map_lookup_filter_Some. simpl.
  rewrite owner_condition. tauto.
Qed.

Lemma place_order_loop_keeps_order s oid items : ∀ k d d' o,
  place_order_loop s oid k items d = (d', inr tt) →
  orders d !! oid = Some o →
  ∃ o', orders d' !! oid = Some o' ∧ same_but_total o o'.
Proof.
  induction items as [|it items IH]; intros k d d' o H Ho; simpl in *.
  - unfold_M. simplify_eq. by exists o.
  - apply bind_inr in H as ([] & d1 & Hit & H).
    destruct (place_order_item_effect _ _ _ _ _ _ _ Hit Ho) as (oi & _ & _ & Horders1).
    eapply IH in H as (o' & Ho' & Hsame); [|by rewrite Horders1, lookup_insert_eq].
    exists o'. split; [done|]. destruct Hsame as (? & ? & ?). by repeat split.
Qed.

(** X10.  The order a call of [place_order] returns is new to the
    caller's view [v_my_orders] and shows there afterwards, as pending; the
    orders the view showed before stay, and the view of a session of
    another user does not show the new order. *)
Theorem place_order_shows_in_v_my_orders s items d d' oid :
  place_order s items d = (d', inr oid) →
  v_my_orders s d !! oid = None ∧
  (∃ o, v_my_orders s d' !! oid = Some o ∧ orders.status o = pending) ∧
  (∀ y o, v_my_orders s d !! y = Some o → v_my_orders s d' !! y = Some o) ∧
  (∀ s2, auth_uid s2 ≠ auth_uid s → v_my_orders s2 d' !! oid = None).
Proof.
  intros H.
  pose proof H as H0. unfold place_order, transaction in H0.
  destruct (place_order_body s items d) as [d1 [e|oid']] eqn:Hbody; simplify_eq.
  pose proof (unchanged_place_order_body customers s items
                ltac:(by intros []) ltac:(by intros []) ltac:(by intros []) _ _ _ Hbody)
    as Hcust.
  apply place_order_inr in H as (u & c & d0 & Hu & Hc & Ho & _ & Hloop).
  apply select_customer_id_Some in Hc as (_ & row & Hrow & Huser).
  apply insert_orders_inr in Ho as (-> & Hfresh & _ & ->).
  pose proof (place_order_loop_frame _ _ _ _ _ _ Hloop) as (Hother & _).
  eapply place_order_loop_keeps_order in Hloop as (o' & Ho' & Hcid & Hst & _);
    [|simpl; apply lookup_insert_eq].
  simpl in *.
  split; [|split; [|split]].
  - apply eq_None_not_Some. intros [o Ho]. apply v_my_orders_lookup in Ho as [Ho _].
    congruence.
  - exists o'. split; [|done]. apply v_my_orders_lookup. split; [done|].
    rewrite <- owner_condition, Hcust, Hcid, Hrow, Huser, Hu. simpl.
    by rewrite bool_decide_eq_true_2.
  - intros y o [Hy Hown]%v_my_orders_lookup. apply v_my_orders_lookup.
    assert (y ≠ gen_random_uuid s 0) as Hne by congruence.
    rewrite Hother, lookup_insert_ne by done. split; [done|].
    rewrite <- owner_condition in *. by rewrite Hcust.
  - intros s2 Hs2. apply eq_None_not_Some. intros [o Ho].
    apply v_my_orders_lookup in Ho as [Ho Hown].
    rewrite Ho' in Ho. injection Ho as <-.
    rewrite <- owner_condition, Hcust, Hcid, Hrow, Huser in Hown.
    destruct (auth_uid s2) as [u2|]; [|done]. simpl in Hown.
    case_bool_decide; [congruence|done].
Qed.

Lemma place_order_shows_in_v_my_orders_witness :
  v_my_orders sample.ana sample.shop !! "a0" = None ∧
  (∃ o, v_my_orders sample.ana sample.ordered !! "a0" = Some o ∧ orders.status o = pending) ∧
  (∀ y o, v_my_orders sample.ana sample.shop !! y = Some o →
          v_my_orders sample.ana sample.ordered !! y = Some o) ∧
  (∀ s2, auth_uid s2 ≠ auth_uid sample.ana → v_my_orders s2 sample.ordered !! "a0" = None).
Proof.
  apply (place_order_shows_in_v_my_orders sample.ana
           (jsonb_array [sample.line "caneta" 2; sample.line "caderno" 1])
           sample.shop sample.ordered "a0").
  vm_compute. reflexivity.
Defined.

(** ** Row level security *)

Lemma visible_customers_lookup uid d c :
  visible_customers uid d !! c =
    match customers d !! c with
    | Some row => if customers_select_own uid row then Some row else None
    | None => None
    end.
Proof.
  unfold visible_customers. rewrite map_lookup_filter.
  destruct (customers d !! c) as [row|]; [|done]. simpl.
  destruct (customers_select_own uid row) eqn:Hrow; by case_guard.
Qed.

Lemma orders_select_own_owner s d o :
  orders_select_own (auth_uid s) d o = caller_owns s d o.
Proof.
  unfold orders_select_own. rewrite visible_customers_lookup, <- owner_condition.
  destruct (customers d !! orders.customer_id o) as [row|]; [|done].
  unfold customers_select_own. by destruct (sql_true _) eqn:Hrow.
Qed.

Lemma visible_orders_lookup uid d oid :
  visible_orders uid d !! oid =
    match orders d !! oid with
    | Some o => if orders_select_own uid d o then Some o else None
    | None => None
    end.
Proof.
  unfold visible_orders. rewrite map_lookup_filter.
  destruct (orders d !! oid) as [o|]; [|done]. simpl.
  destruct (orders_select_own uid d o) eqn:Ho; by case_guard.
Qed.

Lemma order_items_select_own_order uid d oi :
  order_items_select_own uid d oi =
    match orders d !! order_items.order_id oi with
    | Some o => orders_select_own uid d o
    | None => false
    end.
Proof.
  unfold order_items_select_own. rewrite visible_orders_lookup.
  destruct (orders d !! order_items.order_id oi) as [o|]; [|done].
  destruct (orders_select_own uid d o) eqn:Ho; done.
Qed.

(** X11.  The policy [orders_select_own] shows a caller the same rows of
    [orders] as the view [v_my_orders]: the orders whose customer record
    carries the caller's user id, which is also the condition under which
    [set_order_status] treats the caller as owner. *)
Theorem orders_select_own_is_v_my_orders s d :
  visible_orders (auth_uid s) d = v_my_orders s d ∧
  ∀ oid o, v_my_orders s d !! oid = Some o ↔
           orders d !! oid = Some o ∧ caller_owns s d o = true.
Proof.
  split; [|intros; apply v_my_orders_lookup].
  apply map_eq. intros oid. rewrite visible_orders_lookup.
  destruct (orders d !! oid) as [o|] eqn:Ho.
  - rewrite orders_select_own_owner.
    destruct (caller_owns s d o) eqn:Hown.
    + symmetry. by apply v_my_orders_lookup.
    + symmetry. apply eq_None_not_Some. intros [o' [Ho' Hown']%v_my_orders_lookup].
      congruence.
  - symmetry. apply eq_None_not_Some. intros [o' [Ho' _]%v_my_orders_lookup].
    congruence.
Qed.

(** X12.  The policy of [order_items] follows the one of [orders]: a line
    is shown exactly when its order is shown to the same caller.  A caller
    without user id is shown no customer, no order and no line. *)
Theorem order_items_follow_their_order uid d oi :
  (order_items_select_own uid d oi = true ↔
   is_Some (visible_orders uid d !! order_items.order_id oi)) ∧
  visible_customers None d = ∅ ∧ visible_orders None d = ∅ ∧
  order_items_select_own None d oi = false.
Proof.
  assert (∀ o, orders_select_own None d o = false) as Hanon.
  { intros o. unfold orders_select_own. rewrite visible_customers_lookup.
    destruct (customers d !! _) as [row|]; [|done].
    unfold customers_select_own. by destruct (customers.user_id row). }
  split; [|split; [|split]].
  - rewrite order_items_select_own_order, visible_orders_lookup.
    destruct (orders d !! _) as [o|]; [|split; [done|by intros []]].
    destruct (orders_select_own uid d o); split; try done; by intros [].
  - apply map_eq. intros c. rewrite visible_customers_lookup, lookup_empty.
    destruct (customers d !! c) as [row|]; [|done].
    unfold customers_select_own. by destruct (customers.user_id row).
  - apply map_eq. intros oid. rewrite visible_orders_lookup, lookup_empty.
    destruct (orders d !! oid) as [o|]; [|done]. by rewrite Hanon.
  - rewrite order_items_select_own_order. destruct (orders d !! _); [apply Hanon|done].
Qed.

(** ** Statements on [order_items] from outside the RPC functions *)

(** X13.  The stored totals stay equal to what [compute_order_total]
    returns, and every line keeps an order, along any sequence of calls of
    the two RPC functions and of insertions, deletions and updates of
    lines issued with the service role or by the owner of the tables, to
    whom row level security does not apply, as long as no update moves a
    line to another order. *)
Theorem line_writes_keep_totals d d' :
  totals_consistent d → items_have_orders d →
  rtc (λ a b, public_step a b ∨ line_write a b) d d' →
  totals_consistent d' ∧ items_have_orders d'.
Proof.
  intros Htot Hfk Hsteps. revert d' Hsteps. apply rtc_ind_r; [done|].
  intros d1 d2 _ [Hstep|Hstep] [Htot1 Hfk1].
  - destruct Hstep; [by eapply place_order_totals|by eapply set_order_status_totals].
  - destruct Hstep as [s id oid pid q price _ H|s id _ H|s id a _ Ha H].
    + by eapply insert_order_items_totals.
    + by eapply delete_order_items_totals.
    + by eapply update_order_items_totals.
Qed.

(** Ana orders, then the service raises the quantity of her first line
    to 3. *)
Lemma line_writes_keep_totals_witness :
  totals_consistent
    (sample.after (update_order_items sample.service "a1" (mk_set None (Some 3) None))
       sample.ordered) ∧
  items_have_orders
    (sample.after (update_order_items sample.service "a1" (mk_set None (Some 3) None))
       sample.ordered).
Proof.
  apply (line_writes_keep_totals sample.shop).
  - intros oid o Ho. unfold sample.shop in Ho. simpl in Ho. by rewrite lookup_empty in Ho.
  - intros oi Hin. inversion Hin.
  - apply (rtc_l _ _ sample.ordered).
    + left.
      exact (step_place_order sample.shop sample.ordered sample.ana
               (jsonb_array [sample.line "caneta" 2; sample.line "caderno" 1]) _
               (surjective_pairing _)).
    + apply rtc_once. right.
      apply (write_update _ _ sample.service "a1" (mk_set None (Some 3) None));
        [reflexivity|reflexivity|vm_compute; reflexivity].
Defined.

(** ** The queue worker, run after run *)

Lemma filter_ext_in {A} (P Q : A → Prop) `{!∀ x, Decision (P x), !∀ x, Decision (Q x)}
    (l : list A) :
  (∀ x, x ∈ l → P x ↔ Q x) → filter P l = filter Q l.
Proof.
  induction l as [|a l IH]; intros Hext; [done|].
  rewrite !filter_cons, IH by (intros x Hx; apply Hext; by right).
  destruct (decide (P a)) as [HP|HP], (decide (Q a)) as [HQ|HQ]; try done.
  - destruct HQ. by apply (Hext a); [left|].
  - destruct HP. by apply (Hext a); [left|].
Qed.

Lemma filter_all {A} (P : A → Prop) `{!∀ x, Decision (P x)} (l : list A) :
  (∀ x, x ∈ l → P x) → filter P l = l.
Proof.
  induction l as [|a l IH]; intros Hall; [done|].
  rewrite filter_cons_True by (apply Hall; by left).
  rewrite IH; [done|]. intros x Hx. apply Hall. by right.
Qed.

(** Of a list without two elements of the same key, the elements whose
    key is not among the first [n] are the elements after the first [n]. *)
Lemma filter_not_taken {A B} `{EqDecision B} (f : A → B) (l : list A) : ∀ n,
  NoDup (f <$> l) → filter (λ x, f x ∉ f <$> take n l) l = drop n l.
Proof.
  induction l as [|x l IH]; intros n Hdup; [by destruct n|].
  destruct n as [|n]; simpl.
  { apply (filter_all _ (x :: l)). intros y _. apply not_elem_of_nil. }
  rewrite fmap_cons, NoDup_cons in Hdup. destruct Hdup as [Hx Hdup].
  rewrite filter_cons_False by (intros Hn; apply Hn; left).
  rewrite <- (IH n Hdup). apply filter_ext_in. intros y Hy.
  rewrite not_elem_of_cons. split; [tauto|]. intros Hn. split; [|done].
  intros Heq. apply Hx. rewrite <- Heq. apply list_elem_of_fmap. eauto.
Qed.

Lemma outcome_not_pending e row : outcome e row ≠ "pending".
Proof. unfold outcome. by destruct (worker.sendEmail _ _ _ _). Qed.

Lemma pending_jobs_update id st t queue :
  st ≠ "pending" →
  pending_jobs (worker.update_mail_queue id st t queue)
  = filter (λ r, mail_queue.id r ≠ id) (pending_jobs queue).
Proof.
  intros Hst. unfold pending_jobs, worker.update_mail_queue.
  induction queue as [|r queue IH]; [done|].
  rewrite fmap_cons, !filter_cons, IH.
  case_bool_decide as Hid.
  - rewrite decide_False.
    2:{ unfold worker.is_pending. simpl. by rewrite bool_decide_eq_false_2. }
    destruct (decide (worker.is_pending r = true)); [|done].
    by rewrite filter_cons_False by (by intros ?).
  - destruct (decide (worker.is_pending r = true)); [|done].
    by rewrite filter_cons_True.
Qed.

Lemma pending_jobs_process_rows e rows : ∀ n queue,
  pending_jobs (worker.process_rows e n rows queue)
  = filter (λ r, mail_queue.id r ∉ mail_queue.id <$> rows) (pending_jobs queue).
Proof.
  induction rows as [|row rows IH]; intros n queue; simpl.
  - symmetry. apply filter_all. intros r _. apply not_elem_of_nil.
  - rewrite IH, process_row_outcome, pending_jobs_update by apply outcome_not_pending.
    rewrite list_filter_filter. apply list_filter_iff. intros r.
    rewrite not_elem_of_cons. tauto.
Qed.

Lemma handler_frame e d :
  let d' := (worker.handler e d).1 in
  mail_queue.id <$> mail_queue d' = mail_queue.id <$> mail_queue d ∧
  customers d' = customers d ∧ products d' = products d ∧ orders d' = orders d ∧
  order_items d' = order_items d ∧ mail_queue_id_seq d' = mail_queue_id_seq d.
Proof.
  unfold worker.handler. destruct (worker.select_error e); [done|].
  destruct (worker.select_pending _) eqn:Hrows; [done|]. simpl.
  by rewrite process_rows_ids, process_row_outcome, update_mail_queue_ids.
Qed.

Lemma handler_pending e d :
  worker.select_error e = None → NoDup (mail_queue.id <$> mail_queue d) →
  pending_jobs (mail_queue (worker.handler e d).1) = drop 10 (pending_jobs (mail_queue d)).
Proof.
  intros Hselect Hdup. unfold worker.handler. rewrite Hselect.
  unfold worker.select_pending. fold (pending_jobs (mail_queue d)).
  destruct (take 10 (pending_jobs (mail_queue d))) as [|row rows] eqn:Hrows.
  - simpl. by destruct (pending_jobs (mail_queue d)).
  - cbn [fst mail_queue with_mail_queue].
    rewrite pending_jobs_process_rows, <- Hrows.
    apply filter_not_taken. eapply sublist_NoDup; [done|].
    apply fmap_sublist, sublist_filter.
Qed.

(** X14.  Each invocation of the worker whose [select] succeeds takes the
    first ten pending jobs off the pending ones and leaves the others
    pending, in their order: after [n] invocations the pending jobs are
    those after the first [10 * n].  The invocations change no id of the
    queue and nothing outside it. *)
Theorem worker_runs_drain_queue es d :
  Forall (λ e, worker.select_error e = None) es →
  NoDup (mail_queue.id <$> mail_queue d) →
  let d' := invocations es d in
  pending_jobs (mail_queue d') = drop (10 * length es) (pending_jobs (mail_queue d)) ∧
  mail_queue.id <$> mail_queue d' = mail_queue.id <$> mail_queue d ∧
  customers d' = customers d ∧ products d' = products d ∧ orders d' = orders d ∧
  order_items d' = order_items d ∧ mail_queue_id_seq d' = mail_queue_id_seq d.
Proof.
  intros Hes. revert d. induction Hes as [|e es He Hes IH]; intros d Hdup; [done|].
  pose proof (handler_frame e d) as (Hids & Hc & Hp & Ho & Hi & Hs).
  destruct (IH (worker.handler e d).1) as (Hpend & Hids' & Hc' & Hp' & Ho' & Hi' & Hs');
    [by rewrite Hids|].
  simpl invocations. cbv zeta.
  rewrite Hpend, Hids', Hc', Hp', Ho', Hi', Hs', handler_pending by done.
  rewrite drop_drop. repeat split; try done. f_equal. simpl length. lia.
Qed.

(** Two invocations on the backlog of three jobs. *)
Lemma worker_runs_drain_queue_witness :
  let d' := invocations [sample_worker.env; sample_worker.env] sample_worker.backlog in
  pending_jobs (mail_queue d')
    = drop (10 * 2) (pending_jobs (mail_queue sample_worker.backlog)) ∧
  mail_queue.id <$> mail_queue d' = mail_queue.id <$> mail_queue sample_worker.backlog ∧
  customers d' = customers sample_worker.backlog ∧
  products d' = products sample_worker.backlog ∧
  orders d' = orders sample_worker.backlog ∧
  order_items d' = order_items sample_worker.backlog ∧
  mail_queue_id_seq d' = mail_queue_id_seq sample_worker.backlog.
Proof.
  apply (worker_runs_drain_queue [sample_worker.env; sample_worker.env]
           sample_worker.backlog).
  - repeat constructor.
  - apply (bool_decide_unpack _). vm_compute. exact I.
Defined.

Lemma same_job_trans r1 r2 r3 : same_job r1 r2 → same_job r2 r3 → same_job r1 r3.
Proof. unfold same_job. intros (? & ? & ? & ? & ?) (? & ? & ? & ? & ?). repeat split; congruence. Qed.

Lemma sendEmail_no_key e to subject html :
  RESEND_API_KEY_unset e →
  worker.sendEmail e to subject html = true.
Proof. unfold RESEND_API_KEY_unset, worker.sendEmail. by intros [-> | ->]. Qed.

Lemma process_rows_no_key e rows : ∀ n queue r',
  RESEND_API_KEY_unset e →
  r' ∈ worker.process_rows e n rows queue →
  ∃ r, r ∈ queue ∧ same_job r r' ∧ (r' = r ∨ mail_queue.status r' = "sent").
Proof.
  induction rows as [|row rows IH]; intros n queue r' Hkey Hin; simpl in *.
  - exists r'. split; [done|]. split; [done|by left].
  - apply IH in Hin as (r1 & Hr1 & Hsame1 & Hst); [|done].
    unfold worker.process_row in Hr1. rewrite sendEmail_no_key in Hr1 by done.
    apply list_elem_of_fmap in Hr1 as (r & -> & Hr).
    exists r. split; [done|]. case_bool_decide.
    + split; [by eapply same_job_trans|]. right.
      destruct Hst as [->|?]; done.
    + done.
Qed.

(** X15.  Without [RESEND_API_KEY], unset or empty, an invocation of the
    worker does not depend on the mail API and marks no job as error:
    each row of the queue afterwards is a row from before, untouched or
    with status sent. *)
Theorem worker_without_key_marks_sent e d :
  RESEND_API_KEY_unset e →
  (∀ fetch, worker.handler
              (worker.mk_env (worker.RESEND_API_KEY e) fetch (worker.select_error e)
                 (worker.clock e)) d
            = worker.handler e d) ∧
  ∀ r', r' ∈ mail_queue (worker.handler e d).1 →
    ∃ r, r ∈ mail_queue d ∧ same_job r r' ∧ (r' = r ∨ mail_queue.status r' = "sent").
Proof.
  intros Hkey. split.
  - intros fetch. unfold worker.handler. simpl.
    destruct (worker.select_error e); [done|].
    destruct (worker.select_pending _) as [|row rows]; [done|].
    do 2 f_equal. generalize (row :: rows) (mail_queue d) 0%nat.
    intros l. induction l as [|x l IH]; intros queue n; [done|].
    simpl. rewrite IH. f_equal. unfold worker.process_row.
    rewrite !sendEmail_no_key; [done|done|].
    exact Hkey.
  - unfold worker.handler. destruct (worker.select_error e).
    { intros r' Hr'. exists r'. split; [done|]. split; [done|by left]. }
    destruct (worker.select_pending _) as [|row rows].
    { intros r' Hr'. exists r'. split; [done|]. split; [done|by left]. }
    intros r' Hr'. cbn [fst mail_queue with_mail_queue] in Hr'.
    by eapply process_rows_no_key.
Qed.

(** The backlog of three jobs, worked off without a key. *)
Lemma worker_without_key_marks_sent_witness :
  (∀ fetch, worker.handler
              (worker.mk_env None fetch None (λ n, 1000 + Z.of_nat n))
              sample_worker.backlog
            = worker.handler sample_queue.no_key sample_worker.backlog) ∧
  ∀ r', r' ∈ mail_queue (worker.handler sample_queue.no_key sample_worker.backlog).1 →
    ∃ r, r ∈ mail_queue sample_worker.backlog ∧ same_job r r' ∧
         (r' = r ∨ mail_queue.status r' = "sent").
Proof.
  apply (worker_without_key_marks_sent sample_queue.no_key sample_worker.backlog).
  by left.
Defined.

(** ** The ids of the queue *)

Lemma place_order_queue s items d d' r :
  place_order s items d = (d', r) →
  mail_queue d' = mail_queue d ∧ mail_queue_id_seq d' = mail_queue_id_seq d.
Proof.
  unfold place_order, transaction. intros H.
  destruct (place_order_body s items d) as [d1 [e|oid]] eqn:Hbody; simplify_eq.
  - split; [done|]. simpl. by eapply place_order_body_seq.
  - split; [|by eapply place_order_body_seq].
    by eapply (unchanged_place_order_body mail_queue s items
                 ltac:(by intros []) ltac:(by intros []) ltac:(by intros [])).
Qed.

(** A call of [set_order_status] appends at most one job, which takes
    the next value of the sequence; the sequence never goes back. *)
Lemma set_order_status_queue s oid next d d' r :
  set_order_status s oid next d = (d', r) →
  (mail_queue d' = mail_queue d ∧ mail_queue_id_seq d ≤ mail_queue_id_seq d') ∨
  (∃ job, mail_queue d' = mail_queue d ++ [job] ∧
          mail_queue.id job = mail_queue_id_seq d ∧
          mail_queue_id_seq d' = mail_queue_id_seq d + 1).
Proof.
  unfold set_order_status, transaction. intros H.
  destruct (set_order_status_body s oid next d) as [d1 [e1|[]]] eqn:Hbody; simplify_eq.
  all: unfold set_order_status_body, update_orders_status, enqueue_order_confirmation,
         insert_mail_queue in Hbody.
  all: unfold_M.
  all: destruct (orders d !! oid) as [o|] eqn:Ho;
         [|simplify_eq; try (simpl; left; split; [done|lia])].
  all: simpl in Hbody.
  all: repeat case_match; simplify_eq; simpl.
  all: try (left; split; [done|lia]).
  all: right; eexists; by repeat split.
Qed.

Lemma queue_ids_fresh_step d d' :
  queue_ids_fresh d → system_step d d' → queue_ids_fresh d'.
Proof.
  intros [Hdup Hlt] [[s items r H|s oid next r H]|e <-].
  - apply place_order_queue in H as [Hq Hs]. unfold queue_ids_fresh.
    by rewrite Hq, Hs.
  - apply set_order_status_queue in H as [[Hq Hs]|(job & Hq & Hid & Hs)];
      unfold queue_ids_fresh; rewrite Hq.
    + split; [done|]. intros r0 Hr0. specialize (Hlt r0 Hr0). lia.
    + split.
      * rewrite fmap_app. apply NoDup_app. split; [done|]. split; [|apply NoDup_singleton].
        intros x (r0 & -> & Hr0)%list_elem_of_fmap [Heq|Hnil]%elem_of_cons.
        -- specialize (Hlt r0 Hr0). lia.
        -- by apply elem_of_nil in Hnil.
      * intros r0 [Hr0|Hr0%list_elem_of_singleton]%elem_of_app.
        -- specialize (Hlt r0 Hr0). lia.
        -- subst r0. lia.
  - destruct (handler_frame e d) as (Hids & _ & _ & _ & _ & Hs).
    unfold queue_ids_fresh. rewrite Hids, Hs. split; [done|].
    intros r' Hr'.
    assert (mail_queue.id r' ∈ mail_queue.id <$> mail_queue d) as Hin.
    { rewrite <- Hids. apply list_elem_of_fmap. eauto. }
    apply list_elem_of_fmap in Hin as (r0 & -> & Hr0). by apply Hlt.
Qed.

(** X16.  The ids of the jobs stay distinct, and below the next value of
    the identity sequence, along every sequence of calls of the RPC
    functions, whatever their outcome, and of invocations of the worker. *)
Theorem queue_ids_stay_fresh d d' :
  queue_ids_fresh d → rtc system_step d d' → queue_ids_fresh d'.
Proof.
  intros Hfresh Hsteps. revert d' Hsteps. apply rtc_ind_r; [done|].
  intros d1 d2 _ Hstep Hfresh1. by eapply queue_ids_fresh_step.
Qed.

(** Ana orders, the service marks the order paid, the worker runs. *)
Lemma queue_ids_stay_fresh_witness :
  queue_ids_fresh (worker.handler sample_worker.env sample.paid_for).1.
Proof.
  apply (queue_ids_stay_fresh sample.shop).
  - split; [apply NoDup_nil_2|]. intros r Hr. inversion Hr.
  - apply (rtc_l _ _ sample.ordered).
    { left.
      exact (step_place_order sample.shop sample.ordered sample.ana
               (jsonb_array [sample.line "caneta" 2; sample.line "caderno" 1]) _
               (surjective_pairing _)). }
    apply (rtc_l _ _ sample.paid_for).
    { left.
      exact (step_set_order_status sample.ordered sample.paid_for sample.service
               "a0" (Some paid) _ (surjective_pairing _)). }
    apply rtc_once. by right with sample_worker.env.
Defined.

(** ** From payment to mail *)

Lemma set_order_status_paid s oid o d d1 :
  orders d !! oid = Some o → orders.status o ≠ paid →
  set_order_status s oid (Some paid) d = (d1, inr tt) →
  ∃ c, customers d !! orders.customer_id o = Some c ∧
       mail_queue d1 = mail_queue d ++ [confirmation_job s d oid c].
Proof.
  intros Ho Hst H.
  destruct (customers d !! orders.customer_id o) as [c|] eqn:Hc.
  - exists c. split; [done|].
    destruct (caller_owns s d o) eqn:Hown.
    + rewrite (set_order_status_owner s oid o paid d) in H by done.
      rewrite bool_decide_eq_false_2 in H by (by intros [? _]). done.
    + rewrite (set_order_status_not_owner s oid o paid c d) in H by done.
      injection H as <-. unfold status_updated, into_paid.
      rewrite bool_decide_eq_true_2, bool_decide_eq_false_2 by done. done.
  - exfalso.
    unfold set_order_status, transaction, set_order_status_body, update_orders_status,
      enqueue_order_confirmation, insert_mail_queue, is_owner in H.
    unfold_M. rewrite Ho in H. simpl in H. rewrite Hc in H.
    repeat case_match; simplify_eq.
    all: simpl in *.
    all: match goal with H : _ <$> _ = Some _ |- _ => by rewrite Hc in H
         | |- _ => idtac end.
    all: by rewrite bool_decide_eq_false_2 in * by done.
Qed.

Lemma handler_queue e d :
  worker.select_error e = None →
  mail_queue (worker.handler e d).1
  = worker.process_rows e 0 (worker.select_pending (mail_queue d)) (mail_queue d).
Proof.
  intros Hselect. unfold worker.handler. rewrite Hselect.
  by destruct (worker.select_pending _).
Qed.

(** X17.  When [set_order_status] moves an order into paid and fewer than
    ten jobs wait in the queue, the next invocation of the worker whose
    [select] succeeds processes the confirmation of this order: the job
    for the customer's address ends as sent or error, stamped with the
    clock reading of its turn. *)
Theorem paid_order_is_mailed s oid o d d1 e :
  queue_ids_fresh d →
  orders d !! oid = Some o → orders.status o ≠ paid →
  set_order_status s oid (Some paid) d = (d1, inr tt) →
  worker.select_error e = None →
  (length (pending_jobs (mail_queue d)) < 10)%nat →
  ∃ c, customers d !! orders.customer_id o = Some c ∧
    let job := confirmation_job s d oid c in
    job ∈ mail_queue d1 ∧
    processed e job (worker.clock e (length (pending_jobs (mail_queue d))))
      ∈ mail_queue (worker.handler e d1).1.
Proof.
  intros Hfresh Ho Hst H Hselect Hlen.
  assert (queue_ids_fresh d1) as [Hdup1 _].
  { apply (queue_ids_fresh_step d); [done|]. left. by eright. }
  apply (set_order_status_paid s oid o) in H as (c & Hc & Hq); [|done..].
  exists c. split; [done|]. cbv zeta.
  set (job := confirmation_job s d oid c) in *.
  assert (job ∈ mail_queue d1) as Hin.
  { rewrite Hq. apply elem_of_app. right. by left. }
  split; [done|].
  assert (worker.select_pending (mail_queue d1) = pending_jobs (mail_queue d) ++ [job])
    as Hrows.
  { unfold worker.select_pending. fold (pending_jobs (mail_queue d1)).
    unfold pending_jobs. rewrite Hq, filter_app, (filter_cons_True _ job []) by done.
    rewrite filter_nil. apply take_ge. rewrite length_app. simpl.
    fold (pending_jobs (mail_queue d)). lia. }
  rewrite handler_queue, Hrows by done.
  apply (process_rows_hit e _ 0 _ (length (pending_jobs (mail_queue d))) job); [|..|done].
  - rewrite <- Hrows. eapply sublist_NoDup; [done|].
    apply fmap_sublist, select_pending_sublist.
  - by apply list_lookup_middle.
Qed.

(** The service marks Ana's order paid; the sample worker runs. *)
Lemma paid_order_is_mailed_witness :
  ∃ c, customers sample.ordered !! "cust-ana" = Some c ∧
    let job := confirmation_job sample.service sample.ordered "a0" c in
    job ∈ mail_queue sample.paid_for ∧
    processed sample_worker.env job (worker.clock sample_worker.env 0)
      ∈ mail_queue (worker.handler sample_worker.env sample.paid_for).1.
Proof.
  apply (paid_order_is_mailed sample.service "a0"
           (orders.mk "cust-ana" pending 1300 100 100)
           sample.ordered sample.paid_for sample_worker.env).
  - assert (mail_queue sample.ordered = []) as Hq by (vm_compute; reflexivity).
    split; [rewrite Hq; apply NoDup_nil_2|].
    intros r Hr. rewrite Hq in Hr. inversion Hr.
  - vm_compute. reflexivity.
  - done.
  - vm_compute. reflexivity.
  - reflexivity.
  - vm_compute. lia.
Defined.

(** ** The edge function [export-order-csv] *)

Lemma visible_products_lookup d pid : visible_products d !! pid = products d !! pid.
Proof.
  unfold visible_products. apply option_eq. intros p.
  rewrite map_lookup_filter_Some. unfold products_select_all. tauto.
Qed.

(** The query gives a caller every line of an order shown to them, and
    no line of another order. *)
Lemma select_items_lines e header (orderId : uuid) d :
  export_csv.select_items e header orderId d =
    match orders d !! orderId with
    | Some o =>
        if orders_select_own (export_csv.auth e header) d o
        then exported_line d <$> filter (λ oi, of_order orderId oi = true) (order_items d)
        else []
    | None => []
    end.
Proof.
  unfold export_csv.select_items.
  assert (∀ l : list order_items.row,
            (λ oi, export_csv.mk_item (order_items.order_id oi) (order_items.product_id oi)
                     (order_items.quantity oi) (order_items.unit_price_cents oi)
                     (match visible_products d !! order_items.product_id oi with
                      | Some p => Some (products.name p, products.sku p)
                      | None => None
                      end)) <$> l
            = exported_line d <$> l) as ->.
  { intros l. apply list_fmap_ext. intros _ oi _. unfold exported_line.
    rewrite visible_products_lookup. by destruct (products d !! _). }
  destruct (orders d !! orderId) as [o|] eqn:Ho.
  - destruct (orders_select_own _ d o) eqn:Hown.
    + f_equal. apply filter_ext_in. intros oi _.
      unfold of_order. rewrite bool_decide_eq_true.
      split; [by intros [_ ?]|]. intros Hoi. split; [|done].
      by rewrite order_items_select_own_order, Hoi, Ho.
    + rewrite (filter_none _ (order_items d)); [done|].
      intros oi _ [Hsel Hoi]. rewrite order_items_select_own_order, Hoi, Ho in Hsel.
      congruence.
  - rewrite (filter_none _ (order_items d)); [done|].
    intros oi _ [Hsel Hoi]. by rewrite order_items_select_own_order, Hoi, Ho in Hsel.
Qed.



(** X19.  A response 200 of the export carries every line of the order
    whose id the [order_id] of the request spells, in the order of the
    table: under the header row one row per line, with the sku and the
    name its product has now, the quantity, the unit price stored with the
    line and their product; the rows are joined by a backslash and the
    letter n, and the file is named after the [order_id] as spelled. *)
Theorem export_csv_lists_the_order e req d :
  export_csv.status (export_csv.handler e req d) = 200 →
  ∃ orderId id,
    export_csv.order_id req = Some orderId ∧ export_csv.uuid_in e orderId = inr id ∧
    let lines := filter (λ oi, of_order id oi = true) (order_items d) in
    lines ≠ [] ∧
    export_csv.body (export_csv.handler e req d)
      = export_csv.join (export_csv.backslash +:+ "n")
          ("SKU,Nome,Quantidade,Preço_Unitário,Subtotal"
           :: (export_csv.join "," ∘ export_csv.cells e ∘ exported_line d <$> lines)) ∧
    export_csv.headers (export_csv.handler e req d)
      = [("Content-Type", "text/csv; charset=utf-8");
         ("Content-Disposition", "attachment; filename=pedido_" +:+ orderId +:+ ".csv")].
Proof.
  unfold export_csv.handler.
  case_bool_decide as Hm; [|done]. simpl.
  destruct (export_csv.order_id req) as [[|a orderId]|] eqn:Hid; [done| |done].
  destruct (export_csv.Authorization req) as [[|b authHeader]|] eqn:Hauth; [done| |done].
  destruct (export_csv.select_error e _ _) eqn:Herr; [done|].
  destruct (export_csv.uuid_in e _) as [message|id] eqn:Hcast; [done|].
  rewrite select_items_lines.
  destruct (orders d !! id) as [o|] eqn:Ho; [|done].
  destruct (orders_select_own _ d o) eqn:Hown; [|done].
  destruct (filter _ (order_items d)) as [|oi l] eqn:Hl; [done|]. intros _.
  exists (String a orderId), id. split; [done|]. split; [done|]. cbv zeta. rewrite Hl.
  split; [done|]. split; [|done].
  cbn [export_csv.body]. unfold export_csv.csv_of, export_csv.line_separator.
  by rewrite list_fmap_compose.
Qed.

(** Ana exports her order of two pens and a notebook, spelling its id
    in upper case. *)
Lemma export_csv_lists_the_order_witness :
  ∃ orderId id,
    export_csv.order_id (sample_export.request "token-ana" "A0") = Some orderId ∧
    export_csv.uuid_in sample_export.env orderId = inr id ∧
    let lines := filter (λ oi, of_order id oi = true) (order_items sample.ordered) in
    lines ≠ [] ∧
    export_csv.body
      (export_csv.handler sample_export.env (sample_export.request "token-ana" "A0")
         sample.ordered)
      = export_csv.join (export_csv.backslash +:+ "n")
          ("SKU,Nome,Quantidade,Preço_Unitário,Subtotal"
           :: (export_csv.join "," ∘ export_csv.cells sample_export.env
                 ∘ exported_line sample.ordered <$> lines)) ∧
    export_csv.headers
      (export_csv.handler sample_export.env (sample_export.request "token-ana" "A0")
         sample.ordered)
      = [("Content-Type", "text/csv; charset=utf-8");
         ("Content-Disposition", "attachment; filename=pedido_" +:+ orderId +:+ ".csv")].
Proof.
  apply (export_csv_lists_the_order sample_export.env
           (sample_export.request "token-ana" "A0") sample.ordered).
  vm_compute. reflexivity.
Defined.

(** X20.  The pattern of the handler does not match a header of the
    usual form, [Bearer], a space and the token: such a header is taken
    whole as the token.  What the pattern strips is [Bearer], in any case,
    followed by a backslash and a run of the letter s. *)
Theorem jwt_of_keeps_the_bearer_prefix token :
  export_csv.jwt_of ("Bearer " +:+ token) = "Bearer " +:+ token ∧
  export_csv.jwt_of ("bearer" +:+ export_csv.backslash +:+ "sS." +:+ token) = "." +:+ token.
Proof. split; reflexivity. Qed.

Lemma set_order_status_customer_ids s oid next d d' r :
  set_order_status s oid next d = (d', r) →
  customers d' = customers d ∧ products d' = products d ∧
  order_items d' = order_items d ∧
  ∀ y, orders.customer_id <$> orders d' !! y = orders.customer_id <$> orders d !! y.
Proof.
  unfold set_order_status, transaction. intros H.
  destruct (set_order_status_body s oid next d) as [d1 [e1|[]]] eqn:Hbody; simplify_eq;
    [done|].
  unfold set_order_status_body, update_orders_status, enqueue_order_confirmation,
    insert_mail_queue in Hbody.
  unfold_M.
  destruct (orders d !! oid) as [o|] eqn:Ho; [|by simplify_eq].
  simpl in Hbody.
  repeat case_match; simplify_eq; simpl.
  all: split; [done|]; split; [done|]; split; [done|].
  all: intros y; destruct (decide (y = oid)) as [->|Hne].
  all: by rewrite ?lookup_insert_eq, ?lookup_insert_ne, ?Ho by done.
Qed.

Lemma handler_ext e req d d' :
  customers d' = customers d → order_items d' = order_items d →
  (∀ y, orders.customer_id <$> orders d' !! y = orders.customer_id <$> orders d !! y) →
  (∀ oi, exported_line d' oi = exported_line d oi) →
  export_csv.handler e req d' = export_csv.handler e req d.
Proof.
  intros Hc Hi Ho Hline.
  assert (∀ header (orderId : uuid),
            export_csv.select_items e header orderId d'
            = export_csv.select_items e header orderId d) as Hsel.
  { intros header orderId. rewrite !select_items_lines, Hi.
    specialize (Ho orderId).
    assert (∀ o o', orders.customer_id o' = orders.customer_id o →
              orders_select_own (export_csv.auth e header) d' o'
              = orders_select_own (export_csv.auth e header) d o) as Hown.
    { intros o o' Heq. unfold orders_select_own, visible_customers. by rewrite Hc, Heq. }
    destruct (orders d' !! orderId) as [o'|], (orders d !! orderId) as [o|];
      simplify_eq/=; [|done].
    rewrite (Hown o o') by done. destruct (orders_select_own _ d o); [|done].
    apply list_fmap_ext. intros _ oi _. apply Hline. }
  unfold export_csv.handler. cbv zeta.
  destruct (negb _); [done|].
  destruct (export_csv.order_id req) as [[|a orderId]|]; try done.
  destruct (export_csv.Authorization req) as [[|b authHeader]|]; try done.
  destruct (export_csv.select_error e _ _); [done|].
  destruct (export_csv.uuid_in e _) as [message|id]; [done|].
  by rewrite Hsel.
Qed.

(** X21.  The export of an order does not change when the price of a
    product is changed or when [set_order_status] is called, whatever the
    outcome: the file shows the prices stored with the lines, to the
    caller the order belongs to, whatever its status. *)
Theorem export_ignores_price_and_status e req d d' :
  (∃ s pid price r, update_products_price_cents s pid price d = (d', r)) ∨
  (∃ s oid next r, set_order_status s oid next d = (d', r)) →
  export_csv.handler e req d' = export_csv.handler e req d.
Proof.
  intros [(s & pid & price & r & H)|(s & oid & next & r & H)].
  - unfold update_products_price_cents in H. unfold_M.
    destruct (products d !! pid) as [p|] eqn:Hp; [|by simplify_eq].
    case_bool_decide; simplify_eq; [|done].
    apply handler_ext; try done.
    intros oi. unfold exported_line. simpl.
    destruct (decide (order_items.product_id oi = pid)) as [->|Hne].
    + by rewrite lookup_insert_eq, Hp.
    + by rewrite lookup_insert_ne.
  - apply set_order_status_customer_ids in H as (Hc & Hp & Hi & Ho).
    apply handler_ext; try done.
    intros oi. unfold exported_line. by rewrite Hp.
Qed.

(** The pen gets a new price after Ana has ordered. *)
Lemma export_ignores_price_and_status_witness :
  export_csv.handler sample_export.env (sample_export.request "token-ana" "a0")
    (sample.after (update_products_price_cents sample.service "caneta" 900) sample.ordered)
  = export_csv.handler sample_export.env (sample_export.request "token-ana" "a0")
      sample.ordered.
Proof.
  apply export_ignores_price_and_status.
  left. exists sample.service, "caneta", 900,
    (update_products_price_cents sample.service "caneta" 900 sample.ordered).2.
  apply surjective_pairing.
Defined.

(** ** The seed of the catalog *)

Section seed_row.
Context (s : session) (k : nat) (sku name description : string) (price_cents stock : Z).
Context (Hprice : 0 ≤ price_cents) (Hstock : 0 ≤ stock).

Local Abbreviation insert_row :=
  (insert_products_on_conflict_do_nothing s k sku name description price_cents stock).
Local Abbreviation new_row :=
  (products.mk sku name (Some description) price_cents "BRL" stock true (now s) (now s)).

(** A row whose sku is taken is skipped. *)
Lemma insert_row_skip d :
  map_Exists (λ _ p, products.sku p = sku) (products d) → insert_row d = (d, inr tt).
Proof using Hprice Hstock.
  intros Hsku. unfold insert_products_on_conflict_do_nothing. unfold_M.
  rewrite !bool_decide_eq_true_2 by done. simpl.
  rewrite (bool_decide_eq_true_2 (map_Exists _ _)) by done.
  by rewrite orb_true_r.
Qed.

(** A row is skipped or inserted under its id, which was free, with a
    sku that was free. *)
Lemma insert_row_run d :
  insert_row d = (d, inr tt) ∧
  (is_Some (products d !! gen_random_uuid s k) ∨
   map_Exists (λ _ p, products.sku p = sku) (products d))
  ∨
  insert_row d = (with_products d (<[gen_random_uuid s k := new_row]> (products d)), inr tt) ∧
  products d !! gen_random_uuid s k = None ∧
  ¬ map_Exists (λ _ p, products.sku p = sku) (products d).
Proof using Hprice Hstock.
  unfold insert_products_on_conflict_do_nothing. unfold_M.
  rewrite !bool_decide_eq_true_2 by done. simpl.
  case_bool_decide as Hid; simpl; [by left; split; [|left]|].
  case_bool_decide as Hsku; simpl; [by left; split; [|right]|].
  right. split; [done|]. split; [|done]. by apply eq_None_not_Some.
Qed.

(** What a row of the seed leaves behind, skipped or not. *)
Lemma insert_row_effect d :
  ∃ d', insert_row d = (d', inr tt) ∧
    customers d' = customers d ∧ orders d' = orders d ∧
    order_items d' = order_items d ∧ mail_queue d' = mail_queue d ∧
    mail_queue_id_seq d' = mail_queue_id_seq d ∧
    (∀ pid p, products d !! pid = Some p → products d' !! pid = Some p) ∧
    (∀ pid p, products d' !! pid = Some p → products d !! pid = None →
       pid = gen_random_uuid s k ∧ p = new_row ∧
       ¬ map_Exists (λ _ p, products.sku p = sku) (products d)) ∧
    (products d !! gen_random_uuid s k = None →
     map_Exists (λ _ p, products.sku p = sku) (products d')).
Proof using Hprice Hstock.
  destruct (insert_row_run d) as [[-> Hskip]|(-> & Hid & Hsku)].
  - exists d. do 6 (split; [done|]). split; [done|]. split; [congruence|].
    intros Hid. destruct Hskip as [[p Hp]|Hsku]; [congruence|done].
  - eexists. split; [done|]. do 5 (split; [done|]). simpl. split; [|split].
    + intros pid p Hp. rewrite lookup_insert_ne; [done|congruence].
    + intros pid p Hp Hnone. destruct (decide (pid = gen_random_uuid s k)) as [->|Hne].
      * rewrite lookup_insert_eq in Hp. by injection Hp as <-.
      * rewrite lookup_insert_ne in Hp by done. congruence.
    + intros _. eexists _, _. split; [apply lookup_insert_eq|done].
Qed.
End seed_row.

Lemma sku_taken_mono (d d' : db) sku :
  (∀ pid p, products d !! pid = Some p → products d' !! pid = Some p) →
  map_Exists (λ _ p, products.sku p = sku) (products d) →
  map_Exists (λ _ p, products.sku p = sku) (products d').
Proof. intros Hkeep (pid & p & Hp & Hsku). exists pid, p. eauto. Qed.

(** X22.  The seed never fails and only adds: every product stays as it
    is, the other tables are untouched, and a product it adds is active,
    priced in BRL, has one of the three skus of the seed, and that sku was
    not in use; so a catalog without two products of one sku stays so. *)
Theorem products_seed_only_adds s d :
  ∃ d', products_seed s d = (d', inr tt) ∧
    customers d' = customers d ∧ orders d' = orders d ∧
    order_items d' = order_items d ∧ mail_queue d' = mail_queue d ∧
    mail_queue_id_seq d' = mail_queue_id_seq d ∧
    (∀ pid p, products d !! pid = Some p → products d' !! pid = Some p) ∧
    (∀ pid p, products d' !! pid = Some p → products d !! pid = None →
       products.sku p ∈ seed_skus ∧ products.active p = true ∧
       products.currency p = "BRL" ∧
       ¬ map_Exists (λ _ q, products.sku q = products.sku p) (products d)) ∧
    (sku_unique d → sku_unique d').
Proof.
  unfold products_seed, transaction.
  destruct (insert_row_effect s 0 "BK-001" "Livro Infantil A"
              "Livro ilustrado com atividades educativas" 3990 50
              ltac:(done) ltac:(done) d)
    as (d1 & H1 & Hc1 & Ho1 & Hi1 & Hm1 & Hs1 & Hkeep1 & Hnew1 & _).
  destruct (insert_row_effect s 1 "BK-002" "Livro Infantil B"
              "Histórias curtas para leitura infantil" 4590 30
              ltac:(done) ltac:(done) d1)
    as (d2 & H2 & Hc2 & Ho2 & Hi2 & Hm2 & Hs2 & Hkeep2 & Hnew2 & _).
  destruct (insert_row_effect s 2 "BK-003" "Jogo Educacional"
              "Jogo de alfabetização divertido e interativo" 5990 20
              ltac:(done) ltac:(done) d2)
    as (d3 & H3 & Hc3 & Ho3 & Hi3 & Hm3 & Hs3 & Hkeep3 & Hnew3 & _).
  rewrite (bind_run _ _ _ _ _ H1), (bind_run _ _ _ _ _ H2), H3.
  exists d3. split; [done|].
  split; [congruence|]. split; [congruence|]. split; [congruence|].
  split; [congruence|]. split; [congruence|].
  assert (∀ pid p, products d3 !! pid = Some p →
            products d !! pid = Some p ∨
            products d !! pid = None ∧
            products.sku p ∈ seed_skus ∧ products.active p = true ∧
            products.currency p = "BRL" ∧
            (∀ pid' q, products d3 !! pid' = Some q → products.sku q = products.sku p →
               pid' = pid)) as Hcases.
  { intros pid p Hp.
    destruct (products d2 !! pid) as [p2|] eqn:Hp2.
    2:{ destruct (Hnew3 pid p Hp Hp2) as (-> & -> & Hfree).
        right. split.
        { destruct (products d !! _) as [p0|] eqn:Hp0; [|done].
          by rewrite (Hkeep2 _ _ (Hkeep1 _ _ Hp0)) in Hp2. }
        split; [by do 2 right; left|]. split; [done|]. split; [done|].
        intros pid' q Hq Hsku. simpl in Hsku.
        destruct (products d2 !! pid') as [q2|] eqn:Hq2.
        - destruct Hfree. exists pid', q2. split; [done|]. simpl.
          rewrite (Hkeep3 _ _ Hq2) in Hq. congruence.
        - by destruct (Hnew3 pid' q Hq Hq2) as (-> & _). }
    rewrite (Hkeep3 _ _ Hp2) in Hp. injection Hp as <-.
    destruct (products d1 !! pid) as [p1|] eqn:Hp1.
    2:{ destruct (Hnew2 pid p2 Hp2 Hp1) as (-> & -> & Hfree).
        right. split.
        { destruct (products d !! _) as [p0|] eqn:Hp0; [|done].
          by rewrite (Hkeep1 _ _ Hp0) in Hp1. }
        split; [by right; left|]. split; [done|]. split; [done|].
        intros pid' q Hq Hsku. simpl in Hsku.
        destruct (products d2 !! pid') as [q2|] eqn:Hq2.
        2:{ by destruct (Hnew3 pid' q Hq Hq2) as (_ & -> & _). }
        rewrite (Hkeep3 _ _ Hq2) in Hq. injection Hq as <-.
        destruct (products d1 !! pid') as [q1|] eqn:Hq1.
        - destruct Hfree. exists pid', q1. split; [done|]. simpl.
          rewrite (Hkeep2 _ _ Hq1) in Hq2. congruence.
        - by destruct (Hnew2 pid' q2 Hq2 Hq1) as (-> & _). }
    rewrite (Hkeep2 _ _ Hp1) in Hp2. injection Hp2 as <-.
    destruct (products d !! pid) as [p0|] eqn:Hp0.
    { rewrite (Hkeep1 _ _ Hp0) in Hp1. left. congruence. }
    destruct (Hnew1 pid p1 Hp1 Hp0) as (-> & -> & Hfree).
    right. split; [done|].
    split; [by left|]. split; [done|]. split; [done|].
    intros pid' q Hq Hsku. simpl in Hsku.
    destruct (products d2 !! pid') as [q2|] eqn:Hq2.
    2:{ by destruct (Hnew3 pid' q Hq Hq2) as (_ & -> & _). }
    rewrite (Hkeep3 _ _ Hq2) in Hq. injection Hq as <-.
    destruct (products d1 !! pid') as [q1|] eqn:Hq1.
    2:{ by destruct (Hnew2 pid' q2 Hq2 Hq1) as (_ & -> & _). }
    rewrite (Hkeep2 _ _ Hq1) in Hq2. injection Hq2 as <-.
    destruct (products d !! pid') as [q0|] eqn:Hq0.
    - destruct Hfree. exists pid', q0. split; [done|]. simpl.
      rewrite (Hkeep1 _ _ Hq0) in Hq1. congruence.
    - by destruct (Hnew1 pid' q1 Hq1 Hq0) as (-> & _). }
  split; [eauto|]. split.
  - intros pid p Hp Hnone.
    destruct (Hcases pid p Hp) as [Hold|(_ & Hsku & Hact & Hcur & Huniq)]; [congruence|].
    do 3 (split; [done|]). intros (pid' & q & Hq & Heq).
    assert (pid' = pid) as -> by eauto. congruence.
  - intros Huniq i j p q Hi Hj Heq.
    destruct (Hcases i p Hi) as [Hi0|(_ & _ & _ & _ & Hip)];
      destruct (Hcases j q Hj) as [Hj0|(_ & _ & _ & _ & Hjq)]; eauto.
    symmetry. eauto.
Qed.

(** X23.  Run again, the seed changes nothing: when the uuids of the
    first run were free and distinct, its three skus are in the catalog
    afterwards, and a second run, whatever uuids it draws, skips every
    row. *)
Theorem products_seed_twice s s' d :
  NoDup [gen_random_uuid s 0; gen_random_uuid s 1; gen_random_uuid s 2] →
  (∀ k, (k < 3)%nat → products d !! gen_random_uuid s k = None) →
  let d1 := (products_seed s d).1 in
  Forall (λ sku, map_Exists (λ _ p, products.sku p = sku) (products d1)) seed_skus ∧
  products_seed s' d1 = (d1, inr tt).
Proof.
  intros Hdup Hfree. unfold products_seed, transaction.
  destruct (insert_row_effect s 0 "BK-001" "Livro Infantil A"
              "Livro ilustrado com atividades educativas" 3990 50
              ltac:(done) ltac:(done) d)
    as (d1 & H1 & _ & _ & _ & _ & _ & Hkeep1 & Hnew1 & Hsku1).
  destruct (insert_row_effect s 1 "BK-002" "Livro Infantil B"
              "Histórias curtas para leitura infantil" 4590 30
              ltac:(done) ltac:(done) d1)
    as (d2 & H2 & _ & _ & _ & _ & _ & Hkeep2 & Hnew2 & Hsku2).
  destruct (insert_row_effect s 2 "BK-003" "Jogo Educacional"
              "Jogo de alfabetização divertido e interativo" 5990 20
              ltac:(done) ltac:(done) d2)
    as (d3 & H3 & _ & _ & _ & _ & _ & Hkeep3 & Hnew3 & Hsku3).
  rewrite (bind_run _ _ _ _ _ H1), (bind_run _ _ _ _ _ H2), H3. cbv zeta. simpl fst.
  apply NoDup_cons in Hdup as [Hne0 Hdup]. apply NoDup_cons in Hdup as [Hne1 _].
  assert (products d1 !! gen_random_uuid s 1 = None) as Hfree1.
  { destruct (products d1 !! _) as [p|] eqn:Hp; [|done].
    destruct (Hnew1 _ _ Hp (Hfree 1%nat ltac:(lia))) as (Heq & _).
    destruct Hne0. rewrite <- Heq. by left. }
  assert (products d2 !! gen_random_uuid s 2 = None) as Hfree2.
  { destruct (products d2 !! _) as [p|] eqn:Hp; [|done].
    destruct (products d1 !! gen_random_uuid s 2) as [p1|] eqn:Hp1.
    - destruct (Hnew1 _ _ Hp1 (Hfree 2%nat ltac:(lia))) as (Heq & _).
      destruct Hne0. rewrite <- Heq. by right; left.
    - destruct (Hnew2 _ _ Hp Hp1) as (Heq & _).
      destruct Hne1. rewrite <- Heq. by left. }
  assert (map_Exists (λ _ p, products.sku p = "BK-001") (products d3)) as Hs1.
  { eapply sku_taken_mono; [exact Hkeep3|]. eapply sku_taken_mono; [exact Hkeep2|].
    apply Hsku1, Hfree. lia. }
  assert (map_Exists (λ _ p, products.sku p = "BK-002") (products d3)) as Hs2.
  { eapply sku_taken_mono; [exact Hkeep3|]. by apply Hsku2. }
  assert (map_Exists (λ _ p, products.sku p = "BK-003") (products d3)) as Hs3.
  { by apply Hsku3. }
  split; [by repeat constructor|].
  rewrite (bind_run _ _ _ d3 _
             (insert_row_skip s' 0 "BK-001" _ _ 3990 50 ltac:(done) ltac:(done) d3 Hs1)).
  rewrite (bind_run _ _ _ d3 _
             (insert_row_skip s' 1 "BK-002" _ _ 4590 30 ltac:(done) ltac:(done) d3 Hs2)).
  by rewrite (insert_row_skip s' 2 "BK-003" _ _ 5990 20 ltac:(done) ltac:(done) d3 Hs3).
Qed.

(** The shop is seeded twice. *)
Lemma products_seed_twice_witness :
  let d1 := (products_seed sample.ana sample.shop).1 in
  Forall (λ sku, map_Exists (λ _ p, products.sku p = sku) (products d1)) seed_skus ∧
  products_seed sample.bia d1 = (d1, inr tt).
Proof.
  apply (products_seed_twice sample.ana sample.bia sample.shop).
  - apply (bool_decide_unpack _). vm_compute. exact I.
  - intros k Hk. destruct k as [|[|[|k]]]; [vm_compute; reflexivity..|lia].
Defined.

(** ** Calls of [set_order_status] one after the other *)

Lemma caller_owns_ext s s' d d' o o' :
  auth_uid s' = auth_uid s → customers d' = customers d →
  orders.customer_id o' = orders.customer_id o →
  caller_owns s' d' o' = caller_owns s d o.
Proof. unfold caller_owns, is_owner. by intros -> -> ->. Qed.

(** X24.  Once the owner has cancelled an order, no call of
    [set_order_status] by this owner changes it again: whatever status is
    asked for, the call is refused and the database stays as it is. *)
Theorem owner_cancel_is_final s s' oid o next next' d d1 :
  orders d !! oid = Some o → caller_owns s d o = true →
  set_order_status s oid (Some next) d = (d1, inr tt) →
  auth_uid s' = auth_uid s →
  next = canceled ∧ orders.status <$> orders d1 !! oid = Some canceled ∧
  set_order_status s' oid (Some next') d1 = (d1, inl Forbidden).
Proof.
  intros Ho Hown H Hs'.
  rewrite (set_order_status_owner s oid o next d) in H by done.
  case_bool_decide as Hedge; [|done]. destruct Hedge as [-> Hst].
  injection H as <-. split; [done|]. simpl. rewrite lookup_insert_eq.
  split; [done|].
  rewrite (set_order_status_owner s' oid (with_next_status s o canceled) next').
  - rewrite bool_decide_eq_false_2; [done|]. by intros [_ ?].
  - simpl. apply lookup_insert_eq.
  - by rewrite (caller_owns_ext s s' d _ o).
Qed.

(** Ana cancels her order and then asks for it to be pending again. *)
Lemma owner_cancel_is_final_witness :
  canceled = canceled ∧
  orders.status <$>
    orders (sample.after (set_order_status sample.ana "a0" (Some canceled)) sample.ordered)
    !! "a0" = Some canceled ∧
  set_order_status sample.ana "a0" (Some pending)
    (sample.after (set_order_status sample.ana "a0" (Some canceled)) sample.ordered)
  = (sample.after (set_order_status sample.ana "a0" (Some canceled)) sample.ordered,
     inl Forbidden).
Proof.
  apply (owner_cancel_is_final sample.ana sample.ana "a0"
           (orders.mk "cust-ana" pending 1300 100 100) canceled pending sample.ordered).
  - vm_compute. reflexivity.
  - vm_compute. reflexivity.
  - vm_compute. reflexivity.
  - reflexivity.
Defined.

(** The status after a call that succeeds, and the job it may add. *)
Lemma set_order_status_inr s oid next d d' :
  set_order_status s oid next d = (d', inr tt) →
  ∃ o n, orders d !! oid = Some o ∧ next = Some n ∧
    orders.status <$> orders d' !! oid = Some n ∧
    (orders.status o = paid →
     mail_queue d' = mail_queue d ∧ mail_queue_id_seq d' = mail_queue_id_seq d).
Proof.
  unfold set_order_status, transaction. intros H.
  destruct (set_order_status_body s oid next d) as [d1 [e1|[]]] eqn:Hbody; simplify_eq.
  unfold set_order_status_body, update_orders_status, enqueue_order_confirmation,
    insert_mail_queue in *.
  unfold_M.
  destruct (orders d !! oid) as [o|] eqn:Ho; [|by simplify_eq].
  simpl in Hbody. exists o.
  destruct next as [n|]; [exists n|repeat case_match; by simplify_eq].
  repeat case_match; simplify_eq; simpl; rewrite lookup_insert_eq;
    (split; [done|]); (split; [done|]); (split; [done|]); try done.
  all: intros Hpaid.
  all: match goal with H : _ && _ = true |- _ =>
         apply andb_true_iff in H as [_ ?%negb_true_iff%bool_decide_eq_false] end.
  all: done.
Qed.

(** X25.  Marking an order paid a second time sends no second mail: after
    a call of [set_order_status] that set the order to paid, a further
    call that sets it to paid again adds no job to the queue and draws no
    id. *)
Theorem paid_again_enqueues_nothing s s' oid d d1 d2 :
  set_order_status s oid (Some paid) d = (d1, inr tt) →
  set_order_status s' oid (Some paid) d1 = (d2, inr tt) →
  mail_queue d2 = mail_queue d1 ∧ mail_queue_id_seq d2 = mail_queue_id_seq d1.
Proof.
  intros H1 H2.
  apply set_order_status_inr in H1 as (o & n & _ & [= <-] & Hst & _).
  apply set_order_status_inr in H2 as (o1 & n1 & Ho1 & _ & _ & Hkeep).
  apply Hkeep. rewrite Ho1 in Hst. by injection Hst.
Qed.

(** The service marks Ana's order paid, twice. *)
Lemma paid_again_enqueues_nothing_witness :
  mail_queue (sample.after (set_order_status sample.service "a0" (Some paid)) sample.paid_for)
    = mail_queue sample.paid_for ∧
  mail_queue_id_seq
    (sample.after (set_order_status sample.service "a0" (Some paid)) sample.paid_for)
    = mail_queue_id_seq sample.paid_for.
Proof.
  apply (paid_again_enqueues_nothing sample.service sample.service "a0" sample.ordered).
  - vm_compute. reflexivity.
  - vm_compute. reflexivity.
Defined.

(** ** Who the export answers *)



(** ** The caller of [place_order] *)

Lemma select_customer_id_None u d :
  (∀ c row, customers d !! c = Some row → customers.user_id row ≠ Some u) →
  select_customer_id u d = (d, inr None).
Proof.
  intros Hnone. unfold select_customer_id. unfold_M. do 2 f_equal.
  destruct (head _) as [[c row]|] eqn:Hhead; [|done].
  apply head_Some_elem_of, elem_of_map_to_list, map_lookup_filter_Some in Hhead
    as [Hc Hu].
  by destruct (Hnone c row Hc).
Qed.

(** X27.  [place_order] looks at its caller before it looks at the
    items: when no customer record carries the caller's user id, the call
    fails with "Usuário não autenticado" for a caller without user id and
    with "Cliente não encontrado" otherwise, whatever the argument, be it
    no array at all, and the database stays as it is. *)
Theorem place_order_checks_caller_first s items d :
  (∀ c row, customers d !! c = Some row → auth_uid s = None ∨
            customers.user_id row ≠ auth_uid s) →
  place_order s items d =
    (d, inl (match auth_uid s with
             | Some _ => CustomerNotFound
             | None => Unauthenticated
             end)).
Proof.
  intros Hnone. unfold place_order, transaction, place_order_body.
  destruct (auth_uid s) as [u|]; [|unfold_M; by rewrite rollback_same_seq].
  rewrite (bind_run _ _ _ d _ (select_customer_id_None u d
             ltac:(intros c row Hrow; by destruct (Hnone c row Hrow)))).
  unfold_M. by rewrite rollback_same_seq.
Qed.

(** A user without customer record sends something that is no array. *)
Lemma place_order_checks_caller_first_witness :
  place_order (mk_session (Some "user-eva") 300 (sample.uuids "e")) jsonb_not_array
    sample.shop
  = (sample.shop, inl CustomerNotFound).
Proof.
  apply (place_order_checks_caller_first
           (mk_session (Some "user-eva") 300 (sample.uuids "e")) jsonb_not_array
           sample.shop).
  intros c row Hrow. right.
  unfold sample.shop in Hrow. simpl in Hrow.
  apply lookup_insert_Some in Hrow as [[_ <-]|[_ Hrow]]; [done|].
  by apply lookup_singleton_Some in Hrow as [_ <-].
Defined.

(** ** The update time of products *)

Lemma place_order_loop_stamps s oid items : ∀ k d d' pid p p',
  place_order_loop s oid k items d = (d', inr tt) →
  products d !! pid = Some p → products d' !! pid = Some p' →
  p' = p ∨ (products.stock p' < products.stock p ∧ products.updated_at p' = now s).
Proof.
  induction items as [|it items IH]; intros k d d' pid p p' H Hp Hp'; simpl in *.
  - unfold_M. simplify_eq. by left.
  - apply bind_inr in H as ([] & d1 & Hit & H).
    apply place_order_item_frame in Hit
      as (_ & pid1 & q & p1 & _ & Hp1 & Hq & Hle & Hprod1).
    destruct (decide (pid1 = pid)) as [->|Hne].
    + simplify_eq. right.
      destruct (IH _ _ _ pid _ p' H ltac:(rewrite Hprod1; apply lookup_insert_eq) Hp')
        as [->|[Hlt Hnow]]; simpl in *; [split; [lia|done]|split; [lia|done]].
    + eapply IH; [done| |done]. by rewrite Hprod1, lookup_insert_ne.
Qed.

(** X28.  A call of [place_order] that succeeds leaves each product
    either exactly as it was or with less stock and the time of the call
    as [updated_at]: the trigger [trg_products_updated] stamps the rows the
    call takes stock from, and no other. *)
Theorem place_order_stamps_products s items d d' oid pid p p' :
  place_order s items d = (d', inr oid) →
  products d !! pid = Some p → products d' !! pid = Some p' →
  p' = p ∨ (products.stock p' < products.stock p ∧ products.updated_at p' = now s).
Proof.
  intros H Hp Hp'.
  apply place_order_inr in H as (u & c & d0 & _ & _ & Ho & _ & Hloop).
  apply insert_orders_inr in Ho as (-> & _ & _ & ->).
  by eapply place_order_loop_stamps.
Qed.

(** The pens after Ana's order. *)
Lemma place_order_stamps_products_witness :
  products.mk "SKU-1" "Caneta" None 500 "BRL" 3 true 0 100 = sample.caneta ∨
  (products.stock (products.mk "SKU-1" "Caneta" None 500 "BRL" 3 true 0 100)
     < products.stock sample.caneta ∧
   products.updated_at (products.mk "SKU-1" "Caneta" None 500 "BRL" 3 true 0 100)
     = now sample.ana).
Proof.
  apply (place_order_stamps_products sample.ana
           (jsonb_array [sample.line "caneta" 2; sample.line "caderno" 1])
           sample.shop sample.ordered "a0" "caneta").
  - vm_compute. reflexivity.
  - vm_compute. reflexivity.
  - vm_compute. reflexivity.
Defined.
